(** * Insurance query parser and decision engine: a shallow embedding

    This development embeds two Python modules in Rocq:

    - [parse.py]: [parse_query], a cascade of regular-expression searches
      that extracts age, gender, policy duration, location and procedure
      from a free-text query;
    - [everything.py]: [InsuranceClaimsProcessor], with
      [extract_waiting_periods], [compute_similarity],
      [check_waiting_period], [check_procedure_coverage],
      [make_decision] and [_ensure_embeddings] (its effect on the corpus).

    Conventions of the embedding.

    - Python [str] values are Rocq [string]s; the character functions
      ([lower], [\s], [\d], [\w], [\b] ...) are written out for the ASCII
      range, which is where every pattern and keyword of the source lives.
    - Python [int] is [Z].
    - In [Engine] the floats of Python and NumPy are read as real numbers
      [R]: it carries the statements that rounding, NaN and infinities
      cannot change.  [Engine64] embeds the same decision methods over
      binary64, the kernel's primitive floats, for what rounding decides.
      The true division [num / 30] of an unbounded [int], where the
      source's control flow depends on the binary64 range, is modelled
      with its correctly rounded binary64 quotient and its
      [OverflowError].
    - A Python exception is the [Raise] constructor of [result]; a
      [try]/[except] is a [match] on the result.
    - The processor object and the [parsed] dictionary live in a store that
      the three decision methods thread explicitly. *)

From Stdlib Require Import String Ascii List ZArith Bool Arith Lia.
From Stdlib Require Import Reals Lra.
From Stdlib Require Import Sorted Permutation.
From Stdlib Require PrimFloat FloatAxioms SpecFloat.
Import ListNotations.


Local Open Scope string_scope.
Local Open Scope Z_scope.

(* ===================================================================== *)
(** * Exceptions *)
(* ===================================================================== *)

Inductive py_exn : Type :=
| ValueError
| KeyError
| OverflowError
| AttributeError
| TypeError
| EncoderError.

Inductive result (A : Type) : Type :=
| Ok (a : A)
| Raise (e : py_exn).

Arguments Ok {A} a.
Arguments Raise {A} e.

Definition rbind {A B} (x : result A) (f : A -> result B) : result B :=
  match x with
  | Ok a => f a
  | Raise e => Raise e
  end.

(* ===================================================================== *)
(** * Python string primitives, ASCII range *)
(* ===================================================================== *)

Module Py.

Definition code (c : ascii) : nat := nat_of_ascii c.

Definition in_range (lo hi : nat) (c : ascii) : bool :=
  (lo <=? code c)%nat && (code c <=? hi)%nat.

(** [str.isspace] on one character: TAB..CR, FS..US and SPACE. *)
Definition is_space (c : ascii) : bool :=
  in_range 9 13 c || in_range 28 32 c.

Definition is_digit (c : ascii) : bool := in_range 48 57 c.
Definition is_upper (c : ascii) : bool := in_range 65 90 c.
Definition is_lower (c : ascii) : bool := in_range 97 122 c.
Definition is_alpha (c : ascii) : bool := is_upper c || is_lower c.

(** [\w]: letters, digits and the underscore. *)
Definition is_word (c : ascii) : bool :=
  is_alpha c || is_digit c || (code c =? 95)%nat.

Definition lower_char (c : ascii) : ascii :=
  if is_upper c then ascii_of_nat (code c + 32) else c.

Definition upper_char (c : ascii) : ascii :=
  if is_lower c then ascii_of_nat (code c - 32) else c.

Fixpoint map_string (f : ascii -> ascii) (s : string) : string :=
  match s with
  | EmptyString => EmptyString
  | String c r => String (f c) (map_string f r)
  end.

(** [s.lower()] *)
Definition lower (s : string) : string := map_string lower_char s.

Definition chars (s : string) : list ascii := list_ascii_of_string s.
Definition of_chars (l : list ascii) : string := string_of_list_ascii l.

Fixpoint lstrip_chars (l : list ascii) : list ascii :=
  match l with
  | c :: r => if is_space c then lstrip_chars r else l
  | [] => []
  end.

(** [s.strip()] *)
Definition strip (s : string) : string :=
  of_chars (rev (lstrip_chars (rev (lstrip_chars (chars s))))).

(** [s.split()]: the maximal runs of non-space characters. *)
Fixpoint split_go (cur : list ascii) (l : list ascii) : list string :=
  match l with
  | [] => match cur with [] => [] | _ => [of_chars (rev cur)] end
  | c :: r =>
      if is_space c
      then match cur with
           | [] => split_go [] r
           | _ => of_chars (rev cur) :: split_go [] r
           end
      else split_go (c :: cur) r
  end.

Definition split (s : string) : list string := split_go [] (chars s).

(** [sep.join(parts)] *)
Fixpoint join (sep : string) (parts : list string) : string :=
  match parts with
  | [] => ""
  | [p] => p
  | p :: r => p ++ sep ++ join sep r
  end.

(** [s.title()]: a letter that follows a letter is lowered, any other
    letter is raised. *)
Fixpoint title_go (prev_cased : bool) (s : string) : string :=
  match s with
  | EmptyString => EmptyString
  | String c r =>
      if is_alpha c
      then String (if prev_cased then lower_char c else upper_char c)
                  (title_go true r)
      else String c (title_go false r)
  end.

Definition title (s : string) : string := title_go false s.

(** [s.startswith(p)] *)
Definition startswith (p s : string) : bool := String.prefix p s.

(** [sub in s] *)
Fixpoint contains (sub s : string) : bool :=
  String.prefix sub s ||
  match s with
  | EmptyString => false
  | String _ r => contains sub r
  end.

Fixpoint all_chars (p : ascii -> bool) (s : string) : bool :=
  match s with
  | EmptyString => true
  | String c r => p c && all_chars p r
  end.

(** [s.isdigit()] *)
Definition isdigit (s : string) : bool :=
  negb (String.eqb s "") && all_chars is_digit s.

(** Truthiness of a string: [not s] is [negb (truthy s)]. *)
Definition truthy (s : string) : bool := negb (String.eqb s "").

Fixpoint digits_value (acc : Z) (s : string) : Z :=
  match s with
  | EmptyString => acc
  | String c r => digits_value (10 * acc + Z.of_nat (code c - 48)) r
  end.

(** CPython's default limit on the length of a decimal string given to
    [int] ([sys.int_info.default_max_str_digits]). *)
Definition int_max_str_digits : nat := 4300.

(** [int(s)] on a captured group: [ValueError] unless [s] is a non-empty
    run of decimal digits within the length limit. *)
Definition int (s : string) : result Z :=
  if isdigit s && (String.length s <=? int_max_str_digits)%nat
  then Ok (digits_value 0 s)
  else Raise ValueError.

(** Rounding of the fraction [n / d] (with [d > 0]) to the nearest
    integer, ties to the even one. *)
Definition round_half_even (n d : Z) : Z :=
  let q := n / d in
  let r := n mod d in
  if 2 * r <? d then q
  else if d <? 2 * r then q + 1
  else if Z.even q then q else q + 1.

(** A finite binary64 value [m * 2^e]. *)
Record float64 : Type := { mant : Z; expo : Z }.

(** [a / b] for ints [a >= 0], [b > 0] whose quotient is not subnormal:
    the binary64 nearest to the exact quotient (ties to even), and
    [OverflowError] when that exceeds the largest finite binary64. *)
Definition truediv (a b : Z) : result float64 :=
  if a =? 0 then Ok {| mant := 0; expo := 0 |}
  else
    let scaled (e : Z) : Z * Z :=
      if 0 <=? e then (a, b * 2 ^ e) else (a * 2 ^ (- e), b) in
    let e0 := Z.log2 a - Z.log2 b - 53 in
    let '(n0, d0) := scaled e0 in
    let e := if 2 ^ 53 * d0 <=? n0 then e0 + 1 else e0 in
    let '(n, d) := scaled e in
    let m := round_half_even n d in
    if 0 <=? e
    then if 2 ^ 1024 <=? m * 2 ^ e then Raise OverflowError
         else Ok {| mant := m; expo := e |}
    else Ok {| mant := m; expo := e |}.

(** [round(x)] of a float, to an [int]. *)
Definition round (x : float64) : Z :=
  if 0 <=? expo x then mant x * 2 ^ expo x
  else round_half_even (mant x) (2 ^ (- expo x)).

(** Stable sort by decreasing key: [sorted(l, key=f, reverse=True)]. *)
Fixpoint insert_desc {A} (f : A -> nat) (x : A) (l : list A) : list A :=
  match l with
  | [] => [x]
  | y :: r => if (f y <? f x)%nat then x :: l else y :: insert_desc f x r
  end.

Definition sorted_desc {A} (f : A -> nat) (l : list A) : list A :=
  fold_left (fun acc x => insert_desc f x acc) l [].

End Py.

(* ===================================================================== *)
(** * Regular expressions: the fragment of Python's [re] the source uses *)
(* ===================================================================== *)

Module Re.

(** Character sets: what a one-character atom of a pattern can be. *)
Inductive cset : Type :=
| CChar (c : ascii)
| CRange (lo hi : ascii)
| CDigit
| CSpace
| CUnion (a b : cset)
| CNone.

Fixpoint cset_mem (s : cset) (c : ascii) : bool :=
  match s with
  | CChar d => Ascii.eqb c d
  | CRange lo hi => Py.in_range (Py.code lo) (Py.code hi) c
  | CDigit => Py.is_digit c
  | CSpace => Py.is_space c
  | CUnion a b => cset_mem a c || cset_mem b c
  | CNone => false
  end.

(** Patterns.  A quantifier [*], [+], [{m,n}] is only ever applied to a
    one-character atom in the source; [?] is also applied to groups. *)
Inductive regex : Type :=
| Eps
| Set_ (s : cset)
| Seq (a b : regex)
| Alt (a b : regex)
| Rep (s : cset) (lo : nat) (hi : option nat)
| Opt (a : regex)
| Group (i : nat) (a : regex)
| NegLook (a : regex)
| WordB
| Never.

(** ** Compiling a pattern string *)

Definition achar (n : nat) : ascii := ascii_of_nat n.

Definition c_bslash : ascii := achar 92.
Definition c_lparen : ascii := achar 40.
Definition c_rparen : ascii := achar 41.
Definition c_lbrack : ascii := achar 91.
Definition c_rbrack : ascii := achar 93.
Definition c_lbrace : ascii := achar 123.
Definition c_rbrace : ascii := achar 125.
Definition c_bar : ascii := achar 124.
Definition c_star : ascii := achar 42.
Definition c_plus : ascii := achar 43.
Definition c_quest : ascii := achar 63.
Definition c_colon : ascii := achar 58.
Definition c_bang : ascii := achar 33.
Definition c_dash : ascii := achar 45.
Definition c_comma : ascii := achar 44.

Definition is_ch (a b : ascii) : bool := Ascii.eqb a b.

(** One item of a bracketed class, after the opening bracket. *)
Definition class_escape (c : ascii) : cset :=
  if is_ch c "d"%char then CDigit
  else if is_ch c "s"%char then CSpace
  else CChar c.

Fixpoint parse_class (acc : cset) (l : list ascii)
  : option (cset * list ascii) :=
  match l with
  | [] => None
  | c :: r =>
      if is_ch c c_rbrack then Some (acc, r)
      else if is_ch c c_bslash then
        match r with
        | e :: r' => parse_class (CUnion acc (class_escape e)) r'
        | [] => None
        end
      else
        match r with
        | d :: hi :: r' =>
            if is_ch d c_dash && negb (is_ch hi c_rbrack)
            then parse_class (CUnion acc (CRange c hi)) r'
            else parse_class (CUnion acc (CChar c)) r
        | _ => parse_class (CUnion acc (CChar c)) r
        end
  end.

Fixpoint parse_nat (acc : nat) (l : list ascii) : nat * list ascii :=
  match l with
  | c :: r =>
      if Py.is_digit c then parse_nat (10 * acc + (Py.code c - 48)) r
      else (acc, l)
  | [] => (acc, l)
  end.

(** The quantifier that may follow an atom. *)
Definition quantify (a : regex) (l : list ascii)
  : option (regex * list ascii) :=
  match l with
  | q :: r =>
      if is_ch q c_star then
        match a with Set_ s => Some (Rep s 0 None, r) | _ => None end
      else if is_ch q c_plus then
        match a with Set_ s => Some (Rep s 1 None, r) | _ => None end
      else if is_ch q c_quest then
        match a with
        | Set_ s => Some (Rep s 0 (Some 1%nat), r)
        | _ => Some (Opt a, r)
        end
      else if is_ch q c_lbrace then
        let '(lo, r1) := parse_nat 0 r in
        match r1 with
        | x :: r2 =>
            if is_ch x c_comma then
              let '(hi, r3) := parse_nat 0 r2 in
              match a, r3 with
              | Set_ s, y :: r4 =>
                  if is_ch y c_rbrace then Some (Rep s lo (Some hi), r4) else None
              | _, _ => None
              end
            else if is_ch x c_rbrace then
              match a with
              | Set_ s => Some (Rep s lo (Some lo), r2)
              | _ => None
              end
            else None
        | [] => None
        end
      else Some (a, l)
  | [] => Some (a, l)
  end.

(** An escape outside a class. *)
Definition atom_escape (c : ascii) : regex :=
  if is_ch c "b"%char then WordB
  else if is_ch c "d"%char then Set_ CDigit
  else if is_ch c "s"%char then Set_ CSpace
  else Set_ (CChar c).

(** Recursive descent; [g] is the number of capturing groups opened so
    far, so that groups are numbered by their opening parenthesis. *)
Fixpoint parse_alt (fuel : nat) (l : list ascii) (g : nat)
  : option (regex * list ascii * nat) :=
  match fuel with
  | O => None
  | S fuel' =>
      match parse_seq fuel' l g with
      | Some (a, r, g1) =>
          match r with
          | c :: r' =>
              if is_ch c c_bar then
                match parse_alt fuel' r' g1 with
                | Some (b, r2, g2) => Some (Alt a b, r2, g2)
                | None => None
                end
              else Some (a, r, g1)
          | [] => Some (a, r, g1)
          end
      | None => None
      end
  end

with parse_seq (fuel : nat) (l : list ascii) (g : nat)
  : option (regex * list ascii * nat) :=
  match fuel with
  | O => None
  | S fuel' =>
      match l with
      | [] => Some (Eps, l, g)
      | c :: _ =>
          if is_ch c c_bar || is_ch c c_rparen then Some (Eps, l, g)
          else
            match parse_atom fuel' l g with
            | Some (a, r, g1) =>
                match quantify a r with
                | Some (qa, r1) =>
                    match parse_seq fuel' r1 g1 with
                    | Some (Eps, r2, g2) => Some (qa, r2, g2)
                    | Some (b, r2, g2) => Some (Seq qa b, r2, g2)
                    | None => None
                    end
                | None => None
                end
            | None => None
            end
      end
  end

with parse_atom (fuel : nat) (l : list ascii) (g : nat)
  : option (regex * list ascii * nat) :=
  match fuel with
  | O => None
  | S fuel' =>
      let close (wrap : regex -> regex)
                (x : option (regex * list ascii * nat)) :=
        match x with
        | Some (a, c :: r, g1) =>
            if is_ch c c_rparen then Some (wrap a, r, g1) else None
        | _ => None
        end in
      match l with
      | [] => None
      | c :: r =>
          if is_ch c c_lparen then
            match r with
            | q :: k :: r' =>
                if is_ch q c_quest && is_ch k c_colon
                then close (fun a => a) (parse_alt fuel' r' g)
                else if is_ch q c_quest && is_ch k c_bang
                then close NegLook (parse_alt fuel' r' g)
                else if is_ch q c_quest then None
                else close (Group (S g)) (parse_alt fuel' r (S g))
            | _ => close (Group (S g)) (parse_alt fuel' r (S g))
            end
          else if is_ch c c_lbrack then
            match parse_class CNone r with
            | Some (s, r') => Some (Set_ s, r', g)
            | None => None
            end
          else if is_ch c c_bslash then
            match r with
            | e :: r' => Some (atom_escape e, r', g)
            | [] => None
            end
          else Some (Set_ (CChar c), r, g)
      end
  end.

(** [re.compile(pattern)]: [None] when the pattern is outside the
    fragment. *)
Definition compile (pattern : string) : option regex :=
  let l := Py.chars pattern in
  match parse_alt (4 * List.length l + 8) l 0 with
  | Some (r, [], _) => Some r
  | _ => None
  end.

Definition pattern (p : string) : regex :=
  match compile p with
  | Some r => r
  | None => Never
  end.

(** ** Matching *)

(** A position in the subject: the character before it (for [\b]), what
    is left, the offset, and the groups closed so far (latest first). *)
Record mstate : Type := {
  prev : option ascii;
  rest : list ascii;
  pos : nat;
  caps : list (nat * string)
}.

Definition word_before (st : mstate) : bool :=
  match prev st with Some c => Py.is_word c | None => false end.

Definition word_after (st : mstate) : bool :=
  match rest st with c :: _ => Py.is_word c | [] => false end.

Definition below (hi : option nat) (n : nat) : bool :=
  match hi with Some h => (n <? h)%nat | None => true end.

(** Greedy repetition of a one-character atom: take as many as allowed,
    then give back one at a time until the continuation succeeds. *)
Fixpoint rep (s : cset) (lo : nat) (hi : option nat) (n : nat)
    (pv : option ascii) (l : list ascii) (p : nat) (cs : list (nat * string))
    (k : mstate -> option mstate) {struct l} : option mstate :=
  let stop :=
    if (lo <=? n)%nat
    then k {| prev := pv; rest := l; pos := p; caps := cs |}
    else None in
  match l with
  | c :: tl =>
      if cset_mem s c && below hi n then
        match rep s lo hi (S n) (Some c) tl (S p) cs k with
        | Some st => Some st
        | None => stop
        end
      else stop
  | [] => stop
  end.

(** Backtracking matcher in continuation-passing style: [k] is what the
    rest of the pattern does with the position reached. *)
Fixpoint run (r : regex) (st : mstate) (k : mstate -> option mstate)
  : option mstate :=
  match r with
  | Eps => k st
  | Set_ s =>
      match rest st with
      | c :: tl =>
          if cset_mem s c
          then k {| prev := Some c; rest := tl; pos := S (pos st);
                    caps := caps st |}
          else None
      | [] => None
      end
  | Seq a b => run a st (fun st1 => run b st1 k)
  | Alt a b =>
      match run a st k with
      | Some st' => Some st'
      | None => run b st k
      end
  | Rep s lo hi => rep s lo hi 0 (prev st) (rest st) (pos st) (caps st) k
  | Opt a =>
      match run a st k with
      | Some st' => Some st'
      | None => k st
      end
  | Group i a =>
      run a st (fun st1 =>
        k {| prev := prev st1; rest := rest st1; pos := pos st1;
             caps := (i, Py.of_chars (firstn (pos st1 - pos st) (rest st)))
                       :: caps st1 |})
  | NegLook a =>
      match run a st (fun st1 => Some st1) with
      | Some _ => None
      | None => k st
      end
  | WordB => if xorb (word_before st) (word_after st) then k st else None
  | Never => None
  end.

(** A match object. *)
Record match_obj : Type := {
  m_start : nat;
  m_end : nat;
  m_text : string;                 (* group(0) *)
  m_caps : list (nat * string)
}.

(** [m.group(i)] for [i >= 1]; [None] when the group took no part. *)
Fixpoint lookup (i : nat) (cs : list (nat * string)) : option string :=
  match cs with
  | [] => None
  | (j, s) :: r => if (i =? j)%nat then Some s else lookup i r
  end.

Definition group (m : match_obj) (i : nat) : option string :=
  lookup i (m_caps m).

Definition match_at (r : regex) (pv : option ascii) (l : list ascii)
    (p : nat) : option match_obj :=
  match run r {| prev := pv; rest := l; pos := p; caps := [] |}
            (fun st => Some st) with
  | Some st =>
      Some {| m_start := p; m_end := pos st;
              m_text := Py.of_chars (firstn (pos st - p) l);
              m_caps := caps st |}
  | None => None
  end.

Fixpoint search_from (r : regex) (pv : option ascii) (l : list ascii)
    (p : nat) : option match_obj :=
  match match_at r pv l p with
  | Some m => Some m
  | None =>
      match l with
      | c :: tl => search_from r (Some c) tl (S p)
      | [] => None
      end
  end.

(** [re.search(pattern, s)]: the leftmost match. *)
Definition search (r : regex) (s : string) : option match_obj :=
  search_from r None (Py.chars s) 0.

(** Successive non-overlapping matches, left to right; [skip] counts the
    characters of the previous match still to step over. *)
Fixpoint finditer_from (r : regex) (pv : option ascii) (l : list ascii)
    (p : nat) (skip : nat) : list match_obj :=
  match skip with
  | S skip' =>
      match l with
      | c :: tl => finditer_from r (Some c) tl (S p) skip'
      | [] => []
      end
  | O =>
      match match_at r pv l p with
      | Some m =>
          m :: match l with
               | c :: tl =>
                   finditer_from r (Some c) tl (S p)
                                 (Nat.pred (m_end m - m_start m))
               | [] => []
               end
      | None =>
          match l with
          | c :: tl => finditer_from r (Some c) tl (S p) 0
          | [] => []
          end
      end
  end.

(** [re.finditer(pattern, s)] *)
Definition finditer (r : regex) (s : string) : list match_obj :=
  finditer_from r None (Py.chars s) 0 0.

(** [re.findall(pattern, s)] for a pattern with two groups: the pairs of
    group texts, a group that took no part giving the empty string. *)
Definition findall2 (r : regex) (s : string) : list (string * string) :=
  let text o := match o with Some t => t | None => "" end in
  map (fun m => (text (group m 1), text (group m 2))) (finditer r s).

(** [re.escape(s)] *)
Definition is_special (c : ascii) : bool :=
  Py.contains (String c "") "()[]{}?*+-|^$\.&~# " || Py.in_range 9 13 c.

Fixpoint escape (s : string) : string :=
  match s with
  | EmptyString => EmptyString
  | String c r =>
      if is_special c then String c_bslash (String c (escape r))
      else String c (escape r)
  end.

(** Whether a pattern lies in the fragment. *)
Definition compiles (p : string) : bool :=
  match compile p with Some _ => true | None => false end.

(** The spans and texts of the successive matches. *)
Definition spans (p s : string) : list (nat * nat * string) :=
  map (fun m => (m_start m, m_end m, m_text m)) (finditer (pattern p) s).

End Re.

(* ===================================================================== *)
(** * parse.py *)
(* ===================================================================== *)

Module Parse.

(** What a caller may hand to [parse_query]. *)
Inductive pyobj : Type :=
| PyNone
| PyBool (b : bool)
| PyInt (n : Z)
| PyFloat (m e : Z)
| PyStr (s : string)
| PyBytes (b : list ascii).

Inductive Gender : Type := Male | Female.

(** The dictionary [parsed]; every key but [raw_query] starts as [None]. *)
Record ParsedQuery : Type := {
  raw_query : pyobj;
  age : option Z;
  gender : option Gender;
  procedure : option string;
  location : option string;
  policy_duration_months : option Z
}.

Definition set_age (p : ParsedQuery) (a : Z) : ParsedQuery :=
  {| raw_query := raw_query p; age := Some a; gender := gender p;
     procedure := procedure p; location := location p;
     policy_duration_months := policy_duration_months p |}.

Definition set_gender (p : ParsedQuery) (g : Gender) : ParsedQuery :=
  {| raw_query := raw_query p; age := age p; gender := Some g;
     procedure := procedure p; location := location p;
     policy_duration_months := policy_duration_months p |}.

Definition set_procedure (p : ParsedQuery) (s : string) : ParsedQuery :=
  {| raw_query := raw_query p; age := age p; gender := gender p;
     procedure := Some s; location := location p;
     policy_duration_months := policy_duration_months p |}.

Definition set_location (p : ParsedQuery) (s : string) : ParsedQuery :=
  {| raw_query := raw_query p; age := age p; gender := gender p;
     procedure := procedure p; location := Some s;
     policy_duration_months := policy_duration_months p |}.

Definition set_duration (p : ParsedQuery) (n : Z) : ParsedQuery :=
  {| raw_query := raw_query p; age := age p; gender := gender p;
     procedure := procedure p; location := location p;
     policy_duration_months := Some n |}.

(** [parsed] as first built: all five extracted fields unknown. *)
Definition initial (query : pyobj) : ParsedQuery :=
  {| raw_query := query; age := None; gender := None; procedure := None;
     location := None; policy_duration_months := None |}.

(** ** Age and gender *)

Definition age_gender_patterns : list string := [
  "\b(\d{1,3})\s*[/\-,]?\s*([mf])(?![a-z])\b";
  "\b(\d{1,3})\s+(male|female)\b";
  "\b(male|female)\s+(\d{1,3})\b";
  "\bage[:\s]*(\d{1,3})[,\s]*(male|female)?\b";
  "\b(male|female)[,\s]*age[:\s]*(\d{1,3})\b"
].

Fixpoint enumerate_from {A} (i : nat) (l : list A) : list (nat * A) :=
  match l with
  | [] => []
  | x :: r => (i, x) :: enumerate_from (S i) r
  end.

Definition enumerate {A} (l : list A) : list (nat * A) := enumerate_from 0 l.

Definition in_nats (i : nat) (l : list nat) : bool := existsb (Nat.eqb i) l.

(** [0 <= age <= 120] *)
Definition age_in_range (a : Z) : bool := (0 <=? a) && (a <=? 120).

(** The gender a group text that starts with m or f stands for. *)
Definition gender_of_prefix (p : ParsedQuery) (g : string) : ParsedQuery :=
  if Py.startswith "m" (Py.lower g) then set_gender p Male
  else if Py.startswith "f" (Py.lower g) then set_gender p Female
  else p.

(** The body of [if match:] for combined pattern number [i], up to (and
    not including) the [break] that follows it. *)
Definition age_gender_apply (i : nat) (m : Re.match_obj) (p : ParsedQuery)
  : result ParsedQuery :=
  let group1 := Re.group m 1 in
  let group2 := Re.group m 2 in
  if in_nats i [0; 1; 3]%nat then
    match group1 with
    | None => Raise AttributeError
    | Some g1 =>
        if Py.isdigit g1 then
          rbind (Py.int g1) (fun a =>
            if age_in_range a then
              let p1 := set_age p a in
              match group2 with
              | Some g2 =>
                  if Py.truthy g2 then Ok (gender_of_prefix p1 g2) else Ok p1
              | None => Ok p1
              end
            else Ok p)
        else Ok p
    end
  else if in_nats i [2; 4]%nat then
    match group2 with
    | Some g2 =>
        if Py.truthy g2 && Py.isdigit g2 then
          rbind (Py.int g2) (fun a =>
            if age_in_range a then
              match group1 with
              | Some g1 => Ok (gender_of_prefix (set_age p a) g1)
              | None => Raise AttributeError
              end
            else Ok p)
        else Ok p
    | None => Ok p
    end
  else Ok p.

(** The [for i, pattern in enumerate(age_gender_patterns)] loop: the first
    pattern that matches runs its body and the loop [break]s. *)
Fixpoint age_gender_loop (pats : list (nat * string)) (q_lower : string)
    (p : ParsedQuery) : result ParsedQuery :=
  match pats with
  | [] => Ok p
  | (i, pat) :: more =>
      match Re.search (Re.pattern pat) q_lower with
      | Some m => age_gender_apply i m p
      | None => age_gender_loop more q_lower p
      end
  end.

Definition age_only_patterns : list string := [
  "\bage[:\s]*(\d{1,3})\b";
  "\b(\d{1,3})\s*(?:years?|yrs?)\s*old\b";
  "\b(\d{1,3})\s*yo\b"
].

(** The age-only loop: here the [break] sits inside the range test. *)
Fixpoint age_only_loop (pats : list string) (q_lower : string)
    (p : ParsedQuery) : result ParsedQuery :=
  match pats with
  | [] => Ok p
  | pat :: more =>
      match Re.search (Re.pattern pat) q_lower with
      | Some m =>
          match Re.group m 1 with
          | None => Raise TypeError
          | Some g =>
              rbind (Py.int g) (fun a =>
                if age_in_range a then Ok (set_age p a)
                else age_only_loop more q_lower p)
          end
      | None => age_only_loop more q_lower p
      end
  end.

Definition gender_patterns : list string := [
  "\b(male|female)\b";
  "\b([mf])(?![a-z])\b"
].

Definition in_strings (s : string) (l : list string) : bool :=
  existsb (String.eqb s) l.

Fixpoint gender_loop (pats : list string) (q_lower : string)
    (p : ParsedQuery) : result ParsedQuery :=
  match pats with
  | [] => Ok p
  | pat :: more =>
      match Re.search (Re.pattern pat) q_lower with
      | Some m =>
          match Re.group m 1 with
          | None => Raise AttributeError
          | Some g =>
              let gender_str := Py.lower g in
              if in_strings gender_str ["male"; "m"] then Ok (set_gender p Male)
              else if in_strings gender_str ["female"; "f"]
                   then Ok (set_gender p Female)
              else Ok p
          end
      | None => gender_loop more q_lower p
      end
  end.

(** ** Policy duration *)

Definition duration_patterns : list string := [
  "\b(\d+)\s*[-]?\s*(months?|mo(?:nth)?(?!le)|years?|yrs?|days?)\s*(?:policy|plan|coverage)?\b";
  "\b(?:policy|plan|coverage)\s*(?:of|for)?\s*(\d+)\s*(months?|mo(?:nth)?(?!le)|years?|yrs?|days?)\b";
  "\b(\d+)\s*[-]?\s*(m(?!ale|ore)|y(?!oung)|d)\s*(?:policy|plan)?\b"
].

(** [any(keyword in unit for keyword in keywords)] *)
Definition any_in (keywords : list string) (unit : string) : bool :=
  existsb (fun keyword => Py.contains keyword unit) keywords.

(** [max(1, round(num / 30))] *)
Definition days_to_months (num : Z) : result Z :=
  rbind (Py.truediv num 30) (fun x => Ok (Z.max 1 (Py.round x))).

(** The conversion to months, as the [if]/[elif]/[else] on [unit] has it. *)
Definition to_months (num : Z) (unit : string) : result Z :=
  if any_in ["year"; "yr"; "y"] unit then Ok (num * 12)
  else if any_in ["day"; "d"] unit then days_to_months num
  else Ok num.

(** The [try] body for one duration match. *)
Definition duration_of_match (m : Re.match_obj) : result Z :=
  match Re.group m 1 with
  | None => Raise TypeError
  | Some g1 =>
      rbind (Py.int g1) (fun num =>
        match Re.group m 2 with
        | None => Raise AttributeError
        | Some g2 => to_months num (Py.lower g2)
        end)
  end.

(** The duration loop: a match whose body succeeds sets the field and
    [break]s; [ValueError] is caught and the loop [continue]s; any other
    exception leaves the function. *)
Fixpoint duration_loop (pats : list string) (q_lower : string)
    (p : ParsedQuery) : result ParsedQuery :=
  match pats with
  | [] => Ok p
  | pat :: more =>
      match Re.search (Re.pattern pat) q_lower with
      | Some m =>
          match duration_of_match m with
          | Ok n => Ok (set_duration p n)
          | Raise ValueError => duration_loop more q_lower p
          | Raise e => Raise e
          end
      | None => duration_loop more q_lower p
      end
  end.

(** ** Location *)

Definition cities_mapping : list (string * string) := [
  ("pune", "Pune"); ("mumbai", "Mumbai"); ("delhi", "Delhi");
  ("new delhi", "Delhi");
  ("bangalore", "Bangalore"); ("bengaluru", "Bangalore");
  ("chennai", "Chennai");
  ("kolkata", "Kolkata"); ("calcutta", "Kolkata");
  ("hyderabad", "Hyderabad");
  ("ahmedabad", "Ahmedabad"); ("surat", "Surat"); ("jaipur", "Jaipur");
  ("lucknow", "Lucknow"); ("kanpur", "Kanpur"); ("nagpur", "Nagpur");
  ("indore", "Indore"); ("thane", "Thane"); ("bhopal", "Bhopal");
  ("visakhapatnam", "Visakhapatnam"); ("pimpri", "Pimpri");
  ("patna", "Patna");
  ("vadodara", "Vadodara"); ("ghaziabad", "Ghaziabad");
  ("ludhiana", "Ludhiana");
  ("agra", "Agra"); ("nashik", "Nashik"); ("faridabad", "Faridabad");
  ("meerut", "Meerut"); ("rajkot", "Rajkot")
].

(** [sorted(cities_mapping.keys(), key=len, reverse=True)], each key kept
    with its value. *)
Definition sorted_cities : list (string * string) :=
  Py.sorted_desc (fun kv => String.length (fst kv)) cities_mapping.

Fixpoint location_loop (cities : list (string * string)) (q_lower : string)
    (p : ParsedQuery) : ParsedQuery :=
  match cities with
  | [] => p
  | (city, canonical) :: more =>
      match Re.search (Re.pattern ("\b" ++ Re.escape city ++ "\b")) q_lower with
      | Some _ => set_location p canonical
      | None => location_loop more q_lower p
      end
  end.

(** ** Procedure *)

Definition medical_keywords : list (string * list string) := [
  ("surgery", ["surgery"; "surgical"; "operation"; "operative"]);
  ("replacement", ["replacement"; "implant"; "prosthetic"]);
  ("reconstruction", ["reconstruction"; "reconstructive"; "repair"]);
  ("treatment", ["treatment"; "therapy"; "therapeutic"]);
  ("diagnostic", ["biopsy"; "scan"; "test"; "screening"; "examination"]);
  ("cardiac", ["angioplasty"; "bypass"; "stent"; "cardiac"]);
  ("transplant", ["transplant"; "transplantation"]);
  ("procedure", ["procedure"; "intervention"])
].

Definition all_keywords : list string := flat_map snd medical_keywords.

Definition procedure_patterns : list string :=
  let kw := Py.join "|" all_keywords in [
  "\b([a-z]+)\s+(" ++ kw ++ ")\b";
  "\b(" ++ kw ++ ")\s+(?:of|on|for)\s+([a-z]+)\b";
  "\b(" ++ kw ++ ")\b";
  "\b([a-z]+\s+(?:replacement|reconstruction|repair)(?:\s+surgery)?)\b"
].

(** The inner loop over the matches of one pattern: a strictly longer
    span replaces the best one so far. *)
Definition longer (best : option string * nat) (m : Re.match_obj)
  : option string * nat :=
  let procedure_text := Py.strip (Re.m_text m) in
  if (snd best <? String.length procedure_text)%nat
  then (Some procedure_text, String.length procedure_text)
  else best.

Definition best_procedure (q_lower : string) : option string :=
  fst (fold_left
         (fun best pat =>
            fold_left longer (Re.finditer (Re.pattern pat) q_lower) best)
         procedure_patterns (None, 0%nat)).

Definition procedure_step (q_lower : string) (p : ParsedQuery) : ParsedQuery :=
  match best_procedure q_lower with
  | Some b =>
      if Py.truthy b
      then set_procedure p (Py.title (Py.join " " (Py.split b)))
      else p
  | None => p
  end.

(** ** [parse_query] *)

(** Everything after the combined age+gender loop. *)
Definition remaining_fields (q_lower : string) (p1 : ParsedQuery)
  : result ParsedQuery :=
  rbind (match age p1 with
         | None => age_only_loop age_only_patterns q_lower p1
         | Some _ => Ok p1
         end) (fun p2 =>
  rbind (match gender p2 with
         | None => gender_loop gender_patterns q_lower p2
         | Some _ => Ok p2
         end) (fun p3 =>
  rbind (duration_loop duration_patterns q_lower p3) (fun p4 =>
  Ok (procedure_step q_lower (location_loop sorted_cities q_lower p4))))).

Definition parse_query (query : pyobj) : result ParsedQuery :=
  let parsed := initial query in
  match query with
  | PyStr s =>
      if negb (Py.truthy s) then Ok parsed
      else
        let q_lower := Py.strip (Py.lower s) in
        rbind (age_gender_loop (enumerate age_gender_patterns) q_lower parsed)
              (remaining_fields q_lower)
  | _ => Ok parsed
  end.

(** ** Vocabulary for the statements about the cascade *)

(** The first pattern of a list that matches, with its index and match. *)
Fixpoint first_match (pats : list (nat * string)) (q_lower : string)
  : option (nat * Re.match_obj) :=
  match pats with
  | [] => None
  | (i, pat) :: more =>
      match Re.search (Re.pattern pat) q_lower with
      | Some m => Some (i, m)
      | None => first_match more q_lower
      end
  end.

(** The number in the age group of combined pattern [i]. *)
Definition captured_age (i : nat) (m : Re.match_obj) : option Z :=
  let g := if in_nats i [0; 1; 3]%nat then Re.group m 1
           else if in_nats i [2; 4]%nat then Re.group m 2
           else None in
  match g with
  | Some t => match Py.int t with Ok a => Some a | Raise _ => None end
  | None => None
  end.

(** A digit string too long for [num / 30] to fit a float. *)
Fixpoint zeros (n : nat) : string :=
  match n with
  | O => EmptyString
  | S k => String "0" (zeros k)
  end.

Definition overflow_query : string := "1" ++ zeros 310 ++ "d".

End Parse.

(* ===================================================================== *)
(** * everything.py: [InsuranceClaimsProcessor] *)
(* ===================================================================== *)

Module Engine.

Import Parse.

Local Open Scope R_scope.

(** ** Data *)

(** An embedding vector. *)
Definition vec : Type := list R.

(** [self.model]: only [encode] is used; it returns a vector or raises. *)
Definition Encoder : Type := string -> result vec.

(** One clause of [all_clauses]: a dictionary whose keys ["text"] and
    ["embedding"] may each be missing. *)
Record Clause : Type := {
  text : option string;
  embedding : option vec
}.

Inductive Verdict : Type := approved | rejected | needs_review.

(** The justification strings are f-strings over these data. *)
Inductive Justification : Type :=
| InvalidQuery
| WaitingShortfall (policy_duration min_required : Z) (procedure : string)
| MissingInformation
| SemanticError
| Excluded (procedure : string) (best_score : R)
| Covered (procedure : string) (best_score : R)
| ManualReview (procedure : string) (best_score : R)
| NotFound (procedure : string).

Record Decision : Type := {
  decision : Verdict;
  justification : list Justification;
  clauses : list string;
  confidence : R
}.

(** The objects a call can reach: the [parsed] dictionary it is given
    ([None] for a falsy one) and the processor's two fields. *)
Record Store : Type := {
  parsed : option ParsedQuery;
  all_clauses : list Clause;
  model : option Encoder
}.

(** ** Store and exception monad *)

Definition M (A : Type) : Type := Store -> result A * Store.

Definition ret {A} (a : A) : M A := fun st => (Ok a, st).

Definition bind {A B} (m : M A) (f : A -> M B) : M B :=
  fun st =>
    match m st with
    | (Ok a, st1) => f a st1
    | (Raise e, st1) => (Raise e, st1)
    end.

Definition lift {A} (r : result A) : M A := fun st => (r, st).

(** [try: m except Exception: handler] *)
Definition try_except {A} (m : M A) (handler : M A) : M A :=
  fun st =>
    match m st with
    | (Ok a, st1) => (Ok a, st1)
    | (Raise _, st1) => handler st1
    end.

Definition read {A} (f : Store -> A) : M A := fun st => (Ok (f st), st).

Definition write_all_clauses (cs : list Clause) : M unit :=
  fun st => (Ok tt, {| parsed := parsed st; all_clauses := cs;
                       model := model st |}).

Notation "x <- m ;; k" := (bind m (fun x => k))
  (at level 61, m at next level, right associativity).

(** [parsed.get(key)] *)
Definition parsed_get {A} (field : ParsedQuery -> option A) : M (option A) :=
  read (fun st => match parsed st with Some p => field p | None => None end).

(** A loop over a list that threads the loop's local variables. *)
Fixpoint for_each {A S} (body : S -> A -> M S) (l : list A) (acc : S) : M S :=
  match l with
  | [] => ret acc
  | x :: r => acc1 <- body acc x ;; for_each body r acc1
  end.

(** ** Comparisons of reals *)

Definition gtb (x y : R) : bool := if Rgt_dec x y then true else false.

(** ** [extract_waiting_periods] *)

Definition waiting_patterns : list string := [
  "(\d+)\s*(day|days|month|months|year|years|yr|yrs)";
  "(\d+)[-]?(day|days|month|months|year|years|yr|yrs)";
  "waiting\s+period\s+(?:of\s+)?(\d+)\s*(day|days|month|months|year|years|yr|yrs)"
]%string.

(** The [try] body for one [(num_str, unit)] pair: the periods it adds. *)
Definition period_of (num_str unit : string) : result (list Z) :=
  rbind (Py.int num_str) (fun num =>
    if (num <=? 0)%Z then Ok []
    else if Py.contains "year" unit || Py.contains "yr" unit
    then Ok [(num * 12)%Z]
    else if Py.contains "day" unit
    then rbind (days_to_months num) (fun n => Ok [n])
    else Ok [num]).

(** The inner loop: [ValueError] is caught and the pair skipped. *)
Fixpoint periods_of_matches (matches : list (string * string))
    (periods : list Z) : result (list Z) :=
  match matches with
  | [] => Ok periods
  | (num_str, unit) :: more =>
      match period_of num_str unit with
      | Ok ps => periods_of_matches more (periods ++ ps)%list
      | Raise ValueError => periods_of_matches more periods
      | Raise e => Raise e
      end
  end.

Fixpoint periods_of_patterns (pats : list string) (lowered : string)
    (periods : list Z) : result (list Z) :=
  match pats with
  | [] => Ok periods
  | pat :: more =>
      rbind (periods_of_matches (Re.findall2 (Re.pattern pat) lowered) periods)
            (periods_of_patterns more lowered)
  end.

Definition extract_waiting_periods (text : string) : result (list Z) :=
  if negb (Py.truthy text) then Ok []
  else periods_of_patterns waiting_patterns (Py.lower text) [].

(** ** NumPy on vectors *)

(** [np.dot] of two one-dimensional arrays: [ValueError] on a length
    mismatch. *)
Fixpoint dot (a b : vec) : result R :=
  match a, b with
  | [], [] => Ok 0
  | x :: a', y :: b' => rbind (dot a' b') (fun d => Ok (x * y + d))
  | _, _ => Raise ValueError
  end.

Fixpoint sum_squares (a : vec) : R :=
  match a with
  | [] => 0
  | x :: a' => x * x + sum_squares a'
  end.

(** [np.linalg.norm] *)
Definition norm (a : vec) : R := sqrt (sum_squares a).

Definition epsilon : R := / 100000000.

(** [np.dot(a, b) / (np.linalg.norm(a) * np.linalg.norm(b) + 1e-8)],
    read over the reals; the rounded quotient the source computes is
    [Engine64.cosine]. *)
Definition cosine (a b : vec) : result R :=
  rbind (dot a b) (fun d => Ok (d / (norm a * norm b + epsilon))).

(** ** [compute_similarity] *)

(** The [try] body. *)
Definition similarity_body (encode : Encoder) (text1 text2 : string)
  : result R :=
  rbind (encode text1) (fun emb1 =>
  rbind (encode text2) (fun emb2 =>
  rbind (cosine emb1 emb2) (fun similarity =>
  Ok (Rmax 0 (Rmin 1 similarity))))).

Definition compute_similarity (text1 text2 : string) : M R :=
  m <- read model ;;
  match m with
  | Some encode =>
      if negb (Py.truthy text1) || negb (Py.truthy text2) then ret 0
      else try_except (lift (similarity_body encode text1 text2)) (ret 0)
  | None => ret 0
  end.

(** ** [check_waiting_period] *)

(** The [for term in procedure_terms] loop; only whether some term
    qualifies is observed, so the set is kept as the list of words. *)
Definition term_mentioned (procedure_terms : list string)
    (clause_text : string) : bool :=
  existsb (fun term =>
             (2 <? String.length term)%nat && Py.contains term clause_text)
          procedure_terms.

(** The body of [for clause in self.all_clauses]; the locals it threads
    are [waiting_periods] and [relevant_clauses]. *)
Definition waiting_body (procedure : string) (procedure_terms : list string)
    (acc : list Z * list string) (clause : Clause)
  : M (list Z * list string) :=
  match text clause with
  | None => ret acc
  | Some t =>
      let clause_text := Py.lower t in
      if negb (Py.contains "waiting period" clause_text) then ret acc
      else
        let lexical := term_mentioned procedure_terms clause_text in
        m <- read model ;;
        procedure_mentioned <-
          (match m with
           | Some _ =>
               if negb lexical then
                 try_except
                   (similarity <- compute_similarity procedure clause_text ;;
                    ret (if gtb similarity (3 / 10) then true else lexical))
                   (ret lexical)
               else ret lexical
           | None => ret lexical
           end) ;;
        if (procedure_mentioned : bool) then
          periods <- lift (extract_waiting_periods clause_text) ;;
          match periods with
          | [] => ret acc
          | _ => ret ((fst acc ++ periods)%list, (snd acc ++ [t])%list)
          end
        else ret acc
  end.

(** [min(waiting_periods)] of a non-empty list. *)
Definition minimum (x : Z) (l : list Z) : Z := fold_left Z.min l x.

(** Truthiness of [parsed.get("policy_duration_months")]. *)
Definition truthy_int (o : option Z) : bool :=
  match o with Some n => negb (n =? 0)%Z | None => false end.

Definition truthy_str (o : option string) : bool :=
  match o with Some s => Py.truthy s | None => false end.

Definition truthy_list {A} (l : list A) : bool :=
  match l with [] => false | _ => true end.

Definition check_waiting_period : M (option Decision) :=
  duration <- parsed_get policy_duration_months ;;
  proc <- parsed_get Parse.procedure ;;
  cs <- read all_clauses ;;
  match duration, proc with
  | Some policy_duration, Some parsed_procedure =>
      if negb (truthy_int duration) || negb (truthy_str proc)
         || negb (truthy_list cs)
      then ret None
      else
        let procedure := Py.lower parsed_procedure in
        let procedure_terms := Py.split procedure in
        acc <- for_each (waiting_body procedure procedure_terms) cs ([], []) ;;
        let '(waiting_periods, relevant_clauses) := acc in
        match waiting_periods with
        | [] => ret None
        | w :: ws =>
            let min_required := minimum w ws in
            if (policy_duration <? min_required)%Z then
              ret (Some {|
                decision := rejected;
                justification :=
                  [WaitingShortfall policy_duration min_required
                                    parsed_procedure];
                clauses := firstn 2 relevant_clauses;
                confidence := 9 / 10 |})
            else ret None
        end
  | _, _ => ret None
  end.

(** ** [check_procedure_coverage] *)

Definition exclusion_keywords : list string := [
  "not covered"; "excluded"; "not payable"; "not eligible";
  "except"; "excluding"; "does not cover"; "shall not";
  "not applicable"; "not included"
]%string.

Definition is_excluded (clause_text : string) : bool :=
  existsb (fun keyword => Py.contains keyword clause_text) exclusion_keywords.

(** The body of the scoring loop; its locals are [best_match] and
    [best_score].  The inner [try] turns any failure into [continue]. *)
Definition best_body (proc_emb : vec) (best : option Clause * R)
    (clause : Clause) : option Clause * R :=
  match embedding clause with
  | None => best
  | Some [] => best
  | Some clause_emb =>
      match cosine proc_emb clause_emb with
      | Ok similarity =>
          if gtb similarity (snd best) then (Some clause, similarity)
          else best
      | Raise _ => best
      end
  end.

Definition find_best (proc_emb : vec) (cs : list Clause)
  : option Clause * R :=
  fold_left (best_body proc_emb) cs (None, 0).

(** [best_match["text"]] *)
Definition text_of (c : Clause) : result string :=
  match text c with
  | Some t => Ok t
  | None => Raise KeyError
  end.

Definition missing_information : Decision :=
  {| decision := needs_review; justification := [MissingInformation];
     clauses := []; confidence := 0 |}.

Definition semantic_error : Decision :=
  {| decision := needs_review; justification := [SemanticError];
     clauses := []; confidence := 0 |}.

Definition not_found (procedure : string) : Decision :=
  {| decision := needs_review; justification := [NotFound procedure];
     clauses := []; confidence := 0 |}.

(** The decision made from the best match, after the scoring loop. *)
Definition classify (procedure : string) (best : option Clause * R)
  : result Decision :=
  let best_score := snd best in
  match fst best with
  | Some best_match =>
      if gtb best_score (45 / 100) then
        rbind (text_of best_match) (fun t =>
          if is_excluded (Py.lower t) then
            Ok {| decision := rejected;
                  justification := [Excluded procedure best_score];
                  clauses := [t];
                  confidence := Rmin (9 / 10) (best_score + 1 / 10) |}
          else
            Ok {| decision := approved;
                  justification := [Covered procedure best_score];
                  clauses := [t];
                  confidence := best_score |})
      else if gtb best_score (25 / 100) then
        rbind (text_of best_match) (fun t =>
          Ok {| decision := needs_review;
                justification := [ManualReview procedure best_score];
                clauses := [t];
                confidence := best_score |})
      else Ok (not_found procedure)
  | None => Ok (not_found procedure)
  end.

Definition check_procedure_coverage : M Decision :=
  proc <- parsed_get Parse.procedure ;;
  cs <- read all_clauses ;;
  m <- read model ;;
  match proc, m with
  | Some procedure, Some encode =>
      if negb (truthy_str proc) || negb (truthy_list cs)
      then ret missing_information
      else
        match encode procedure with
        | Ok proc_emb => lift (classify procedure (find_best proc_emb cs))
        | Raise _ => ret semantic_error
        end
  | _, _ => ret missing_information
  end.

(** ** [make_decision] *)

Definition invalid_query : Decision :=
  {| decision := needs_review; justification := [InvalidQuery];
     clauses := []; confidence := 0 |}.

Definition make_decision : M Decision :=
  p <- read parsed ;;
  match p with
  | None => ret invalid_query
  | Some _ =>
      waiting_decision <- check_waiting_period ;;
      match waiting_decision with
      | Some d => ret d
      | None => check_procedure_coverage
      end
  end.

(** ** [_ensure_embeddings], the one method that writes the corpus *)

Definition has_embedding (c : Clause) : bool :=
  match embedding c with Some _ => true | None => false end.

Definition embed_clause (encode : Encoder) (c : Clause) : Clause :=
  match text c with
  | None => c
  | Some t =>
      match encode t with
      | Ok e => {| text := text c; embedding := Some e |}
      | Raise _ => {| text := text c; embedding := Some [] |}
      end
  end.

Definition ensure_embeddings : M unit :=
  cs <- read all_clauses ;;
  m <- read model ;;
  match m with
  | Some encode =>
      if negb (truthy_list cs) then ret tt
      else if forallb has_embedding cs then ret tt
      else write_all_clauses (map (embed_clause encode) cs)
  | None => ret tt
  end.

(** ** Vocabulary for the statements about the engine *)

(** What [compute_similarity] returns in a store. *)
Definition similarity (st : Store) (text1 text2 : string) : R :=
  match fst (compute_similarity text1 text2 st) with
  | Ok r => r
  | Raise _ => 0
  end.

(** A clause is relevant to a (lowered) procedure when its lowered text
    contains "waiting period" and either shares a word of more than two
    letters with the procedure or, an encoder being loaded, is more than
    0.3 similar to it. *)
Definition relevant (st : Store) (procedure : string) (c : Clause) : bool :=
  match text c with
  | None => false
  | Some t =>
      let clause_text := Py.lower t in
      Py.contains "waiting period" clause_text &&
      (term_mentioned (Py.split procedure) clause_text ||
       match model st with
       | Some _ => gtb (similarity st procedure clause_text) (3 / 10)
       | None => false
       end)
  end.

(** The periods a clause contributes to the pool. *)
Definition clause_periods (st : Store) (procedure : string) (c : Clause)
  : result (list Z) :=
  match text c with
  | Some t =>
      if relevant st procedure c then extract_waiting_periods (Py.lower t)
      else Ok []
  | None => Ok []
  end.

(** The texts of the clauses that contributed at least one period. *)
Fixpoint contributing_texts (cs : list Clause) (pss : list (list Z))
  : list string :=
  match cs, pss with
  | c :: cs', ps :: pss' =>
      match ps, text c with
      | _ :: _, Some t => t :: contributing_texts cs' pss'
      | _, _ => contributing_texts cs' pss'
      end
  | _, _ => []
  end.

(** The texts of all relevant clauses. *)
Definition relevant_texts (st : Store) (procedure : string)
    (cs : list Clause) : list string :=
  flat_map (fun c => if relevant st procedure c
                     then match text c with Some t => [t] | None => [] end
                     else []) cs.

Definition is_min (m : Z) (l : list Z) : Prop :=
  In m l /\ forall x, In x l -> (m <= x)%Z.

(** The score of a clause against the procedure embedding: defined when
    the clause carries a non-empty embedding of the same length. *)
Definition score (proc_emb : vec) (c : Clause) : option R :=
  match embedding c with
  | None => None
  | Some [] => None
  | Some clause_emb =>
      match cosine proc_emb clause_emb with
      | Ok s => Some s
      | Raise _ => None
      end
  end.

(** [parsed.get("procedure")] in a store. *)
Definition procedure_of (st : Store) : option string :=
  match parsed st with
  | Some q => Parse.procedure q
  | None => None
  end.

(** Two clauses on knee surgery: the first names the waiting period
    without stating one, the second states 24 months. *)
Definition clause_without_period : Clause :=
  {| text := Some "The waiting period rules apply to knee surgery.";
     embedding := None |}.

Definition clause_24_months : Clause :=
  {| text := Some "Knee surgery has a waiting period of 24 months.";
     embedding := None |}.

Definition knee_query (months : Z) : ParsedQuery :=
  {| raw_query := PyNone; age := Some 46%Z; gender := Some Male;
     procedure := Some "Knee Surgery"; location := Some "Pune";
     policy_duration_months := Some months |}.

(** A processor without encoder whose corpus is those two clauses. *)
Definition store_without_encoder (months : Z) : Store :=
  {| parsed := Some (knee_query months);
     all_clauses := [clause_without_period; clause_24_months];
     model := None |}.

(** A processor whose encoder maps every text to the same unit vector,
    with one clause embedded as that vector. *)
Definition covered_clause : Clause :=
  {| text := Some "Knee surgery is covered after hospitalisation.";
     embedding := Some [1] |}.


(** A computation that leaves the store as it found it. *)
Definition read_only {A} (m : M A) : Prop := forall st, snd (m st) = st.

(** What one clause does to the loop's locals. *)
Definition after_clause (acc : list Z * list string) (c : Clause)
    (ps : list Z) : list Z * list string :=
  match ps, text c with
  | _ :: _, Some t => ((fst acc ++ ps)%list, (snd acc ++ [t])%list)
  | _, _ => acc
  end.

End Engine.

(* ===================================================================== *)
(** * The decision methods in binary64 arithmetic *)
(* ===================================================================== *)

(** [Engine] reads the floats of the source as real numbers, which is
    enough for every statement that rounding cannot change.  This module
    embeds the same three decision methods and [compute_similarity] with
    the arithmetic the source runs: NumPy's and Python's binary64 floats,
    as the kernel's primitive floats (IEEE 754, round to nearest even).
    The encoder is any object with an [encode] method; here it hands over
    binary64 arrays, as the lists of floats cached in the clauses are.
    What does not compute with floats ([extract_waiting_periods], the
    lexical tests, the verdicts) is shared with [Engine]. *)

Module Engine64.

Import Parse PrimFloat.

#[local] Set Warnings "-inexact-float".
Local Open Scope float_scope.

(** ** Data *)

Definition vec : Type := list float.

Definition Encoder : Type := string -> result vec.

Record Clause : Type := {
  text : option string;
  embedding : option vec
}.

Inductive Justification : Type :=
| InvalidQuery
| WaitingShortfall (policy_duration min_required : Z) (procedure : string)
| MissingInformation
| SemanticError
| Excluded (procedure : string) (best_score : float)
| Covered (procedure : string) (best_score : float)
| ManualReview (procedure : string) (best_score : float)
| NotFound (procedure : string).

Record Decision : Type := {
  decision : Engine.Verdict;
  justification : list Justification;
  clauses : list string;
  confidence : float
}.

Record Store : Type := {
  parsed : option ParsedQuery;
  all_clauses : list Clause;
  model : option Encoder
}.

(** ** Store and exception monad *)

Definition M (A : Type) : Type := Store -> result A * Store.

Definition ret {A} (a : A) : M A := fun st => (Ok a, st).

Definition bind {A B} (m : M A) (f : A -> M B) : M B :=
  fun st =>
    match m st with
    | (Ok a, st1) => f a st1
    | (Raise e, st1) => (Raise e, st1)
    end.

Definition lift {A} (r : result A) : M A := fun st => (r, st).

(** [try: m except Exception: handler] *)
Definition try_except {A} (m : M A) (handler : M A) : M A :=
  fun st =>
    match m st with
    | (Ok a, st1) => (Ok a, st1)
    | (Raise _, st1) => handler st1
    end.

Definition read {A} (f : Store -> A) : M A := fun st => (Ok (f st), st).

Notation "x <- m ;; k" := (bind m (fun x => k))
  (at level 61, m at next level, right associativity).

(** [parsed.get(key)] *)
Definition parsed_get {A} (field : ParsedQuery -> option A) : M (option A) :=
  read (fun st => match parsed st with Some p => field p | None => None end).

Fixpoint for_each {A S} (body : S -> A -> M S) (l : list A) (acc : S) : M S :=
  match l with
  | [] => ret acc
  | x :: r => acc1 <- body acc x ;; for_each body r acc1
  end.

(** ** Comparisons, [min] and [max] of floats *)

(** [x > y]; false when either is a NaN. *)
Definition gtb (x y : float) : bool := y <? x.

(** Python's [min(a, b)]: [b] when [b < a], else [a]. *)
Definition py_min (a b : float) : float := if b <? a then b else a.

(** Python's [max(a, b)]: [b] when [b > a], else [a]. *)
Definition py_max (a b : float) : float := if a <? b then b else a.

(** ** NumPy on vectors *)

(** [np.dot] of two one-dimensional arrays: [ValueError] on a length
    mismatch.  The sum is accumulated in index order; a BLAS kernel may
    associate it otherwise on long vectors, which changes nothing where
    every product and partial sum is exact. *)
Fixpoint dot_from (acc : float) (a b : vec) : result float :=
  match a, b with
  | [], [] => Ok acc
  | x :: a', y :: b' => dot_from (acc + x * y) a' b'
  | _, _ => Raise ValueError
  end.

Definition dot (a b : vec) : result float := dot_from 0 a b.

Fixpoint sum_squares_from (acc : float) (a : vec) : float :=
  match a with
  | [] => acc
  | x :: a' => sum_squares_from (acc + x * x) a'
  end.

(** [np.linalg.norm] of a one-dimensional array: [sqrt(x.dot(x))]. *)
Definition norm (a : vec) : float := sqrt (sum_squares_from 0 a).

Definition epsilon : float := 1e-8.

(** [np.dot(a, b) / (np.linalg.norm(a) * np.linalg.norm(b) + 1e-8)] *)
Definition cosine (a b : vec) : result float :=
  rbind (dot a b) (fun d => Ok (d / (norm a * norm b + epsilon))).

(** ** [compute_similarity] *)

Definition similarity_body (encode : Encoder) (text1 text2 : string)
  : result float :=
  rbind (encode text1) (fun emb1 =>
  rbind (encode text2) (fun emb2 =>
  rbind (cosine emb1 emb2) (fun similarity =>
  Ok (py_max 0 (py_min 1 similarity))))).

Definition compute_similarity (text1 text2 : string) : M float :=
  m <- read model ;;
  match m with
  | Some encode =>
      if negb (Py.truthy text1) || negb (Py.truthy text2) then ret 0
      else try_except (lift (similarity_body encode text1 text2)) (ret 0)
  | None => ret 0
  end.

(** ** [check_waiting_period] *)

Definition waiting_body (procedure : string) (procedure_terms : list string)
    (acc : list Z * list string) (clause : Clause)
  : M (list Z * list string) :=
  match text clause with
  | None => ret acc
  | Some t =>
      let clause_text := Py.lower t in
      if negb (Py.contains "waiting period" clause_text) then ret acc
      else
        let lexical := Engine.term_mentioned procedure_terms clause_text in
        m <- read model ;;
        procedure_mentioned <-
          (match m with
           | Some _ =>
               if negb lexical then
                 try_except
                   (similarity <- compute_similarity procedure clause_text ;;
                    ret (if gtb similarity 0.3 then true else lexical))
                   (ret lexical)
               else ret lexical
           | None => ret lexical
           end) ;;
        if (procedure_mentioned : bool) then
          periods <- lift (Engine.extract_waiting_periods clause_text) ;;
          match periods with
          | [] => ret acc
          | _ => ret ((fst acc ++ periods)%list, (snd acc ++ [t])%list)
          end
        else ret acc
  end.

Definition check_waiting_period : M (option Decision) :=
  duration <- parsed_get policy_duration_months ;;
  proc <- parsed_get Parse.procedure ;;
  cs <- read all_clauses ;;
  match duration, proc with
  | Some policy_duration, Some parsed_procedure =>
      if negb (Engine.truthy_int duration) || negb (Engine.truthy_str proc)
         || negb (Engine.truthy_list cs)
      then ret None
      else
        let procedure := Py.lower parsed_procedure in
        let procedure_terms := Py.split procedure in
        acc <- for_each (waiting_body procedure procedure_terms) cs ([], []) ;;
        let '(waiting_periods, relevant_clauses) := acc in
        match waiting_periods with
        | [] => ret None
        | w :: ws =>
            let min_required := Engine.minimum w ws in
            if (policy_duration <? min_required)%Z then
              ret (Some {|
                decision := Engine.rejected;
                justification :=
                  [WaitingShortfall policy_duration min_required
                                    parsed_procedure];
                clauses := firstn 2 relevant_clauses;
                confidence := 0.9 |})
            else ret None
        end
  | _, _ => ret None
  end.

(** ** [check_procedure_coverage] *)

(** The body of the scoring loop; its locals are [best_match] and
    [best_score].  The inner [try] turns any failure into [continue]. *)
Definition best_body (proc_emb : vec) (best : option Clause * float)
    (clause : Clause) : option Clause * float :=
  match embedding clause with
  | None => best
  | Some [] => best
  | Some clause_emb =>
      match cosine proc_emb clause_emb with
      | Ok similarity =>
          if gtb similarity (snd best) then (Some clause, similarity)
          else best
      | Raise _ => best
      end
  end.

Definition find_best (proc_emb : vec) (cs : list Clause)
  : option Clause * float :=
  fold_left (best_body proc_emb) cs (None, 0).

(** [best_match["text"]] *)
Definition text_of (c : Clause) : result string :=
  match text c with
  | Some t => Ok t
  | None => Raise KeyError
  end.

Definition missing_information : Decision :=
  {| decision := Engine.needs_review; justification := [MissingInformation];
     clauses := []; confidence := 0 |}.

Definition semantic_error : Decision :=
  {| decision := Engine.needs_review; justification := [SemanticError];
     clauses := []; confidence := 0 |}.

Definition not_found (procedure : string) : Decision :=
  {| decision := Engine.needs_review; justification := [NotFound procedure];
     clauses := []; confidence := 0 |}.

(** The decision made from the best match, after the scoring loop. *)
Definition classify (procedure : string) (best : option Clause * float)
  : result Decision :=
  let best_score := snd best in
  match fst best with
  | Some best_match =>
      if gtb best_score 0.45 then
        rbind (text_of best_match) (fun t =>
          if Engine.is_excluded (Py.lower t) then
            Ok {| decision := Engine.rejected;
                  justification := [Excluded procedure best_score];
                  clauses := [t];
                  confidence := py_min 0.9 (best_score + 0.1) |}
          else
            Ok {| decision := Engine.approved;
                  justification := [Covered procedure best_score];
                  clauses := [t];
                  confidence := best_score |})
      else if gtb best_score 0.25 then
        rbind (text_of best_match) (fun t =>
          Ok {| decision := Engine.needs_review;
                justification := [ManualReview procedure best_score];
                clauses := [t];
                confidence := best_score |})
      else Ok (not_found procedure)
  | None => Ok (not_found procedure)
  end.

Definition check_procedure_coverage : M Decision :=
  proc <- parsed_get Parse.procedure ;;
  cs <- read all_clauses ;;
  m <- read model ;;
  match proc, m with
  | Some procedure, Some encode =>
      if negb (Engine.truthy_str proc) || negb (Engine.truthy_list cs)
      then ret missing_information
      else
        match encode procedure with
        | Ok proc_emb => lift (classify procedure (find_best proc_emb cs))
        | Raise _ => ret semantic_error
        end
  | _, _ => ret missing_information
  end.

(** ** [make_decision] *)

Definition invalid_query : Decision :=
  {| decision := Engine.needs_review; justification := [InvalidQuery];
     clauses := []; confidence := 0 |}.

Definition make_decision : M Decision :=
  p <- read parsed ;;
  match p with
  | None => ret invalid_query
  | Some _ =>
      waiting_decision <- check_waiting_period ;;
      match waiting_decision with
      | Some d => ret d
      | None => check_procedure_coverage
      end
  end.

(** ** A run in which rounding decides *)

(** An embedding whose squared norm, 12345^2 + 67890^2 = 4761451125, is
    computed exactly, while the square of its rounded norm is not. *)
Definition rounding_embedding : vec := [12345; 67890].

(** A processor whose encoder maps every text to that embedding, with one
    clause, on knee surgery, cached with the same embedding. *)
Definition rounding_clause : Clause :=
  {| text := Some "Knee surgery is covered after hospitalisation.";
     embedding := Some rounding_embedding |}.

Definition rounding_store : Store :=
  {| parsed := Some (Engine.knee_query 30);
     all_clauses := [rounding_clause];
     model := Some (fun _ => Ok rounding_embedding) |}.

(** The float next above 1: 1 + 2^-52, printed 1.0000000000000002. *)
Definition above_one : float := 0x1.0000000000001p+0.

End Engine64.

(* ===================================================================== *)
(** * What a pattern consumes and what its groups capture *)
(* ===================================================================== *)

Module ReSem.
Import Re.
Local Open Scope nat_scope.

(** The words a pattern can consume, look-arounds and captures left
    aside. *)
Fixpoint den (r : regex) (w : list ascii) : Prop :=
  match r with
  | Eps => w = []
  | Set_ s => exists c, w = [c] /\ cset_mem s c = true
  | Seq a b => exists w1 w2, w = (w1 ++ w2)%list /\ den a w1 /\ den b w2
  | Alt a b => den a w \/ den b w
  | Rep s lo hi =>
      Forall (fun c => cset_mem s c = true) w /\ lo <= length w /\
      forall h, hi = Some h -> length w <= h
  | Opt a => w = [] \/ den a w
  | Group _ a => den a w
  | NegLook _ => w = []
  | WordB => w = []
  | Never => False
  end.

(** What group [i] of a pattern can capture. *)
Fixpoint gcap (r : regex) (i : nat) (w : list ascii) : Prop :=
  match r with
  | Group j a => (i = j /\ den a w) \/ gcap a i w
  | Seq a b => gcap a i w \/ gcap b i w
  | Alt a b => gcap a i w \/ gcap b i w
  | Opt a => gcap a i w
  | _ => False
  end.

(** Group [i] takes part in every match of the pattern. *)
Fixpoint must (i : nat) (r : regex) : bool :=
  match r with
  | Group j a => (i =? j) || must i a
  | Seq a b => must i a || must i b
  | Alt a b => must i a && must i b
  | _ => false
  end.

(** A run of decimal digits, at least one and at most [int]'s limit. *)
Definition digit_run (a : regex) : bool :=
  match a with
  | Rep CDigit lo (Some hi) => (1 <=? lo) && (hi <=? Py.int_max_str_digits)
  | _ => false
  end.

(** Group [i], wherever the pattern has it, is a [digit_run]. *)
Fixpoint digit_group (i : nat) (r : regex) : bool :=
  match r with
  | Group j a => (if i =? j then digit_run a else true) && digit_group i a
  | Seq a b => digit_group i a && digit_group i b
  | Alt a b => digit_group i a && digit_group i b
  | Opt a => digit_group i a
  | _ => true
  end.

(** The positions the matcher can hand to its continuation. *)
Definition reaches (r : regex) (st st1 : mstate) : Prop :=
  exists w new,
    den r w /\ rest st = (w ++ rest st1)%list /\
    pos st1 = pos st + length w /\
    caps st1 = (new ++ caps st)%list /\
    (forall i s, In (i, s) new ->
       gcap r i (Py.chars s) /\ String.length s <= length (rest st)) /\
    (forall i, must i r = true -> exists s, In (i, s) new).

(** What the groups of a match object are, for a pattern [r] and a
    subject of [n] characters. *)
Definition groups_of (r : regex) (n : nat) (m : match_obj) : Prop :=
  (forall i s, group m i = Some s ->
     gcap r i (Py.chars s) /\ String.length s <= n) /\
  (forall i, must i r = true -> exists s, group m i = Some s).

(** The groups a pattern always captures, and those that are digit
    runs. *)
Definition captures (groups digits : list nat) (pat : string) : bool :=
  let r := pattern pat in
  forallb (fun i => must i r) groups && forallb (fun i => digit_group i r) digits.

End ReSem.

(* ===================================================================== *)
(** * Further vocabulary: the caller's sequence, shapes and invariants *)
(* ===================================================================== *)

Module Derived.
Import Parse Engine.

(** [result] as a functor. *)
Definition rmap {A B} (f : A -> B) (r : result A) : result B :=
  match r with
  | Ok a => Ok (f a)
  | Raise e => Raise e
  end.

(** The five extracted fields of a parsed query. *)
Definition fields (p : ParsedQuery)
  : option Z * option Gender * option string * option string * option Z :=
  (age p, gender p, procedure p, location p, policy_duration_months p).

(** The same record under another [raw_query]. *)
Definition with_raw (r : pyobj) (p : ParsedQuery) : ParsedQuery :=
  {| raw_query := r; age := age p; gender := gender p;
     procedure := procedure p; location := location p;
     policy_duration_months := policy_duration_months p |}.

(** The canonical names of the gazetteer. *)
Definition canonical_names : list string := map snd cities_mapping.

(** The caller's sequence in [__main__] and in the integration test:
    parse the query, hand the result to [make_decision]. *)
Definition process_query (query : pyobj) (cs : list Clause)
    (m : option Encoder) : result Decision :=
  rbind (parse_query query) (fun p =>
    fst (make_decision {| parsed := Some p; all_clauses := cs; model := m |})).

(** [parse_query] on the lowered, stripped text of a non-empty query,
    started from a record without [raw_query]. *)
Definition parse_lowered (q_lower : string) : result ParsedQuery :=
  rbind (age_gender_loop (enumerate age_gender_patterns) q_lower
                         (initial PyNone))
        (remaining_fields q_lower).

(** Whether the location loop's pattern for a city matches. *)
Definition city_matches (city q_lower : string) : bool :=
  match Re.search (Re.pattern ("\b" ++ Re.escape city ++ "\b")) q_lower with
  | Some _ => true
  | None => false
  end.

(** The store with another [parsed] dictionary. *)
Definition with_parsed (st : Store) (p : ParsedQuery) : Store :=
  {| parsed := Some p; all_clauses := all_clauses st; model := model st |}.

(** What the age and gender steps of [parse_query] leave alone. *)
Definition keeps_but_age_gender (p p' : ParsedQuery) : Prop :=
  raw_query p' = raw_query p /\ procedure p' = procedure p /\
  location p' = location p /\
  policy_duration_months p' = policy_duration_months p.

(** The order [sorted(..., key=f, reverse=True)] establishes. *)
Definition desc {A} (f : A -> nat) (a b : A) : Prop := (f b <= f a)%nat.

(** The elements whose key is [k]. *)
Definition has_key {A} (f : A -> nat) (k : nat) (x : A) : bool :=
  (f x =? k)%nat.

(** The best procedure text so far, when there is one, came out of
    [strip]. *)
Definition stripped (best : option string * nat) : Prop :=
  forall b, fst best = Some b -> exists x, b = Py.strip x.

(** What the body of the combined loop relies on, pattern by pattern. *)
Definition age_gender_ok (ip : nat * string) : bool :=
  if in_nats (fst ip) [0; 1; 3]%nat then
    ReSem.captures [1]%nat [1]%nat (snd ip)
  else if in_nats (fst ip) [2; 4]%nat then
    ReSem.captures [1]%nat [2]%nat (snd ip)
  else true.

(** A clause text that states a day count too large for a float. *)
Definition overflow_clause_text : string :=
  "waiting period of 1" ++ zeros 310 ++ " days".

(** A processor without encoder whose one clause states a day count too
    large for a float. *)
Definition overflow_store : Store :=
  {| parsed := Some (knee_query 12);
     all_clauses :=
       [{| text := Some ("Knee surgery: " ++ overflow_clause_text);
           embedding := None |}];
     model := None |}.

(** What a returned decision looks like, verdict by verdict. *)
Definition coverage_shape (d : Decision) : Prop :=
  match decision d with
  | approved =>
      exists t, clauses d = [t] /\ is_excluded (Py.lower t) = false /\
                45 / 100 < confidence d
  | rejected =>
      exists t, clauses d = [t] /\ is_excluded (Py.lower t) = true /\
                55 / 100 <= confidence d <= 9 / 10
  | needs_review =>
      (clauses d = [] /\ confidence d = 0) \/
      (exists t, clauses d = [t] /\ 25 / 100 < confidence d <= 45 / 100)
  end%R.

(** The rejection of the waiting-period gate. *)
Definition waiting_shape (d : Decision) : Prop :=
  decision d = rejected /\ confidence d = (9 / 10)%R /\
  (1 <= length (clauses d) <= 2)%nat.

(** Every cited text is the text of a clause of the corpus. *)
Definition cites_corpus (cs : list Clause) (d : Decision) : Prop :=
  forall t, In t (clauses d) -> exists c, In c cs /\ text c = Some t.

(** The locals of the loop: as many periods as there are, none without a
    cited text; every period is at least 1; every cited text is the text
    of a clause of the corpus. *)
Definition scan_invariant (cs : list Clause) (acc : list Z * list string)
  : Prop :=
  (fst acc = [] <-> snd acc = []) /\
  Forall (fun x => (1 <= x)%Z) (fst acc) /\
  forall t, In t (snd acc) -> exists c, In c cs /\ text c = Some t.

End Derived.

(* ===================================================================== *)
(** * The pattern compiler and matcher on the source's patterns *)
(* ===================================================================== *)

Module ReSpec.
Import Re.

(** How a pattern of the source reads once compiled. *)
Example compile_age_then_gender :
  compile "\b(\d{1,3})\s+(male|female)\b" =
  Some (Seq WordB
       (Seq (Group 1 (Rep CDigit 1 (Some 3%nat)))
       (Seq (Rep CSpace 1 None)
       (Seq (Group 2 (Alt (pattern "male") (pattern "female")))
            WordB)))).
Proof. vm_compute. reflexivity. Qed.

(** Every pattern of the two modules lies in the fragment. *)
Lemma source_patterns_compile :
  forallb compiles
    (Parse.age_gender_patterns ++ Parse.age_only_patterns
     ++ Parse.gender_patterns ++ Parse.duration_patterns
     ++ Parse.procedure_patterns ++ Engine.waiting_patterns
     ++ map (fun kv => ("\b" ++ escape (fst kv) ++ "\b")%string)
            Parse.sorted_cities)%list
  = true.
Proof. vm_compute. reflexivity. Qed.

(** Alternation takes the first alternative that lets the rest match,
    repetition is greedy, and a lookahead consumes nothing. *)
Example alternation_is_ordered :
  findall2 (pattern "(\d+)\s*(day|days|month|months)") "90 days, 6months"
  = [("90", "day"); ("6", "month")].
Proof. vm_compute. reflexivity. Qed.

Example lookahead_guards_short_unit :
  spans "\b(\d+)\s*[-]?\s*(m(?!ale|ore)|y(?!oung)|d)\s*(?:policy|plan)?\b"
        "46 male 3m plan"
  = [(8%nat, 15%nat, "3m plan")].
Proof. vm_compute. reflexivity. Qed.

Example longer_city_escaped : escape "new delhi" = "new\ delhi".
Proof. reflexivity. Qed.

End ReSpec.

(* ===================================================================== *)
(** * Properties of [parse_query] *)
(* ===================================================================== *)

Module ParseSpec.
Import Parse.

(** A record respects the age range when its age, if set, lies in [0,120]. *)
Definition age_ok (p : ParsedQuery) : Prop :=
  forall a, age p = Some a -> 0 <= a <= 120.

Lemma Ok_inj {A} (a b : A) : Ok a = Ok b -> a = b.
Proof. congruence. Qed.

Lemma age_in_range_iff a : age_in_range a = true <-> 0 <= a <= 120.
Proof. unfold age_in_range. rewrite andb_true_iff, !Z.leb_le. tauto. Qed.

Lemma age_ok_initial q : age_ok (initial q).
Proof. intros a H. discriminate H. Qed.

Lemma age_ok_set_age p a : age_in_range a = true -> age_ok (set_age p a).
Proof.
  intros Hr b Hb. simpl in Hb. injection Hb as <-. now apply age_in_range_iff.
Qed.

Lemma age_gender_of_prefix p g : age (gender_of_prefix p g) = age p.
Proof.
  unfold gender_of_prefix.
  destruct (Py.startswith "m" (Py.lower g)); [reflexivity|].
  destruct (Py.startswith "f" (Py.lower g)); reflexivity.
Qed.

Lemma age_ok_gender_of_prefix p g : age_ok p -> age_ok (gender_of_prefix p g).
Proof. intros H a. rewrite age_gender_of_prefix. apply H. Qed.

Lemma age_gender_apply_ok i m p p' :
  age_gender_apply i m p = Ok p' -> age_ok p -> age_ok p'.
Proof.
  unfold age_gender_apply. intros H Hp.
  destruct (in_nats i [0; 1; 3]%nat).
  - destruct (Re.group m 1) as [g1|]; [|discriminate].
    destruct (Py.isdigit g1); [|now inversion H; subst].
    destruct (Py.int g1) as [a|e]; simpl in H; [|discriminate].
    destruct (age_in_range a) eqn:Ha; [|now inversion H; subst].
    destruct (Re.group m 2) as [g2|].
    + destruct (Py.truthy g2); inversion H; subst.
      * apply age_ok_gender_of_prefix. now apply age_ok_set_age.
      * now apply age_ok_set_age.
    + inversion H; subst. now apply age_ok_set_age.
  - destruct (in_nats i [2; 4]%nat); [|now inversion H; subst].
    destruct (Re.group m 2) as [g2|]; [|now inversion H; subst].
    destruct (Py.truthy g2 && Py.isdigit g2); [|now inversion H; subst].
    destruct (Py.int g2) as [a|e]; simpl in H; [|discriminate].
    destruct (age_in_range a) eqn:Ha; [|now inversion H; subst].
    destruct (Re.group m 1) as [g1|]; [|discriminate].
    inversion H; subst. apply age_ok_gender_of_prefix. now apply age_ok_set_age.
Qed.

Lemma age_gender_loop_ok pats q p p' :
  age_gender_loop pats q p = Ok p' -> age_ok p -> age_ok p'.
Proof.
  induction pats as [|[i pat] more IH]; simpl; intros H Hp.
  - now inversion H; subst.
  - destruct (Re.search (Re.pattern pat) q) as [m|].
    + eapply age_gender_apply_ok; eauto.
    + auto.
Qed.

Lemma age_only_loop_ok pats q p p' :
  age_only_loop pats q p = Ok p' -> age_ok p -> age_ok p'.
Proof.
  induction pats as [|pat more IH]; simpl; intros H Hp.
  - now inversion H; subst.
  - destruct (Re.search (Re.pattern pat) q) as [m|]; [|auto].
    destruct (Re.group m 1) as [g|]; [|discriminate].
    destruct (Py.int g) as [a|e]; simpl in H; [|discriminate].
    destruct (age_in_range a) eqn:Ha; [|auto].
    inversion H; subst. now apply age_ok_set_age.
Qed.

Lemma gender_loop_age pats q p p' :
  gender_loop pats q p = Ok p' -> age p' = age p.
Proof.
  induction pats as [|pat more IH]; cbn [gender_loop]; intros H.
  - now inversion H; subst.
  - destruct (Re.search (Re.pattern pat) q) as [m|]; [|auto].
    destruct (Re.group m 1) as [g|]; [|discriminate].
    destruct (in_strings (Py.lower g) ["male"; "m"]); [now inversion H; subst|].
    destruct (in_strings (Py.lower g) ["female"; "f"]); now inversion H; subst.
Qed.

Lemma duration_loop_age pats q p p' :
  duration_loop pats q p = Ok p' -> age p' = age p.
Proof.
  induction pats as [|pat more IH]; simpl; intros H.
  - now inversion H; subst.
  - destruct (Re.search (Re.pattern pat) q) as [m|]; [|auto].
    destruct (duration_of_match m) as [n|[]]; try discriminate; auto.
    now inversion H; subst.
Qed.

Lemma location_loop_age cities q p : age (location_loop cities q p) = age p.
Proof.
  induction cities as [|[city canonical] more IH]; simpl; [reflexivity|].
  destruct (Re.search _ q); [reflexivity|apply IH].
Qed.

Lemma procedure_step_age q p : age (procedure_step q p) = age p.
Proof.
  unfold procedure_step. destruct (best_procedure q) as [b|]; [|reflexivity].
  destruct (Py.truthy b); reflexivity.
Qed.

Lemma remaining_fields_ok q p p' :
  remaining_fields q p = Ok p' -> age_ok p -> age_ok p'.
Proof.
  unfold remaining_fields. intros H Hp.
  destruct (match age p with
            | None => age_only_loop age_only_patterns q p
            | Some _ => Ok p end) as [p2|e] eqn:E2; cbn [rbind] in H; [|discriminate].
  assert (H2 : age_ok p2).
  { destruct (age p); [now inversion E2; subst|].
    eapply age_only_loop_ok; eauto. }
  destruct (match gender p2 with
            | None => gender_loop gender_patterns q p2
            | Some _ => Ok p2 end) as [p3|e] eqn:E3; cbn [rbind] in H; [|discriminate].
  assert (H3 : age p3 = age p2).
  { destruct (gender p2); [now inversion E3; subst|].
    eapply gender_loop_age; eauto. }
  destruct (duration_loop duration_patterns q p3) as [p4|e] eqn:E4;
    cbn [rbind] in H; [|discriminate].
  apply duration_loop_age in E4.
  intros a. rewrite <- (Ok_inj _ _ H).
  rewrite procedure_step_age, location_loop_age, E4, H3. apply H2.
Qed.

Lemma parse_query_age_ok q p : parse_query q = Ok p -> age_ok p.
Proof.
  unfold parse_query. intros H.
  destruct q; try (inversion H; subst; apply age_ok_initial).
  destruct (negb (Py.truthy s)); [inversion H; subst; apply age_ok_initial|].
  destruct (age_gender_loop _ _ _) as [p1|e] eqn:E1; cbn [rbind] in H; [|discriminate].
  eapply remaining_fields_ok; eauto.
  eapply age_gender_loop_ok; eauto. apply age_ok_initial.
Qed.

Lemma int_isdigit t a : Py.int t = Ok a -> Py.isdigit t = true.
Proof.
  unfold Py.int. destruct (Py.isdigit t); [reflexivity|]. simpl. discriminate.
Qed.

Lemma age_gender_apply_out_of_range i m a p :
  captured_age i m = Some a -> age_in_range a = false ->
  age_gender_apply i m p = Ok p.
Proof.
  unfold captured_age, age_gender_apply. intros Hc Ha.
  destruct (in_nats i [0; 1; 3]%nat).
  - destruct (Re.group m 1) as [g1|]; [|discriminate].
    destruct (Py.int g1) as [b|e] eqn:Ei; [|discriminate].
    inversion Hc; subst b. rewrite (int_isdigit _ _ Ei). simpl. now rewrite Ha.
  - destruct (in_nats i [2; 4]%nat); [|discriminate].
    destruct (Re.group m 2) as [g2|]; [|discriminate].
    destruct (Py.int g2) as [b|e] eqn:Ei; [|discriminate].
    inversion Hc; subst b.
    destruct (Py.truthy g2 && Py.isdigit g2); [|reflexivity].
    simpl. now rewrite Ha.
Qed.

Lemma age_gender_loop_first_match pats q p :
  age_gender_loop pats q p =
  match first_match pats q with
  | Some (i, m) => age_gender_apply i m p
  | None => Ok p
  end.
Proof.
  induction pats as [|[i pat] more IH]; simpl; [reflexivity|].
  destruct (Re.search (Re.pattern pat) q); [reflexivity|apply IH].
Qed.

Lemma age_only_loop_out_of_range pat more q p m g a :
  Re.search (Re.pattern pat) q = Some m -> Re.group m 1 = Some g ->
  Py.int g = Ok a -> age_in_range a = false ->
  age_only_loop (pat :: more) q p = age_only_loop more q p.
Proof. intros Hs Hg Hi Ha. simpl. now rewrite Hs, Hg, Hi; simpl; rewrite Ha. Qed.

(** Claim C6 (as amended).  An age outside [0,120] is never stored, for
    any input on which [parse_query] returns.  When the first combined
    age+gender pattern that matches captures an age out of range, the
    combined loop ends there with the record untouched (later combined
    patterns are not tried), and the result of [parse_query] is what the
    age-only, gender-only and remaining steps give from the untouched
    record.  Inside the age-only list, a match whose age is out of range
    does not stop the later age-only patterns. *)
Theorem out_of_range_age_discarded (s : string) (p : ParsedQuery) :
  parse_query (PyStr s) = Ok p ->
  let q_lower := Py.strip (Py.lower s) in
  (forall a, age p = Some a -> 0 <= a <= 120) /\
  (forall i m a,
      first_match (enumerate age_gender_patterns) q_lower = Some (i, m) ->
      captured_age i m = Some a -> age_in_range a = false ->
      age_gender_loop (enumerate age_gender_patterns) q_lower
                      (initial (PyStr s)) = Ok (initial (PyStr s)) /\
      remaining_fields q_lower (initial (PyStr s)) = Ok p) /\
  (forall pat more p0 m g a,
      Re.search (Re.pattern pat) q_lower = Some m -> Re.group m 1 = Some g ->
      Py.int g = Ok a -> age_in_range a = false ->
      age_only_loop (pat :: more) q_lower p0 = age_only_loop more q_lower p0).
Proof.
  intros H q_lower. split; [exact (parse_query_age_ok _ _ H)|]. split.
  - intros i m a Hf Hc Ha.
    assert (E : age_gender_loop (enumerate age_gender_patterns) q_lower
                  (initial (PyStr s)) = Ok (initial (PyStr s))).
    { rewrite age_gender_loop_first_match, Hf.
      now apply age_gender_apply_out_of_range with (a := a). }
    split; [exact E|].
    unfold parse_query in H.
    destruct (negb (Py.truthy s)) eqn:Et.
    + (* the empty query has no match *)
      destruct s; [|discriminate Et].
      vm_compute in Hf. discriminate Hf.
    + fold q_lower in H. rewrite E in H. exact H.
  - intros pat more p0 m g a. apply age_only_loop_out_of_range.
Qed.

Lemma out_of_range_age_discarded_witness :
  let s := "130f male 46" in
  let p := {| raw_query := PyStr s; age := None; gender := Some Male;
              procedure := None; location := None;
              policy_duration_months := None |} in
  parse_query (PyStr s) = Ok p /\
  (forall a, age p = Some a -> 0 <= a <= 120) /\
  option_map (fun im => (fst im, captured_age (fst im) (snd im)))
    (first_match (enumerate age_gender_patterns) s) = Some (0%nat, Some 130) /\
  remaining_fields s (initial (PyStr s)) = Ok p.
Proof.
  intros s p.
  assert (H : parse_query (PyStr s) = Ok p) by (vm_compute; reflexivity).
  destruct (out_of_range_age_discarded s p H) as (Hrange & Hcombined & _).
  split; [exact H|]. split; [exact Hrange|].
  split; [vm_compute; reflexivity|].
  destruct (first_match (enumerate age_gender_patterns) (Py.strip (Py.lower s)))
    as [[i m]|] eqn:Ef; [|vm_compute in Ef; discriminate Ef].
  assert (Ei : option_map (fun im => (fst im, captured_age (fst im) (snd im)))
                (Some (i, m)) = Some (0%nat, Some 130)).
  { rewrite <- Ef. vm_compute. reflexivity. }
  cbn [option_map fst snd] in Ei. injection Ei as -> Hc.
  exact (proj2 (Hcombined 0%nat m 130 eq_refl Hc eq_refl)).
Defined.

(** On "130f male 46" the first combined pattern captures the age 130,
    out of range; the third combined pattern matches "male 46" and would
    set the age 46; yet [parse_query] leaves the age unknown: the later
    combined pattern was not tried. *)
Lemma later_combined_pattern_not_tried :
  let q := "130f male 46" in
  exists m0 m2,
    Re.search (Re.pattern (nth 0 age_gender_patterns "")) q = Some m0 /\
    captured_age 0 m0 = Some 130 /\
    Re.search (Re.pattern (nth 2 age_gender_patterns "")) q = Some m2 /\
    captured_age 2 m2 = Some 46 /\
    option_map age
      (match age_gender_apply 2 m2 (initial (PyStr q)) with
       | Ok p => Some p | Raise _ => None end) = Some (Some 46) /\
    option_map age
      (match parse_query (PyStr q) with
       | Ok p => Some p | Raise _ => None end) = Some None.
Proof.
  intros q. eexists. eexists.
  split; [vm_compute; reflexivity|].
  split; [vm_compute; reflexivity|].
  split; [vm_compute; reflexivity|].
  split; [vm_compute; reflexivity|].
  split; vm_compute; reflexivity.
Qed.

(** Claim C9.  Parsing "46M knee surgery 6-month policy Pune" yields
    age 46, gender Male, procedure "Knee Surgery", location "Pune" and a
    policy duration of 6 months. *)
Theorem parse_query_scenario :
  parse_query (PyStr "46M knee surgery 6-month policy Pune") =
  Ok {| raw_query := PyStr "46M knee surgery 6-month policy Pune";
        age := Some 46; gender := Some Male;
        procedure := Some "Knee Surgery"; location := Some "Pune";
        policy_duration_months := Some 6 |}.
Proof. vm_compute. reflexivity. Qed.

(** The three spellings of the day unit: only the bare letter reaches the
    day branch. *)
Lemma to_months_day_units num :
  to_months num "days" = Ok (num * 12) /\ to_months num "day" = Ok (num * 12) /\
  to_months num "d" = days_to_months num.
Proof. repeat split. Qed.

(** A match whose unit group reads day or days is converted like years,
    whatever the number. *)
Lemma duration_of_match_days m g1 num unit :
  Re.group m 1 = Some g1 -> Py.int g1 = Ok num ->
  Re.group m 2 = Some unit -> Py.lower unit = "days" \/ Py.lower unit = "day" ->
  duration_of_match m = Ok (num * 12).
Proof.
  intros H1 Hi H2 Hu. unfold duration_of_match. rewrite H1, Hi. cbn [rbind].
  rewrite H2. destruct Hu as [-> | ->]; reflexivity.
Qed.

(** Claim C5 (the code departs from it).  The unit test [any(keyword in
    unit for keyword in ['year', 'yr', 'y'])] comes first and the letter
    y occurs in "day" and "days", so a duration in days is multiplied by
    12 like a duration in years: the first duration pattern captures
    ("30", "days") in "30 days", [parse_query] stores 360 months, and
    [max(1, round(30 / 30))] would have been 1. *)
Theorem days_converted_as_years :
  (forall num, to_months num "days" = Ok (num * 12)) /\
  (forall m g1 num,
      Re.group m 1 = Some g1 -> Py.int g1 = Ok num ->
      Re.group m 2 = Some "days" ->
      duration_of_match m = Ok (num * 12)) /\
  option_map (fun m => (Re.group m 1, Re.group m 2))
    (Re.search (Re.pattern (nth 0 duration_patterns "")) "30 days")
    = Some (Some "30", Some "days") /\
  parse_query (PyStr "30 days") =
    Ok (set_duration (initial (PyStr "30 days")) 360) /\
  days_to_months 30 = Ok 1.
Proof.
  split; [intros num; exact (proj1 (to_months_day_units num))|].
  split.
  { intros m g1 num H1 Hi H2.
    apply (duration_of_match_days m g1 num "days" H1 Hi H2). now left. }
  split; [vm_compute; reflexivity|].
  split; vm_compute; reflexivity.
Qed.

(** Claim C7 (the code departs from it).  On a query whose day count,
    written with the short unit d, is too large for [num / 30] to fit a
    float, the [OverflowError] of the division is not among the
    exceptions the duration loop catches and leaves [parse_query]. *)
Theorem parse_query_overflow :
  parse_query (PyStr overflow_query) = Raise OverflowError.
Proof. vm_compute. reflexivity. Qed.

(** Empty, [None] and non-string input: every extracted field stays
    unknown and the input is kept as [raw_query]. *)
Lemma parse_query_malformed :
  parse_query PyNone = Ok (initial PyNone) /\
  parse_query (PyStr "") = Ok (initial (PyStr "")) /\
  (forall b, parse_query (PyBool b) = Ok (initial (PyBool b))) /\
  (forall n, parse_query (PyInt n) = Ok (initial (PyInt n))) /\
  (forall m e, parse_query (PyFloat m e) = Ok (initial (PyFloat m e))) /\
  (forall b, parse_query (PyBytes b) = Ok (initial (PyBytes b))).
Proof. repeat split. Qed.

End ParseSpec.

(* ===================================================================== *)
(** * Properties of the decision engine *)
(* ===================================================================== *)

Module EngineSpec.
Import Parse Engine.
Local Open Scope R_scope.

(** ** Real arithmetic of the cosine *)

Lemma sum_squares_nonneg a : 0 <= sum_squares a.
Proof. induction a as [|x a IH]; simpl; [lra|nra]. Qed.

Lemma epsilon_pos : 0 < epsilon.
Proof. unfold epsilon. apply Rinv_0_lt_compat. lra. Qed.

Lemma norm_nonneg a : 0 <= norm a.
Proof. apply sqrt_pos. Qed.

(** The denominator of the cosine is never zero. *)
Lemma cosine_denominator_pos a b : 0 < norm a * norm b + epsilon.
Proof.
  pose proof (norm_nonneg a). pose proof (norm_nonneg b).
  pose proof epsilon_pos. nra.
Qed.

(** ** Frame lemmas of the monad *)

Lemma read_only_ret {A} (a : A) : read_only (ret a).
Proof. intros st. reflexivity. Qed.

Lemma read_only_lift {A} (r : result A) : read_only (lift r).
Proof. intros st. reflexivity. Qed.

Lemma read_only_read {A} (f : Store -> A) : read_only (read f).
Proof. intros st. reflexivity. Qed.

Lemma read_only_bind {A B} (m : M A) (f : A -> M B) :
  read_only m -> (forall a, read_only (f a)) -> read_only (bind m f).
Proof.
  intros Hm Hf st. unfold bind. specialize (Hm st).
  destruct (m st) as [[a|e] st1]; simpl in Hm; subst st1.
  - apply Hf.
  - reflexivity.
Qed.

Lemma read_only_try_except {A} (m h : M A) :
  read_only m -> read_only h -> read_only (try_except m h).
Proof.
  intros Hm Hh st. unfold try_except. specialize (Hm st).
  destruct (m st) as [[a|e] st1]; simpl in Hm; subst st1.
  - reflexivity.
  - apply Hh.
Qed.

Lemma read_only_for_each {A S} (body : S -> A -> M S) (l : list A) :
  (forall acc x, read_only (body acc x)) ->
  forall acc, read_only (for_each body l acc).
Proof.
  intros Hb. induction l as [|x l IH]; intros acc; simpl.
  - apply read_only_ret.
  - apply read_only_bind; [apply Hb|assumption].
Qed.

Lemma read_only_parsed_get {A} (f : ParsedQuery -> option A) :
  read_only (parsed_get f).
Proof. apply read_only_read. Qed.

Create HintDb frame.
#[local] Hint Resolve read_only_ret read_only_lift read_only_read
  read_only_parsed_get read_only_try_except : frame.

(** Takes a computation apart along its binds and its case analyses. *)
Ltac frame :=
  repeat first
    [ progress auto with frame
    | apply read_only_bind; [|intros ?]
    | apply read_only_try_except
    | apply read_only_for_each; intros ? ?
    | match goal with
      | |- read_only (match ?x with _ => _ end) => destruct x
      | |- read_only (if ?b then _ else _) => destruct b
      | |- read_only (let '(_, _) := ?x in _) => destruct x
      end ].

Lemma read_only_compute_similarity t1 t2 : read_only (compute_similarity t1 t2).
Proof. unfold compute_similarity. frame. Qed.

Lemma read_only_waiting_body procedure terms acc c :
  read_only (waiting_body procedure terms acc c).
Proof.
  unfold waiting_body. pose proof read_only_compute_similarity. frame.
Qed.

Lemma read_only_check_waiting_period : read_only check_waiting_period.
Proof.
  unfold check_waiting_period. pose proof read_only_waiting_body. frame.
Qed.

Lemma read_only_check_procedure_coverage : read_only check_procedure_coverage.
Proof. unfold check_procedure_coverage. frame. Qed.

Lemma read_only_make_decision : read_only make_decision.
Proof.
  unfold make_decision.
  pose proof read_only_check_waiting_period.
  pose proof read_only_check_procedure_coverage. frame.
Qed.

(** A read-only computation is determined by its result. *)
Lemma read_only_run {A} (m : M A) st : read_only m -> m st = (fst (m st), st).
Proof. intros H. specialize (H st). destruct (m st); simpl in *. now subst. Qed.

(** Claim C10.  [make_decision] and both of its stages leave the store
    as they found it: the [parsed] dictionary and every clause of the
    corpus, text and embedding, are unchanged after the call, whatever it
    returns or raises. *)
Theorem make_decision_read_only (st : Store) :
  snd (make_decision st) = st /\
  snd (check_waiting_period st) = st /\
  snd (check_procedure_coverage st) = st.
Proof.
  repeat split.
  - apply read_only_make_decision.
  - apply read_only_check_waiting_period.
  - apply read_only_check_procedure_coverage.
Qed.

(** [_ensure_embeddings], by contrast, rewrites the corpus. *)
Lemma ensure_embeddings_writes :
  let st := {| parsed := None;
               all_clauses := [{| text := Some "a"; embedding := None |}];
               model := Some (fun _ => Ok [1]) |} in
  all_clauses (snd (ensure_embeddings st)) =
    [{| text := Some "a"; embedding := Some [1] |}].
Proof. reflexivity. Qed.

(** ** [compute_similarity] *)

Lemma clamp_bounds c : 0 <= Rmax 0 (Rmin 1 c) <= 1.
Proof.
  split.
  - apply Rmax_l.
  - apply Rmax_lub; [lra|apply Rmin_l].
Qed.

Lemma similarity_body_bounds encode t1 t2 r :
  similarity_body encode t1 t2 = Ok r -> 0 <= r <= 1.
Proof.
  unfold similarity_body.
  destruct (encode t1) as [e1|]; simpl; [|discriminate].
  destruct (encode t2) as [e2|]; simpl; [|discriminate].
  destruct (cosine e1 e2) as [c|]; simpl; [|discriminate].
  intros H. injection H as <-. apply clamp_bounds.
Qed.

(** [compute_similarity] always returns, and leaves the store alone. *)
Lemma compute_similarity_run st t1 t2 :
  compute_similarity t1 t2 st = (Ok (similarity st t1 t2), st).
Proof.
  unfold similarity, compute_similarity. cbv [bind read try_except lift ret].
  cbv beta. destruct (model st) as [encode|]; [|reflexivity].
  destruct (negb (Py.truthy t1) || negb (Py.truthy t2)); [reflexivity|].
  destruct (similarity_body encode t1 t2); reflexivity.
Qed.

(** The value returned, case by case. *)
Lemma similarity_cases st t1 t2 :
  match model st with
  | Some encode =>
      if negb (Py.truthy t1) || negb (Py.truthy t2) then similarity st t1 t2 = 0
      else match similarity_body encode t1 t2 with
           | Ok r => similarity st t1 t2 = r
           | Raise _ => similarity st t1 t2 = 0
           end
  | None => similarity st t1 t2 = 0
  end.
Proof.
  unfold similarity, compute_similarity. cbv [bind read try_except lift ret].
  cbv beta. destruct (model st) as [encode|]; [|reflexivity].
  destruct (negb (Py.truthy t1) || negb (Py.truthy t2)); [reflexivity|].
  destruct (similarity_body encode t1 t2); reflexivity.
Qed.

(** Claim C8.  [compute_similarity] never raises and returns a value in
    [0,1]: the denominator of the cosine is positive thanks to the added
    epsilon, a failure of the encoder or of the dot product gives 0, and
    otherwise the raw cosine is clamped, a non-positive one to 0. *)
Theorem compute_similarity_bounded (st : Store) (text1 text2 : string) :
  exists r,
    compute_similarity text1 text2 st = (Ok r, st) /\
    0 <= r <= 1 /\
    (forall a b, 0 < norm a * norm b + epsilon) /\
    (forall encode e,
        model st = Some encode ->
        similarity_body encode text1 text2 = Raise e -> r = 0) /\
    (forall encode emb1 emb2 c,
        model st = Some encode ->
        Py.truthy text1 = true -> Py.truthy text2 = true ->
        encode text1 = Ok emb1 -> encode text2 = Ok emb2 ->
        cosine emb1 emb2 = Ok c ->
        r = Rmax 0 (Rmin 1 c) /\ (c <= 0 -> r = 0)).
Proof.
  exists (similarity st text1 text2).
  split; [apply compute_similarity_run|].
  pose proof (similarity_cases st text1 text2) as Hs.
  split; [|split; [apply cosine_denominator_pos|split]].
  - destruct (model st) as [encode|]; [|rewrite Hs; lra].
    destruct (negb (Py.truthy text1) || negb (Py.truthy text2));
      [rewrite Hs; lra|].
    destruct (similarity_body encode text1 text2) as [r|e] eqn:Eb;
      rewrite Hs; [|lra].
    eapply similarity_body_bounds; eauto.
  - intros encode e Hm Hb. rewrite Hm in Hs.
    destruct (negb (Py.truthy text1) || negb (Py.truthy text2)); [exact Hs|].
    now rewrite Hb in Hs.
  - intros encode emb1 emb2 c Hm H1 H2 He1 He2 Hc. rewrite Hm in Hs.
    rewrite H1, H2 in Hs. cbn [negb orb] in Hs.
    unfold similarity_body in Hs. rewrite He1, He2 in Hs. cbn [rbind] in Hs.
    rewrite Hc in Hs. cbn [rbind] in Hs. split; [exact Hs|].
    intros Hle. rewrite Hs, Rmin_right by lra. apply Rmax_left. lra.
Qed.

(** ** Stage 1: the waiting-period gate *)

Lemma waiting_body_run st procedure acc c ps :
  clause_periods st procedure c = Ok ps ->
  waiting_body procedure (Py.split procedure) acc c st
    = (Ok (after_clause acc c ps), st).
Proof.
  unfold clause_periods, relevant, waiting_body, after_clause.
  destruct (text c) as [t|].
  2:{ intros H. injection H as <-. reflexivity. }
  cbv zeta.
  destruct (Py.contains "waiting period" (Py.lower t)); cbn [negb andb].
  2:{ intros H. injection H as <-. reflexivity. }
  cbv [bind read]. cbv beta.
  destruct (model st) as [encode|] eqn:Em;
    destruct (term_mentioned (Py.split procedure) (Py.lower t)) eqn:El;
    cbn [negb orb]; cbv [ret lift try_except bind]; cbv beta.
  - intros H. rewrite H. destruct ps; reflexivity.
  - rewrite compute_similarity_run.
    destruct (gtb (similarity st procedure (Py.lower t)) (3 / 10)).
    + intros H. rewrite H. destruct ps; reflexivity.
    + intros H. injection H as <-. reflexivity.
  - intros H. rewrite H. destruct ps; reflexivity.
  - intros H. injection H as <-. reflexivity.
Qed.

Lemma after_clause_fst acc c ps :
  fst (after_clause acc c ps) =
  (fst acc ++ match text c with Some _ => ps | None => [] end)%list.
Proof.
  unfold after_clause. destruct ps, (text c); simpl; now rewrite ?app_nil_r.
Qed.

Lemma clause_periods_no_text st procedure c ps :
  clause_periods st procedure c = Ok ps -> text c = None -> ps = [].
Proof.
  unfold clause_periods. intros H E. rewrite E in H. now injection H as <-.
Qed.

Lemma waiting_loop_run st procedure : forall cs pss acc,
  Forall2 (fun c ps => clause_periods st procedure c = Ok ps) cs pss ->
  for_each (waiting_body procedure (Py.split procedure)) cs acc st
    = (Ok ((fst acc ++ concat pss)%list,
           (snd acc ++ contributing_texts cs pss)%list), st).
Proof.
  induction cs as [|c cs IH]; intros pss acc H; inversion H; subst.
  - simpl. unfold ret. rewrite !app_nil_r. now destruct acc.
  - simpl for_each. unfold bind.
    rewrite (waiting_body_run st procedure acc c y H2).
    rewrite (IH _ _ H4). f_equal. f_equal.
    unfold after_clause. simpl.
    destruct y as [|z y].
    + simpl. destruct (text c); reflexivity.
    + destruct (text c) as [t|] eqn:Et.
      * simpl. now rewrite <- !app_assoc.
      * pose proof (clause_periods_no_text _ _ _ _ H2 Et). discriminate.
Qed.

Lemma fold_min_le l : forall x, (fold_left Z.min l x <= x)%Z.
Proof.
  induction l as [|y l IH]; intros x; simpl; [lia|].
  specialize (IH (Z.min x y)). lia.
Qed.

Lemma fold_min_lower l : forall x y, In y l -> (fold_left Z.min l x <= y)%Z.
Proof.
  induction l as [|z l IH]; intros x y Hy; simpl in *; [contradiction|].
  destruct Hy as [->|Hy].
  - pose proof (fold_min_le l (Z.min x y)). lia.
  - now apply IH.
Qed.

Lemma fold_min_in l : forall x,
  fold_left Z.min l x = x \/ In (fold_left Z.min l x) l.
Proof.
  induction l as [|z l IH]; intros x; simpl; [now left|].
  destruct (IH (Z.min x z)) as [E|Hin]; [|now right; right].
  rewrite E. destruct (Z.min_spec x z) as [[_ ->]|[_ ->]]; [now left|].
  right. now left.
Qed.

(** [min(waiting_periods)] is the least element of the pool. *)
Lemma minimum_is_min w ws : is_min (minimum w ws) (w :: ws).
Proof.
  unfold is_min, minimum. split.
  - destruct (fold_min_in ws w) as [->|H]; [now left|now right].
  - intros x [<-|Hx]; [apply fold_min_le|now apply fold_min_lower].
Qed.

Lemma is_min_unique l m m' : is_min m l -> is_min m' l -> m = m'.
Proof.
  intros [H1 H2] [H3 H4]. specialize (H2 _ H3). specialize (H4 _ H1). lia.
Qed.

(** What stage 1 returns, in terms of the pool. *)
Lemma check_waiting_period_run st q d p pss :
  parsed st = Some q ->
  policy_duration_months q = Some d -> d <> 0%Z ->
  Parse.procedure q = Some p -> p <> "" ->
  all_clauses st <> [] ->
  Forall2 (fun c ps => clause_periods st (Py.lower p) c = Ok ps)
          (all_clauses st) pss ->
  check_waiting_period st =
  (Ok match concat pss with
      | [] => None
      | w :: ws =>
          if (d <? minimum w ws)%Z then
            Some {| decision := rejected;
                    justification := [WaitingShortfall d (minimum w ws) p];
                    clauses := firstn 2 (contributing_texts (all_clauses st) pss);
                    confidence := 9 / 10 |}
          else None
      end, st).
Proof.
  intros Hq Hd Hd0 Hp Hp0 Hc HF.
  unfold check_waiting_period, parsed_get.
  unfold bind at 1. unfold read at 1. rewrite Hq, Hd.
  unfold bind at 1. unfold read at 1. rewrite Hq, Hp.
  unfold bind at 1. unfold read at 1.
  assert (Ht1 : truthy_int (Some d) = true).
  { simpl. apply negb_true_iff. now apply Z.eqb_neq. }
  assert (Ht2 : truthy_str (Some p) = true).
  { simpl. unfold Py.truthy. apply negb_true_iff. now apply String.eqb_neq. }
  assert (Ht3 : truthy_list (all_clauses st) = true).
  { destruct (all_clauses st); [contradiction|reflexivity]. }
  rewrite Ht1, Ht2, Ht3. cbv [negb orb]. cbv iota.
  unfold bind. rewrite (waiting_loop_run st (Py.lower p) _ _ ([], []) HF).
  cbn [fst snd app].
  destruct (concat pss) as [|w ws]; [reflexivity|].
  destruct (d <? minimum w ws)%Z; reflexivity.
Qed.

Lemma make_decision_run st q :
  parsed st = Some q ->
  make_decision st =
  match check_waiting_period st with
  | (Ok (Some d), st1) => (Ok d, st1)
  | (Ok None, st1) => check_procedure_coverage st1
  | (Raise e, st1) => (Raise e, st1)
  end.
Proof.
  intros Hq. unfold make_decision. cbv [bind read]. cbv beta. rewrite Hq.
  destruct (check_waiting_period st) as [[[d|]|e] st1]; reflexivity.
Qed.

(** Claim C2 (as amended).  With a non-zero policy duration [d], a
    non-empty procedure and a non-empty corpus, let the pool be the
    periods extracted from the relevant clauses.  If [d] is below the
    minimum of the pool, [make_decision] returns rejected with confidence
    0.9, citing the first two texts of the clauses that contributed at
    least one period.  If the pool is empty or its minimum is at most [d],
    stage 1 yields no decision and [make_decision] returns what stage 2
    returns. *)
Theorem waiting_period_gate (st : Store) (q : ParsedQuery) (d : Z)
    (p : string) (pss : list (list Z)) :
  parsed st = Some q ->
  policy_duration_months q = Some d -> d <> 0%Z ->
  Parse.procedure q = Some p -> p <> "" ->
  all_clauses st <> [] ->
  Forall2 (fun c ps => clause_periods st (Py.lower p) c = Ok ps)
          (all_clauses st) pss ->
  let pool := concat pss in
  (forall m, is_min m pool -> (d < m)%Z ->
     make_decision st =
     (Ok {| decision := rejected;
            justification := [WaitingShortfall d m p];
            clauses := firstn 2 (contributing_texts (all_clauses st) pss);
            confidence := 9 / 10 |}, st)) /\
  ((pool = [] \/ exists m, is_min m pool /\ (m <= d)%Z) ->
     check_waiting_period st = (Ok None, st) /\
     make_decision st = check_procedure_coverage st).
Proof.
  intros Hq Hd Hd0 Hp Hp0 Hc HF pool.
  pose proof (check_waiting_period_run st q d p pss Hq Hd Hd0 Hp Hp0 Hc HF)
    as Hw.
  fold pool in Hw. split.
  - intros m Hm Hlt. rewrite (make_decision_run st q Hq), Hw.
    destruct pool as [|w ws]; [destruct Hm as [[] _]|].
    rewrite (is_min_unique _ _ _ Hm (minimum_is_min w ws)) in *.
    apply Z.ltb_lt in Hlt. rewrite Hlt. reflexivity.
  - intros Hno.
    assert (E : check_waiting_period st = (Ok None, st)).
    { rewrite Hw. destruct pool as [|w ws]; [reflexivity|].
      destruct Hno as [Hno|[m [Hm Hle]]]; [discriminate|].
      rewrite (is_min_unique _ _ _ Hm (minimum_is_min w ws)) in *.
      apply Z.ltb_ge in Hle. now rewrite Hle. }
    split; [exact E|]. now rewrite (make_decision_run st q Hq), E.
Qed.

Lemma store_without_encoder_periods months :
  Forall2
    (fun c ps =>
       clause_periods (store_without_encoder months) (Py.lower "Knee Surgery") c
       = Ok ps)
    (all_clauses (store_without_encoder months)) [[]; [24; 24]%Z].
Proof. repeat constructor. Qed.

Lemma knee_pool_min : is_min 24%Z (concat [[]; [24; 24]%Z]).
Proof. split; [simpl; auto|]. simpl. intros x [<-|[<-|[]]]; lia. Qed.

(** Without an encoder the two-clause corpus still rejects a 12-month
    policy, on the lexical match alone. *)
Lemma rejection_without_encoder :
  make_decision (store_without_encoder 12) =
  (Ok {| decision := rejected;
         justification := [WaitingShortfall 12 24 "Knee Surgery"];
         clauses := ["Knee surgery has a waiting period of 24 months."];
         confidence := 9 / 10 |}, store_without_encoder 12).
Proof.
  rewrite (make_decision_run (store_without_encoder 12) (knee_query 12) eq_refl).
  rewrite (check_waiting_period_run (store_without_encoder 12) (knee_query 12)
             12%Z "Knee Surgery" [[]; [24; 24]%Z]); try reflexivity;
    try discriminate.
  apply store_without_encoder_periods.
Qed.

Lemma waiting_period_gate_witness :
  make_decision (store_without_encoder 12) =
  (Ok {| decision := rejected;
         justification := [WaitingShortfall 12 24 "Knee Surgery"];
         clauses := ["Knee surgery has a waiting period of 24 months."];
         confidence := 9 / 10 |}, store_without_encoder 12).
Proof.
  refine (proj1 (waiting_period_gate (store_without_encoder 12) (knee_query 12)
                   12%Z "Knee Surgery" [[]; [24; 24]%Z]
                   eq_refl eq_refl _ eq_refl _ _
                   (store_without_encoder_periods 12)) 24%Z knee_pool_min _).
  - discriminate.
  - discriminate.
  - discriminate.
  - lia.
Defined.

(** A relevant clause that states no period is not cited: with a clause
    that names the waiting period for knee surgery without a number,
    followed by one that states 24 months, the rejection cites the second
    clause only, not the first two relevant ones. *)
Lemma periodless_clause_not_cited :
  let st := store_without_encoder 12 in
  relevant_texts st "knee surgery" (all_clauses st) =
    ["The waiting period rules apply to knee surgery.";
     "Knee surgery has a waiting period of 24 months."] /\
  exists d,
    make_decision st = (Ok d, st) /\
    decision d = rejected /\
    clauses d = ["Knee surgery has a waiting period of 24 months."] /\
    clauses d <> firstn 2 (relevant_texts st "knee surgery" (all_clauses st)).
Proof.
  split; [reflexivity|].
  eexists. split; [exact rejection_without_encoder|].
  split; [reflexivity|]. split; [reflexivity|]. discriminate.
Qed.

(** ** Stage 2: procedure coverage *)

Lemma best_body_score v best c :
  best_body v best c =
  match score v c with
  | Some x => if gtb x (snd best) then (Some c, x) else best
  | None => best
  end.
Proof.
  unfold best_body, score. destruct (embedding c) as [[|y e]|]; try reflexivity.
  destruct (cosine v (y :: e)); reflexivity.
Qed.

Lemma gtb_true x y : gtb x y = true <-> y < x.
Proof. unfold gtb. destruct (Rgt_dec x y); split; intros; try lra; discriminate. Qed.

Lemma gtb_false x y : gtb x y = false <-> x <= y.
Proof. unfold gtb. destruct (Rgt_dec x y); split; intros; try lra; discriminate. Qed.

(** The scoring loop from any starting pair: either nothing beats the
    start, or the result is the first clause whose score is the largest
    and beats the start. *)
Lemma fold_best v : forall cs bm0 s0,
  let best := fold_left (best_body v) cs (bm0, s0) in
  (forall c x, In c cs -> score v c = Some x -> x <= snd best) /\
  ((best = (bm0, s0)) \/
   (exists pre c post,
       cs = (pre ++ c :: post)%list /\ fst best = Some c /\
       score v c = Some (snd best) /\ s0 < snd best /\
       forall c' x, In c' pre -> score v c' = Some x -> x < snd best)).
Proof.
  induction cs as [|c cs IH]; intros bm0 s0; cbv zeta; simpl fold_left.
  - split; [intros ? ? []|now left].
  - rewrite best_body_score.
    assert (Hskip :
      (forall x0, score v c = Some x0 -> x0 <= s0) ->
      let best := fold_left (best_body v) cs (bm0, s0) in
      (forall c0 x, In c0 (c :: cs) -> score v c0 = Some x -> x <= snd best) /\
      (best = (bm0, s0) \/
       exists pre c1 post,
         c :: cs = (pre ++ c1 :: post)%list /\ fst best = Some c1 /\
         score v c1 = Some (snd best) /\ s0 < snd best /\
         forall c' x, In c' pre -> score v c' = Some x -> x < snd best)).
    { intros Hle best. destruct (IH bm0 s0) as [Hub Hcase]. fold best in Hub, Hcase.
      assert (Hge : s0 <= snd best).
      { destruct Hcase as [->|(pre & c1 & post & _ & _ & _ & Hlt & _)];
          simpl; lra. }
      split.
      - intros c' y [<-|Hin] Hy; [|eauto].
        specialize (Hle y Hy). lra.
      - destruct Hcase as [E|(pre & c1 & post & E & Hf & Hs & Hlt & Hpre)];
          [now left|right].
        exists (c :: pre), c1, post. rewrite E. simpl.
        repeat split; auto.
        intros c' y [<-|Hin] Hy; [|eauto].
        specialize (Hle y Hy). lra. }
    destruct (score v c) as [x|] eqn:Ex.
    + cbn [snd]. destruct (gtb x s0) eqn:Eg.
      * apply gtb_true in Eg.
        destruct (IH (Some c) x) as [Hub Hcase].
        set (best := fold_left (best_body v) cs (Some c, x)) in *.
        assert (Hge : x <= snd best).
        { destruct Hcase as [->|(pre & c1 & post & _ & _ & _ & Hlt & _)];
            simpl; lra. }
        split.
        -- intros c' y [<-|Hin] Hy; [|eauto].
           rewrite Ex in Hy. injection Hy as <-. exact Hge.
        -- right.
           destruct Hcase as [E|(pre & c1 & post & E & Hf & Hs & Hlt & Hpre)].
           ++ exists [], c, cs. rewrite E. simpl.
              repeat split; auto. intros ? ? [].
           ++ exists (c :: pre), c1, post. rewrite E. simpl.
              repeat split; auto; try lra.
              intros c' y [<-|Hin] Hy; [|eauto].
              rewrite Ex in Hy. injection Hy as <-. exact Hlt.
      * apply gtb_false in Eg.
        apply Hskip. intros x0 Hx0. injection Hx0 as <-. exact Eg.
    + apply Hskip. discriminate.
Qed.

(** [find_best]: the best score bounds every score; no match means score
    0; a match is the first clause that attains the best score. *)
Lemma find_best_spec v cs :
  let best := find_best v cs in
  0 <= snd best /\
  (forall c x, In c cs -> score v c = Some x -> x <= snd best) /\
  match fst best with
  | None => snd best = 0
  | Some c =>
      exists pre post,
        cs = (pre ++ c :: post)%list /\ score v c = Some (snd best) /\
        0 < snd best /\
        forall c' x, In c' pre -> score v c' = Some x -> x < snd best
  end.
Proof.
  unfold find_best. destruct (fold_best v cs None 0) as [Hub Hcase].
  cbv zeta in *. split; [|split; [exact Hub|]].
  - destruct Hcase as [->|(pre & c & post & _ & _ & _ & Hlt & _)]; simpl; lra.
  - destruct Hcase as [->|(pre & c & post & E & Hf & Hs & Hlt & Hpre)].
    + reflexivity.
    + rewrite Hf. exists pre, post. auto.
Qed.



(** ** A worked run with an encoder *)






(** ** Missing data *)

Lemma truthy_str_false_cases o :
  truthy_str o = false -> o = None \/ o = Some "".
Proof.
  destruct o as [p|]; [|now left]. simpl. unfold Py.truthy.
  intros H. apply negb_false_iff, String.eqb_eq in H. subst. now right.
Qed.

(** Stage 1 yields no decision without a procedure or without clauses. *)
Lemma stage1_skips st :
  truthy_str (procedure_of st) = false \/ all_clauses st = [] ->
  check_waiting_period st = (Ok None, st).
Proof.
  unfold procedure_of, check_waiting_period, parsed_get.
  cbv [bind read]. cbv beta. intros H.
  destruct (match parsed st with
            | Some p => policy_duration_months p
            | None => None end) as [dur|]; [|reflexivity].
  destruct (match parsed st with
            | Some q => Parse.procedure q
            | None => None end) as [proc|]; [|reflexivity].
  destruct H as [H|H].
  - rewrite H. rewrite orb_true_r. reflexivity.
  - rewrite H. cbn [truthy_list negb]. rewrite orb_true_r. reflexivity.
Qed.

(** Stage 2 reports missing information without a procedure, without
    clauses or without an encoder. *)
Lemma stage2_missing st :
  truthy_str (procedure_of st) = false \/ all_clauses st = [] \/
  model st = None ->
  check_procedure_coverage st = (Ok missing_information, st).
Proof.
  unfold procedure_of, check_procedure_coverage, parsed_get.
  cbv [bind read]. cbv beta. intros H.
  destruct (match parsed st with
            | Some q => Parse.procedure q
            | None => None end) as [proc|]; [|reflexivity].
  destruct (model st) as [encode|]; [|reflexivity].
  destruct H as [H|[H|H]]; [| |discriminate].
  - rewrite H. reflexivity.
  - rewrite H. cbn [truthy_list negb]. rewrite orb_true_r. reflexivity.
Qed.

(** Claim C4 (as amended).  Without an encoder stage 2 returns
    needs_review with confidence 0.  [make_decision] returns needs_review
    with confidence 0 and no cited clause, and does not raise, when the
    procedure is absent or empty, when the corpus is empty, and when no
    encoder is loaded and stage 1 yields no decision. *)
Theorem missing_data_needs_review (st : Store) :
  (model st = None ->
     check_procedure_coverage st = (Ok missing_information, st)) /\
  (truthy_str (procedure_of st) = false \/ all_clauses st = [] \/
   (model st = None /\ fst (check_waiting_period st) = Ok None) ->
     exists d,
       make_decision st = (Ok d, st) /\
       decision d = needs_review /\ confidence d = 0 /\ clauses d = []).
Proof.
  split; [intros H; apply stage2_missing; auto|].
  intros H. destruct (parsed st) as [q|] eqn:Hq.
  - rewrite (make_decision_run st q Hq).
    assert (Hw : check_waiting_period st = (Ok None, st)).
    { destruct H as [H|[H|[_ H]]]; try solve [apply stage1_skips; auto].
      now rewrite (read_only_run check_waiting_period st
                     read_only_check_waiting_period), H. }
    rewrite Hw. exists missing_information.
    split; [|repeat split].
    apply stage2_missing. tauto.
  - exists invalid_query. split; [|repeat split].
    unfold make_decision. cbv [bind read]. cbv beta. now rewrite Hq.
Qed.

Lemma store_without_encoder_passes_gate :
  check_waiting_period (store_without_encoder 30) =
  (Ok None, store_without_encoder 30).
Proof.
  rewrite (check_waiting_period_run (store_without_encoder 30) (knee_query 30)
             30%Z "Knee Surgery" [[]; [24; 24]%Z]); try reflexivity;
    try discriminate.
  apply store_without_encoder_periods.
Qed.

Lemma missing_data_needs_review_witness :
  exists d,
    make_decision (store_without_encoder 30) = (Ok d, store_without_encoder 30) /\
    decision d = needs_review /\ confidence d = 0 /\ clauses d = [].
Proof.
  apply (proj2 (missing_data_needs_review (store_without_encoder 30))).
  right. right. split; [reflexivity|].
  exact (f_equal fst store_without_encoder_passes_gate).
Defined.

(** With no encoder loaded the gate still rejects on a lexical match. *)
Lemma no_encoder_still_rejects :
  model (store_without_encoder 12) = None /\
  exists d,
    make_decision (store_without_encoder 12) = (Ok d, store_without_encoder 12) /\
    decision d = rejected /\ confidence d = 9 / 10.
Proof.
  split; [reflexivity|]. eexists.
  split; [exact rejection_without_encoder|]. split; reflexivity.
Qed.

(** ** When [make_decision] returns *)

Lemma periods_exist st procedure : forall cs,
  (forall c, In c cs -> exists ps, clause_periods st procedure c = Ok ps) ->
  exists pss,
    Forall2 (fun c ps => clause_periods st procedure c = Ok ps) cs pss.
Proof.
  induction cs as [|c cs IH]; intros H.
  - exists []. constructor.
  - destruct (H c (or_introl eq_refl)) as [ps Hps].
    destruct IH as [pss Hpss]; [intros c' Hc'; apply H; now right|].
    exists (ps :: pss). now constructor.
Qed.

Lemma check_waiting_period_returns st :
  (forall p c, procedure_of st = Some p -> In c (all_clauses st) ->
     exists ps, clause_periods st (Py.lower p) c = Ok ps) ->
  exists r, check_waiting_period st = (Ok r, st).
Proof.
  intros H.
  destruct (truthy_str (procedure_of st)) eqn:Ep.
  2:{ exists None. apply stage1_skips. now left. }
  destruct (all_clauses st) as [|c0 cs0] eqn:Ec.
  { exists None. apply stage1_skips. now right. }
  unfold procedure_of in Ep, H.
  destruct (parsed st) as [q|] eqn:Hq; [|discriminate].
  destruct (Parse.procedure q) as [p|] eqn:Hp; [|discriminate].
  assert (Hp0 : p <> "").
  { intros ->. discriminate. }
  destruct (policy_duration_months q) as [d|] eqn:Hd.
  - destruct (Z.eq_dec d 0) as [->|Hd0].
    + exists None. unfold check_waiting_period, parsed_get.
      cbv [bind read]. cbv beta. now rewrite Hq, Hd, Hp.
    + destruct (periods_exist st (Py.lower p) (all_clauses st)) as [pss Hpss].
      { intros c Hc. apply (H p c eq_refl). now rewrite <- Ec. }
      eexists.
      apply (check_waiting_period_run st q d p pss Hq Hd Hd0 Hp Hp0); auto.
      rewrite Ec. discriminate.
  - exists None. unfold check_waiting_period, parsed_get.
    cbv [bind read]. cbv beta. now rewrite Hq, Hd.
Qed.

Lemma classify_returns p best :
  (forall c, fst best = Some c -> text c <> None) ->
  exists d, classify p best = Ok d.
Proof.
  intros H. unfold classify. destruct (fst best) as [c|]; [|eauto].
  unfold text_of. destruct (text c) as [t|] eqn:Et.
  - cbn [rbind]. destruct (gtb _ _); [destruct (is_excluded _); eauto|].
    destruct (gtb _ _); eauto.
  - exfalso. now apply (H c).
Qed.

Lemma find_best_in v cs c : fst (find_best v cs) = Some c -> In c cs.
Proof.
  intros H. pose proof (find_best_spec v cs) as (_ & _ & Hm).
  rewrite H in Hm. destruct Hm as (pre & post & -> & _).
  apply in_or_app. right. now left.
Qed.

Lemma check_procedure_coverage_returns st :
  (forall c, In c (all_clauses st) -> text c <> None) ->
  exists d, check_procedure_coverage st = (Ok d, st).
Proof.
  intros H. unfold check_procedure_coverage, parsed_get.
  cbv [bind read]. cbv beta.
  destruct (match parsed st with
            | Some p => Parse.procedure p
            | None => None end) as [p|]; [|eexists; reflexivity].
  destruct (model st) as [encode|]; [|eexists; reflexivity].
  destruct (negb (truthy_str (Some p)) || negb (truthy_list (all_clauses st)));
    [eexists; reflexivity|].
  destruct (encode p) as [v|e]; [|eexists; reflexivity].
  destruct (classify_returns p (find_best v (all_clauses st))) as [d Hd].
  { intros c Hc. apply H. eapply find_best_in; eauto. }
  exists d. unfold lift. now rewrite Hd.
Qed.

(** [make_decision] returns a decision whenever every clause has a text
    and no relevant clause states a day count too large for a float. *)
Lemma make_decision_returns (st : Store) :
  (forall c, In c (all_clauses st) -> text c <> None) ->
  (forall p c, procedure_of st = Some p -> In c (all_clauses st) ->
     exists ps, clause_periods st (Py.lower p) c = Ok ps) ->
  exists d, make_decision st = (Ok d, st).
Proof.
  intros Ht Hp. destruct (parsed st) as [q|] eqn:Hq.
  - rewrite (make_decision_run st q Hq).
    destruct (check_waiting_period_returns st Hp) as [[d|] ->]; [eauto|].
    apply check_procedure_coverage_returns, Ht.
  - exists invalid_query. unfold make_decision. cbv [bind read]. cbv beta.
    now rewrite Hq.
Qed.

End EngineSpec.

(* ===================================================================== *)
(** * The confidence of an approval in binary64 *)
(* ===================================================================== *)

Module Engine64Spec.
Import Parse PrimFloat Engine64.
#[local] Set Warnings "-inexact-float".
Local Open Scope float_scope.

(** ** [compute_similarity] clamps *)

(** [x < y] gives [x <= y], by the specification of the comparisons. *)
Lemma ltb_leb (x y : float) : (x <? y) = true -> (x <=? y) = true.
Proof.
  rewrite FloatAxioms.ltb_spec, FloatAxioms.leb_spec.
  unfold SpecFloat.SFltb, SpecFloat.SFleb.
  destruct (SpecFloat.SFcompare _ _) as [[]|]; congruence.
Qed.

(** [max(0.0, min(1.0, x))] lies in [0,1] for every float [x], a NaN or
    an infinity included. *)
Lemma clamp_in_unit_interval (x : float) :
  (0 <=? py_max 0 (py_min 1 x)) = true /\
  (py_max 0 (py_min 1 x) <=? 1) = true.
Proof.
  unfold py_min. destruct (x <? 1) eqn:E1.
  - unfold py_max. destruct (0 <? x) eqn:E0.
    + split; apply ltb_leb; assumption.
    + split; vm_compute; reflexivity.
  - split; vm_compute; reflexivity.
Qed.

(** In binary64 as well [compute_similarity] returns, and returns a float
    between 0 and 1, never a NaN, whatever the encoder does, and leaves
    the store as it found it: the quotient is clamped and every failure
    of the [try] body gives 0. *)
Theorem compute_similarity_clamped (st : Store) (text1 text2 : string) :
  exists r,
    compute_similarity text1 text2 st = (Ok r, st) /\
    (0 <=? r) = true /\ (r <=? 1) = true.
Proof.
  assert (Hz : (0 <=? 0) = true /\ (0 <=? 1) = true)
    by (split; vm_compute; reflexivity).
  unfold compute_similarity. cbv [bind read]. cbv beta.
  destruct (model st) as [encode|]; [|exists 0; split; [reflexivity|exact Hz]].
  destruct (negb (Py.truthy text1) || negb (Py.truthy text2));
    [exists 0; split; [reflexivity|exact Hz]|].
  unfold try_except, lift, ret, similarity_body.
  destruct (encode text1) as [emb1|]; cbn [rbind];
    [|exists 0; split; [reflexivity|exact Hz]].
  destruct (encode text2) as [emb2|]; cbn [rbind];
    [|exists 0; split; [reflexivity|exact Hz]].
  destruct (cosine emb1 emb2) as [similarity|]; cbn [rbind];
    [|exists 0; split; [reflexivity|exact Hz]].
  eexists. split; [reflexivity|]. apply clamp_in_unit_interval.
Qed.

(** ** The confidence of an approval is not clamped *)

(** The dot product of the embedding with itself is exact; its norm is
    rounded, and the square of the rounded norm falls below the dot
    product, so that adding 1e-8, less than half the spacing of the floats
    near 4.7e9, does not bring it back. *)
Lemma rounding_embedding_arithmetic :
  dot rounding_embedding rounding_embedding = Ok 4761451125 /\
  norm rounding_embedding = 69003.268944304364 /\
  norm rounding_embedding * norm rounding_embedding = 4761451124.999999 /\
  4761451124.999999 + epsilon = 4761451124.999999 /\
  (4761451124.999999 <? 4761451125) = true.
Proof. repeat split; vm_compute; reflexivity. Qed.

(** The quotient the scoring loop computes is the float next above 1. *)
Lemma rounding_cosine :
  cosine rounding_embedding rounding_embedding = Ok above_one.
Proof. vm_compute. reflexivity. Qed.

(** The scoring loop keeps the clause with that score: nothing clamps
    it. *)
Lemma rounding_find_best :
  find_best rounding_embedding [rounding_clause]
  = (Some rounding_clause, above_one).
Proof. vm_compute. reflexivity. Qed.

(** The waiting-period gate yields no decision here: the clause does not
    mention a waiting period. *)
Lemma rounding_store_passes_gate :
  check_waiting_period rounding_store = (Ok None, rounding_store).
Proof. vm_compute. reflexivity. Qed.

(** Claim C1 (the code departs from it).  On a query for knee surgery,
    with an encoder and a cached clause embedding both equal to
    [12345, 67890], [make_decision] returns an approval whose confidence
    is the unclamped cosine 1.0000000000000002: greater than 1, outside
    [0,1].  [compute_similarity] clamps the same quotient; the scoring
    loop of [check_procedure_coverage] does not. *)
Theorem approved_confidence_above_one :
  make_decision rounding_store =
    (Ok {| decision := Engine.approved;
           justification := [Covered "Knee Surgery" above_one];
           clauses := ["Knee surgery is covered after hospitalisation."];
           confidence := above_one |}, rounding_store) /\
  (1 <? above_one) = true /\
  (above_one <=? 1) = false.
Proof.
  split; [|split; vm_compute; reflexivity].
  unfold make_decision. cbv [bind read]. cbv beta.
  cbn [parsed rounding_store].
  rewrite rounding_store_passes_gate.
  unfold check_procedure_coverage, parsed_get. cbv [bind read]. cbv beta.
  cbn [parsed all_clauses model rounding_store Engine.knee_query procedure].
  cbn [Engine.truthy_str Engine.truthy_list Py.truthy String.eqb negb orb].
  unfold lift. rewrite rounding_find_best.
  vm_compute. reflexivity.
Qed.

End Engine64Spec.

(* ===================================================================== *)
(** * Soundness of the matcher: what a match has consumed and captured *)
(* ===================================================================== *)

Module ReMore.
Import Re ReSem.
Local Open Scope nat_scope.

Lemma length_of_chars l : String.length (Py.of_chars l) = length l.
Proof. induction l as [|c l IH]; simpl; [reflexivity|now rewrite IH]. Qed.

Lemma chars_of_chars l : Py.chars (Py.of_chars l) = l.
Proof. apply list_ascii_of_string_of_list_ascii. Qed.

Lemma length_chars s : length (Py.chars s) = String.length s.
Proof. induction s as [|c s IH]; simpl; [reflexivity|now rewrite IH]. Qed.

Lemma firstn_exact {A} (w l : list A) : firstn (length w) (w ++ l) = w.
Proof. induction w as [|x w IH]; simpl; [now destruct l|now rewrite IH]. Qed.

(** The greedy repetition hands over a position after a run of members
    of the set, within the bounds. *)
Lemma rep_sound s lo hi k res : forall l n pv p cs,
  rep s lo hi n pv l p cs k = Some res ->
  exists w l' pv',
    l = (w ++ l')%list /\ Forall (fun c => cset_mem s c = true) w /\
    lo <= n + length w /\
    (forall h, hi = Some h -> n + length w <= Nat.max n h) /\
    k {| prev := pv'; rest := l'; pos := p + length w; caps := cs |} = Some res.
Proof.
  induction l as [|c tl IH]; intros n pv p cs H.
  - cbn [rep] in H. destruct (lo <=? n) eqn:E; [|discriminate].
    apply Nat.leb_le in E. exists [], [], pv. cbn [length app].
    rewrite !Nat.add_0_r. repeat split; auto. intros h _. lia.
  - cbn [rep] in H.
    assert (Hstop :
      (if lo <=? n
       then k {| prev := pv; rest := c :: tl; pos := p; caps := cs |}
       else None) = Some res ->
      exists w l' pv',
        c :: tl = (w ++ l')%list /\ Forall (fun c => cset_mem s c = true) w /\
        lo <= n + length w /\
        (forall h, hi = Some h -> n + length w <= Nat.max n h) /\
        k {| prev := pv'; rest := l'; pos := p + length w; caps := cs |}
          = Some res).
    { intros H0. destruct (lo <=? n) eqn:E; [|discriminate].
      apply Nat.leb_le in E. exists [], (c :: tl), pv. cbn [length app].
      rewrite !Nat.add_0_r. repeat split; auto. intros h _. lia. }
    destruct (cset_mem s c && below hi n) eqn:Ec; [|exact (Hstop H)].
    destruct (rep s lo hi (S n) (Some c) tl (S p) cs k) as [st|] eqn:Er;
      [|exact (Hstop H)].
    apply andb_true_iff in Ec as [Hc Hb].
    injection H as ->.
    destruct (IH _ _ _ _ Er) as (w & l' & pv' & -> & Hw & Hlo & Hhi & Hk).
    exists (c :: w), l', pv'. cbn [length app].
    split; [reflexivity|]. split; [now constructor|]. split; [lia|].
    split.
    + intros h Hh. specialize (Hhi h Hh). subst hi. cbn [below] in Hb.
      apply Nat.ltb_lt in Hb. lia.
    + rewrite <- Hk. f_equal. f_equal. lia.
Qed.

Lemma reaches_refl r st :
  den r [] -> (forall i, must i r = false) -> (forall i w, ~ gcap r i w) ->
  reaches r st st.
Proof.
  intros Hd Hm Hg. exists [], []. cbn [app length].
  split; [exact Hd|]. split; [reflexivity|]. split; [lia|].
  split; [reflexivity|]. split; [intros i s []|].
  intros i H. rewrite Hm in H. discriminate.
Qed.

(** Soundness of the backtracking matcher: a successful run hands its
    continuation a position the pattern reaches. *)
Lemma run_sound r : forall st k res,
  run r st k = Some res ->
  exists st1, reaches r st st1 /\ k st1 = Some res.
Proof.
  induction r as [|s|a IHa b IHb|a IHa b IHb|s lo hi|a IHa|j a IHa|a IHa| |];
    intros st k res H; cbn [run] in H.
  - (* Eps *)
    exists st. split; [|exact H]. apply reaches_refl; cbn; auto.
  - (* Set_ *)
    destruct (rest st) as [|c tl] eqn:Er; [discriminate|].
    destruct (cset_mem s c) eqn:Ec; [|discriminate].
    eexists. split; [|exact H].
    exists [c], []. cbn [den gcap must app length rest pos caps].
    split; [eauto|]. split; [exact Er|]. split; [lia|].
    split; [reflexivity|]. split; [intros i s0 []|discriminate].
  - (* Seq *)
    destruct (IHa _ _ _ H) as (st1 & (w1 & n1 & D1 & R1 & P1 & C1 & G1 & M1) & H1).
    destruct (IHb _ _ _ H1) as (st2 & (w2 & n2 & D2 & R2 & P2 & C2 & G2 & M2) & H2).
    exists st2. split; [|exact H2].
    exists (w1 ++ w2)%list, (n2 ++ n1)%list. cbn [den gcap must].
    split; [eauto|].
    split; [rewrite R1, R2; now rewrite app_assoc|].
    split; [rewrite P2, P1, length_app; lia|].
    split; [rewrite C2, C1; now rewrite app_assoc|].
    split.
    + intros i s Hin. apply in_app_or in Hin as [Hin|Hin].
      * destruct (G2 i s Hin) as [Hg Hl]. split; [now right|].
        rewrite R1, length_app. lia.
      * destruct (G1 i s Hin) as [Hg Hl]. split; [now left|exact Hl].
    + intros i Hm. apply orb_true_iff in Hm as [Hm|Hm].
      * destruct (M1 i Hm) as [s Hs]. exists s. apply in_or_app. now right.
      * destruct (M2 i Hm) as [s Hs]. exists s. apply in_or_app. now left.
  - (* Alt *)
    destruct (run a st k) as [st'|] eqn:Ea.
    + destruct (IHa _ _ _ Ea) as (st1 & (w & n & D & R & P & C & G & M) & H1).
      exists st1. split; [|congruence].
      exists w, n. cbn [den gcap must]. repeat split; auto.
      * destruct (G i s H0) as [Hg _]. now left.
      * apply (G i s H0).
      * intros i Hm. apply andb_true_iff in Hm as [Hm _]. auto.
    + destruct (IHb _ _ _ H) as (st1 & (w & n & D & R & P & C & G & M) & H1).
      exists st1. split; [|exact H1].
      exists w, n. cbn [den gcap must]. repeat split; auto.
      * destruct (G i s H0) as [Hg _]. now right.
      * apply (G i s H0).
      * intros i Hm. apply andb_true_iff in Hm as [_ Hm]. auto.
  - (* Rep *)
    destruct (rep_sound _ _ _ _ _ _ _ _ _ _ H)
      as (w & l' & pv' & Hl & Hw & Hlo & Hhi & Hk).
    eexists. split; [|exact Hk].
    exists w, []. cbn [den gcap must app rest pos caps].
    split; [split; [exact Hw|split; [lia|]]|].
    { intros h Hh. specialize (Hhi h Hh). lia. }
    split; [exact Hl|]. split; [reflexivity|]. split; [reflexivity|].
    split; [intros i s0 []|discriminate].
  - (* Opt *)
    destruct (run a st k) as [st'|] eqn:Ea.
    + destruct (IHa _ _ _ Ea) as (st1 & (w & n & D & R & P & C & G & M) & H1).
      exists st1. split; [|congruence].
      exists w, n. cbn [den gcap must]. repeat split; auto.
      * apply (G i s H0).
      * apply (G i s H0).
      * discriminate.
    + exists st. split; [|exact H]. exists [], []. cbn [den gcap must app length].
      split; [now left|]. split; [reflexivity|]. split; [lia|].
      split; [reflexivity|]. split; [intros i s []|discriminate].
  - (* Group *)
    destruct (IHa _ _ _ H) as (st1 & (w & n & D & R & P & C & G & M) & H1).
    eexists. split; [|exact H1].
    exists w, ((j, Py.of_chars (firstn (pos st1 - pos st) (rest st))) :: n).
    cbn [den gcap must rest pos caps].
    assert (Hcap : firstn (pos st1 - pos st) (rest st) = w).
    { rewrite P, R. replace (pos st + length w - pos st) with (length w) by lia.
      apply firstn_exact. }
    rewrite Hcap.
    split; [exact D|]. split; [exact R|]. split; [exact P|].
    split; [now rewrite C|]. split.
    + intros i s [Heq|Hin].
      * injection Heq as <- <-. rewrite chars_of_chars, length_of_chars.
        split; [now left|]. rewrite R, length_app. lia.
      * destruct (G i s Hin) as [Hg Hl]. split; [now right|exact Hl].
    + intros i Hm. apply orb_true_iff in Hm as [Hm|Hm].
      * apply Nat.eqb_eq in Hm. subst i. eexists. now left.
      * destruct (M i Hm) as [s Hs]. exists s. now right.
  - (* NegLook *)
    destruct (run a st (fun st1 => Some st1)); [discriminate|].
    exists st. split; [|exact H]. apply reaches_refl; cbn; auto.
  - (* WordB *)
    destruct (xorb _ _); [|discriminate].
    exists st. split; [|exact H]. apply reaches_refl; cbn; auto.
  - discriminate.
Qed.

Lemma lookup_in i cs s : lookup i cs = Some s -> In (i, s) cs.
Proof.
  induction cs as [|[j t] cs IH]; cbn [lookup]; [discriminate|].
  destruct (i =? j) eqn:E.
  - apply Nat.eqb_eq in E. subst j. intros H. injection H as <-. now left.
  - intros H. right. auto.
Qed.

Lemma in_lookup i cs s : In (i, s) cs -> exists t, lookup i cs = Some t.
Proof.
  induction cs as [|[j t] cs IH]; cbn [lookup]; [intros []|].
  intros [Heq|Hin].
  - injection Heq as -> ->. rewrite Nat.eqb_refl. eauto.
  - destruct (i =? j); eauto.
Qed.

Lemma groups_of_le r n n' m : n <= n' -> groups_of r n m -> groups_of r n' m.
Proof.
  intros Hn [G M]. split; [|exact M].
  intros i s H. destruct (G i s H). split; [auto|lia].
Qed.

Lemma match_at_groups r pv l p m :
  match_at r pv l p = Some m -> groups_of r (length l) m.
Proof.
  unfold match_at.
  destruct (run r _ _) as [st|] eqn:E; [|discriminate].
  intros H. injection H as <-.
  destruct (run_sound _ _ _ _ E) as (st1 & (w & n & D & R & P & C & G & M) & H1).
  injection H1 as ->. cbn [caps rest] in C, G. rewrite app_nil_r in C.
  unfold groups_of, group. cbn [m_caps]. rewrite C. split.
  - intros i s Hl. apply G. now apply lookup_in.
  - intros i Hm. destruct (M i Hm) as [s Hs]. eapply in_lookup; eauto.
Qed.

Lemma search_from_groups r : forall l pv p m,
  search_from r pv l p = Some m -> groups_of r (length l) m.
Proof.
  induction l as [|c tl IH]; intros pv p m; cbn [search_from];
    destruct (match_at r pv _ p) as [m0|] eqn:E.
  - intros H. injection H as <-. eapply match_at_groups; eauto.
  - discriminate.
  - intros H. injection H as <-. eapply match_at_groups; eauto.
  - intros H. apply IH in H. eapply groups_of_le; [|exact H]. simpl. lia.
Qed.

(** The groups of what [re.search] returns. *)
Lemma search_groups r s m :
  search r s = Some m -> groups_of r (String.length s) m.
Proof.
  unfold search. intros H. apply search_from_groups in H.
  now rewrite length_chars in H.
Qed.

Lemma finditer_from_groups r : forall l pv p skip m,
  In m (finditer_from r pv l p skip) -> groups_of r (length l) m.
Proof.
  induction l as [|c tl IH]; intros pv p skip m; destruct skip as [|skip'];
    cbn [finditer_from].
  - destruct (match_at r pv [] p) as [m0|] eqn:E; [|intros []].
    intros [<-|[]]. eapply match_at_groups; eauto.
  - intros [].
  - destruct (match_at r pv (c :: tl) p) as [m0|] eqn:E.
    + intros [<-|Hin]; [eapply match_at_groups; eauto|].
      apply IH in Hin. eapply groups_of_le; [|exact Hin]. simpl. lia.
    + intros Hin. apply IH in Hin. eapply groups_of_le; [|exact Hin].
      simpl. lia.
  - intros Hin. apply IH in Hin. eapply groups_of_le; [|exact Hin]. simpl. lia.
Qed.

(** The groups of the matches [re.finditer] returns. *)
Lemma finditer_groups r s m :
  In m (finditer r s) -> groups_of r (String.length s) m.
Proof.
  unfold finditer. intros H. apply finditer_from_groups in H.
  now rewrite length_chars in H.
Qed.

(** A group that is a digit run captures a text [isdigit] accepts and
    [int] converts. *)
Lemma digit_run_den a w :
  digit_run a = true -> den a w ->
  Forall (fun c => Py.is_digit c = true) w /\
  1 <= length w <= Py.int_max_str_digits.
Proof.
  destruct a as [|s|a1 a2|a1 a2|s lo hi|a1|j a1|a1| |]; try discriminate.
  destruct s; try discriminate. destruct hi as [hi|]; try discriminate.
  cbn [digit_run den cset_mem].
  intros Hb (Hw & Hlo & Hhi). apply andb_true_iff in Hb as [H1 H2].
  apply Nat.leb_le in H1, H2. specialize (Hhi hi eq_refl).
  split; [exact Hw|lia].
Qed.

Lemma digit_group_gcap i r w :
  digit_group i r = true -> gcap r i w ->
  Forall (fun c => Py.is_digit c = true) w /\
  1 <= length w <= Py.int_max_str_digits.
Proof.
  induction r as [|s|a IHa b IHb|a IHa b IHb|s lo hi|a IHa|j a IHa|a IHa| |];
    cbn [digit_group gcap]; try (intros _ H0; contradiction H0).
  - intros Hb [H|H]; apply andb_true_iff in Hb as [H1 H2]; auto.
  - intros Hb [H|H]; apply andb_true_iff in Hb as [H1 H2]; auto.
  - auto.
  - intros Hb H. apply andb_true_iff in Hb as [H1 H2].
    destruct H as [[-> Hd]|H]; [|auto].
    rewrite Nat.eqb_refl in H1. now apply digit_run_den with a.
Qed.

Lemma all_chars_forall p s :
  Forall (fun c => p c = true) (Py.chars s) -> Py.all_chars p s = true.
Proof.
  induction s as [|c s IH]; [reflexivity|]. cbn. intros H.
  inversion H; subst. apply andb_true_iff. auto.
Qed.

Lemma digits_isdigit s :
  Forall (fun c => Py.is_digit c = true) (Py.chars s) ->
  1 <= String.length s -> Py.isdigit s = true.
Proof.
  intros H Hl. unfold Py.isdigit. rewrite (all_chars_forall _ _ H).
  destruct s; [simpl in Hl; lia|reflexivity].
Qed.

(** [int] returns on a group that is a digit run. *)
Lemma digit_group_int r n m i s :
  groups_of r n m -> digit_group i r = true -> group m i = Some s ->
  Py.isdigit s = true /\ exists a, Py.int s = Ok a.
Proof.
  intros [G _] Hd Hs. destruct (G i s Hs) as [Hg _].
  destruct (digit_group_gcap i r _ Hd Hg) as [Hw Hl].
  rewrite length_chars in Hl.
  assert (Hi : Py.isdigit s = true) by (apply digits_isdigit; [exact Hw|lia]).
  split; [exact Hi|]. unfold Py.int. rewrite Hi.
  assert (Hb : (String.length s <=? Py.int_max_str_digits) = true)
    by (apply Nat.leb_le; lia).
  rewrite Hb. cbn [andb]. eauto.
Qed.

End ReMore.

(* ===================================================================== *)
(** * Further properties of the parser *)
(* ===================================================================== *)

Module ParseMore.
Import Re ReSem Parse Derived ParseSpec ReMore.

(** ** What each step of [parse_query] can change *)


Lemma gender_of_prefix_keeps p g : keeps_but_age_gender p (gender_of_prefix p g).
Proof.
  unfold gender_of_prefix, keeps_but_age_gender.
  destruct (Py.startswith "m" (Py.lower g)); [simpl; auto|].
  destruct (Py.startswith "f" (Py.lower g)); simpl; auto.
Qed.

Lemma keeps_refl p : keeps_but_age_gender p p.
Proof. unfold keeps_but_age_gender. auto. Qed.

Lemma keeps_trans p1 p2 p3 :
  keeps_but_age_gender p1 p2 -> keeps_but_age_gender p2 p3 ->
  keeps_but_age_gender p1 p3.
Proof.
  unfold keeps_but_age_gender. intros (A1 & A2 & A3 & A4) (B1 & B2 & B3 & B4).
  repeat split; congruence.
Qed.

Lemma set_age_keeps p a : keeps_but_age_gender p (set_age p a).
Proof. unfold keeps_but_age_gender. simpl. auto. Qed.

Lemma set_gender_keeps p g : keeps_but_age_gender p (set_gender p g).
Proof. unfold keeps_but_age_gender. simpl. auto. Qed.

Lemma age_gender_apply_keeps i m p p' :
  age_gender_apply i m p = Ok p' -> keeps_but_age_gender p p'.
Proof.
  unfold age_gender_apply. intros H.
  destruct (in_nats i [0; 1; 3]%nat).
  - destruct (Re.group m 1) as [g1|]; [|discriminate].
    destruct (Py.isdigit g1); [|rewrite <- (Ok_inj _ _ H); apply keeps_refl].
    destruct (Py.int g1) as [a|e]; cbn [rbind] in H; [|discriminate].
    destruct (age_in_range a); [|rewrite <- (Ok_inj _ _ H); apply keeps_refl].
    destruct (Re.group m 2) as [g2|].
    + destruct (Py.truthy g2); rewrite <- (Ok_inj _ _ H).
      * eapply keeps_trans; [apply set_age_keeps|apply gender_of_prefix_keeps].
      * apply set_age_keeps.
    + rewrite <- (Ok_inj _ _ H). apply set_age_keeps.
  - destruct (in_nats i [2; 4]%nat);
      [|rewrite <- (Ok_inj _ _ H); apply keeps_refl].
    destruct (Re.group m 2) as [g2|];
      [|rewrite <- (Ok_inj _ _ H); apply keeps_refl].
    destruct (Py.truthy g2 && Py.isdigit g2);
      [|rewrite <- (Ok_inj _ _ H); apply keeps_refl].
    destruct (Py.int g2) as [a|e]; cbn [rbind] in H; [|discriminate].
    destruct (age_in_range a); [|rewrite <- (Ok_inj _ _ H); apply keeps_refl].
    destruct (Re.group m 1) as [g1|]; [|discriminate].
    rewrite <- (Ok_inj _ _ H).
    eapply keeps_trans; [apply set_age_keeps|apply gender_of_prefix_keeps].
Qed.

Lemma age_gender_loop_keeps pats q p p' :
  age_gender_loop pats q p = Ok p' -> keeps_but_age_gender p p'.
Proof.
  induction pats as [|[i pat] more IH]; cbn [age_gender_loop]; intros H.
  - rewrite <- (Ok_inj _ _ H). apply keeps_refl.
  - destruct (Re.search (Re.pattern pat) q) as [m|]; [|auto].
    eapply age_gender_apply_keeps; eauto.
Qed.

Lemma age_only_loop_keeps pats q p p' :
  age_only_loop pats q p = Ok p' -> keeps_but_age_gender p p'.
Proof.
  induction pats as [|pat more IH]; cbn [age_only_loop]; intros H.
  - rewrite <- (Ok_inj _ _ H). apply keeps_refl.
  - destruct (Re.search (Re.pattern pat) q) as [m|]; [|auto].
    destruct (Re.group m 1) as [g|]; [|discriminate].
    destruct (Py.int g) as [a|e]; cbn [rbind] in H; [|discriminate].
    destruct (age_in_range a); [|auto].
    rewrite <- (Ok_inj _ _ H). apply set_age_keeps.
Qed.

Lemma gender_loop_keeps pats q p p' :
  gender_loop pats q p = Ok p' -> keeps_but_age_gender p p'.
Proof.
  induction pats as [|pat more IH]; cbn [gender_loop]; intros H.
  - rewrite <- (Ok_inj _ _ H). apply keeps_refl.
  - destruct (Re.search (Re.pattern pat) q) as [m|]; [|auto].
    destruct (Re.group m 1) as [g|]; [|discriminate].
    destruct (in_strings (Py.lower g) ["male"; "m"]);
      [rewrite <- (Ok_inj _ _ H); apply set_gender_keeps|].
    destruct (in_strings (Py.lower g) ["female"; "f"]);
      rewrite <- (Ok_inj _ _ H); [apply set_gender_keeps|apply keeps_refl].
Qed.

(** The duration loop leaves the record alone or stores the months of one
    match. *)
Lemma duration_loop_cases pats q p p' :
  duration_loop pats q p = Ok p' ->
  p' = p \/ exists m n, duration_of_match m = Ok n /\ p' = set_duration p n.
Proof.
  induction pats as [|pat more IH]; cbn [duration_loop]; intros H.
  - left. symmetry. exact (Ok_inj _ _ H).
  - destruct (Re.search (Re.pattern pat) q) as [m|]; [|auto].
    destruct (duration_of_match m) as [n|e] eqn:E.
    + right. exists m, n. split; [exact E|]. symmetry. exact (Ok_inj _ _ H).
    + destruct e; try discriminate. auto.
Qed.

(** The location loop leaves the record alone or stores the value of one
    entry of the list it is given. *)
Lemma location_loop_cases cities q p :
  location_loop cities q p = p \/
  exists city canonical,
    In (city, canonical) cities /\ location_loop cities q p = set_location p canonical.
Proof.
  induction cities as [|[city canonical] more IH]; cbn [location_loop].
  - now left.
  - destruct (Re.search _ q).
    + right. exists city, canonical. split; [now left|reflexivity].
    + destruct IH as [IH|(c & n & Hin & IH)]; [now left|].
      right. exists c, n. split; [now right|exact IH].
Qed.

Lemma procedure_step_cases q p :
  procedure_step q p = p \/ exists t, procedure_step q p = set_procedure p t.
Proof.
  unfold procedure_step. destruct (best_procedure q) as [b|]; [|now left].
  destruct (Py.truthy b); [right; eauto|now left].
Qed.

(** ** [raw_query] is the input, whatever the input *)

Lemma remaining_fields_raw q p p' :
  remaining_fields q p = Ok p' -> raw_query p' = raw_query p.
Proof.
  unfold remaining_fields. intros H.
  destruct (match age p with
            | None => age_only_loop age_only_patterns q p
            | Some _ => Ok p end) as [p2|e] eqn:E2; cbn [rbind] in H;
    [|discriminate].
  assert (H2 : raw_query p2 = raw_query p).
  { destruct (age p); [now rewrite <- (Ok_inj _ _ E2)|].
    now apply age_only_loop_keeps in E2 as (? & _). }
  destruct (match gender p2 with
            | None => gender_loop gender_patterns q p2
            | Some _ => Ok p2 end) as [p3|e] eqn:E3; cbn [rbind] in H;
    [|discriminate].
  assert (H3 : raw_query p3 = raw_query p2).
  { destruct (gender p2); [now rewrite <- (Ok_inj _ _ E3)|].
    now apply gender_loop_keeps in E3 as (? & _). }
  destruct (duration_loop duration_patterns q p3) as [p4|e] eqn:E4;
    cbn [rbind] in H; [|discriminate].
  assert (H4 : raw_query p4 = raw_query p3).
  { destruct (duration_loop_cases _ _ _ _ E4) as [->|(m & n & _ & ->)];
      reflexivity. }
  rewrite <- (Ok_inj _ _ H).
  destruct (procedure_step_cases q (location_loop sorted_cities q p4))
    as [->|[t ->]];
    destruct (location_loop_cases sorted_cities q p4)
      as [->|(c & n & _ & ->)]; simpl; congruence.
Qed.

(** Whenever [parse_query] returns, the [raw_query] of the record is the
    argument it was given: no stage lowers, strips or replaces it. *)
Theorem parse_query_keeps_raw_query (query : pyobj) (p : ParsedQuery) :
  parse_query query = Ok p -> raw_query p = query.
Proof.
  unfold parse_query. intros H.
  destruct query; try (rewrite <- (Ok_inj _ _ H); reflexivity).
  destruct (negb (Py.truthy s)); [rewrite <- (Ok_inj _ _ H); reflexivity|].
  destruct (age_gender_loop _ _ _) as [p1|e] eqn:E1; cbn [rbind] in H;
    [|discriminate].
  apply remaining_fields_raw in H. apply age_gender_loop_keeps in E1 as (E & _).
  simpl in E. congruence.
Qed.

Lemma parse_query_keeps_raw_query_witness :
  raw_query (set_duration (initial (PyStr "30 days")) 360) = PyStr "30 days".
Proof.
  apply (parse_query_keeps_raw_query (PyStr "30 days")).
  vm_compute. reflexivity.
Defined.

(** ** The stages of [parse_query] on a non-empty string *)

Lemma parse_query_stages s p :
  Py.truthy s = true -> parse_query (PyStr s) = Ok p ->
  let q := Py.strip (Py.lower s) in
  exists p3 p4,
    keeps_but_age_gender (initial (PyStr s)) p3 /\
    duration_loop duration_patterns q p3 = Ok p4 /\
    p = procedure_step q (location_loop sorted_cities q p4).
Proof.
  intros Ht H q. unfold parse_query in H. rewrite Ht in H. cbn [negb] in H.
  fold q in H.
  destruct (age_gender_loop _ q _) as [p1|e] eqn:E1; cbn [rbind] in H;
    [|discriminate].
  apply age_gender_loop_keeps in E1.
  unfold remaining_fields in H.
  destruct (match age p1 with
            | None => age_only_loop age_only_patterns q p1
            | Some _ => Ok p1 end) as [p2|e] eqn:E2; cbn [rbind] in H;
    [|discriminate].
  assert (K2 : keeps_but_age_gender p1 p2).
  { destruct (age p1); [rewrite <- (Ok_inj _ _ E2); apply keeps_refl|].
    eapply age_only_loop_keeps; eauto. }
  destruct (match gender p2 with
            | None => gender_loop gender_patterns q p2
            | Some _ => Ok p2 end) as [p3|e] eqn:E3; cbn [rbind] in H;
    [|discriminate].
  assert (K3 : keeps_but_age_gender p2 p3).
  { destruct (gender p2); [rewrite <- (Ok_inj _ _ E3); apply keeps_refl|].
    eapply gender_loop_keeps; eauto. }
  destruct (duration_loop duration_patterns q p3) as [p4|e] eqn:E4;
    cbn [rbind] in H; [|discriminate].
  exists p3, p4. split; [|split; [exact E4|symmetry; exact (Ok_inj _ _ H)]].
  eapply keeps_trans; [eapply keeps_trans; eauto|exact K3].
Qed.

Lemma procedure_step_keeps q p :
  location (procedure_step q p) = location p /\
  policy_duration_months (procedure_step q p) = policy_duration_months p.
Proof. destruct (procedure_step_cases q p) as [->|[t ->]]; auto. Qed.

Lemma location_loop_duration cities q p :
  policy_duration_months (location_loop cities q p) = policy_duration_months p.
Proof.
  destruct (location_loop_cases cities q p) as [->|(c & n & _ & ->)]; auto.
Qed.

(** ** The policy duration is never negative *)

Lemma digits_value_nonneg s : forall acc, 0 <= acc -> 0 <= Py.digits_value acc s.
Proof.
  induction s as [|c s IH]; intros acc H; cbn [Py.digits_value]; [exact H|].
  apply IH. pose proof (Zle_0_nat (Py.code c - 48)). lia.
Qed.

Lemma int_nonneg g num : Py.int g = Ok num -> 0 <= num.
Proof.
  unfold Py.int. destruct (_ && _); [|discriminate].
  intros H. rewrite <- (Ok_inj _ _ H). apply digits_value_nonneg. lia.
Qed.

Lemma days_to_months_positive num n : days_to_months num = Ok n -> 1 <= n.
Proof.
  unfold days_to_months. destruct (Py.truediv num 30); cbn [rbind];
    [|discriminate].
  intros H. rewrite <- (Ok_inj _ _ H). lia.
Qed.

Lemma to_months_nonneg num unit n :
  0 <= num -> to_months num unit = Ok n -> 0 <= n.
Proof.
  intros Hn. unfold to_months.
  destruct (any_in ["year"; "yr"; "y"] unit).
  - intros H. rewrite <- (Ok_inj _ _ H). lia.
  - destruct (any_in ["day"; "d"] unit).
    + intros H. apply days_to_months_positive in H. lia.
    + intros H. rewrite <- (Ok_inj _ _ H). exact Hn.
Qed.

Lemma duration_of_match_nonneg m n : duration_of_match m = Ok n -> 0 <= n.
Proof.
  unfold duration_of_match.
  destruct (Re.group m 1) as [g1|]; [|discriminate].
  destruct (Py.int g1) as [num|] eqn:Ei; cbn [rbind]; [|discriminate].
  destruct (Re.group m 2) as [g2|]; [|discriminate].
  apply to_months_nonneg. eapply int_nonneg; eauto.
Qed.

(** Whenever [parse_query] returns a policy duration, it is not negative:
    the count is a run of digits, years are multiplied by 12 and days are
    converted to at least one month. *)
Theorem parse_query_duration_nonneg (query : pyobj) (p : ParsedQuery) (d : Z) :
  parse_query query = Ok p -> policy_duration_months p = Some d -> 0 <= d.
Proof.
  intros H Hd.
  assert (Hs : exists s, query = PyStr s /\ Py.truthy s = true).
  { unfold parse_query in H. destruct query;
      try (rewrite <- (Ok_inj _ _ H) in Hd; discriminate Hd).
    exists s. split; [reflexivity|].
    destruct (Py.truthy s); [reflexivity|].
    rewrite <- (Ok_inj _ _ H) in Hd. discriminate Hd. }
  destruct Hs as (s & -> & Ht).
  destruct (parse_query_stages s p Ht H) as (p3 & p4 & K & E4 & ->).
  rewrite (proj2 (procedure_step_keeps _ _)), location_loop_duration in Hd.
  destruct (duration_loop_cases _ _ _ _ E4) as [->|(m & n & Hn & ->)].
  - destruct K as (_ & _ & _ & K). rewrite K in Hd. discriminate Hd.
  - simpl in Hd. injection Hd as <-. eapply duration_of_match_nonneg; eauto.
Qed.

Lemma parse_query_duration_nonneg_witness :
  parse_query (PyStr "knee surgery 0 months") =
    Ok {| raw_query := PyStr "knee surgery 0 months"; age := None;
          gender := None; procedure := Some "Knee Surgery"; location := None;
          policy_duration_months := Some 0 |} /\ 0 <= 0.
Proof.
  assert (H : parse_query (PyStr "knee surgery 0 months") =
    Ok {| raw_query := PyStr "knee surgery 0 months"; age := None;
          gender := None; procedure := Some "Knee Surgery"; location := None;
          policy_duration_months := Some 0 |}) by (vm_compute; reflexivity).
  split; [exact H|].
  exact (parse_query_duration_nonneg _ _ 0 H eq_refl).
Defined.

(** ** [sorted(..., key=f, reverse=True)] *)


Lemma insert_desc_perm {A} (f : A -> nat) x l :
  Permutation (x :: l) (Py.insert_desc f x l).
Proof.
  induction l as [|y r IH]; simpl; [reflexivity|].
  destruct (f y <? f x)%nat; [reflexivity|].
  rewrite perm_swap. now constructor.
Qed.

Lemma fold_insert_perm {A} (f : A -> nat) l : forall acc,
  Permutation (l ++ acc)
              (fold_left (fun acc x => Py.insert_desc f x acc) l acc).
Proof.
  induction l as [|x l IH]; intros acc; simpl; [reflexivity|].
  rewrite <- IH. rewrite <- insert_desc_perm.
  now rewrite Permutation_middle.
Qed.

Lemma insert_desc_sorted {A} (f : A -> nat) x l :
  StronglySorted (desc f) l -> StronglySorted (desc f) (Py.insert_desc f x l).
Proof.
  induction l as [|y r IH]; intros Hs; simpl.
  - constructor; constructor.
  - inversion Hs as [|? ? Hr Hy]; subst.
    destruct (f y <? f x)%nat eqn:E.
    + apply Nat.ltb_lt in E. constructor; [exact Hs|].
      constructor; [unfold desc; lia|].
      eapply Forall_impl; [|exact Hy]. unfold desc. intros z Hz. lia.
    + apply Nat.ltb_ge in E. constructor; [auto|].
      eapply Permutation_Forall; [apply insert_desc_perm|].
      constructor; [exact E|exact Hy].
Qed.


Lemma insert_desc_filter {A} (f : A -> nat) k x l :
  StronglySorted (desc f) l ->
  filter (has_key f k) (Py.insert_desc f x l) =
  (filter (has_key f k) l ++ if has_key f k x then [x] else [])%list.
Proof.
  induction l as [|y r IH]; intros Hs; simpl; [reflexivity|].
  inversion Hs as [|? ? Hr Hy]; subst.
  destruct (f y <? f x)%nat eqn:E.
  - apply Nat.ltb_lt in E. cbn [filter].
    destruct (has_key f k x) eqn:Ex; [|now rewrite app_nil_r].
    unfold has_key in Ex. apply Nat.eqb_eq in Ex.
    assert (Hy0 : has_key f k y = false).
    { unfold has_key. apply Nat.eqb_neq. lia. }
    assert (Hr0 : filter (has_key f k) r = []).
    { clear IH Hs Hr. induction Hy as [|z r Hz Hy IHr]; [reflexivity|].
      simpl. unfold desc in Hz.
      replace (has_key f k z) with false; [exact IHr|].
      symmetry. unfold has_key. apply Nat.eqb_neq. lia. }
    now rewrite Hy0, Hr0.
  - cbn [filter]. rewrite (IH Hr).
    destruct (has_key f k y); [reflexivity|reflexivity].
Qed.

Lemma fold_insert_stable {A} (f : A -> nat) k l : forall acc,
  StronglySorted (desc f) acc ->
  StronglySorted (desc f)
    (fold_left (fun acc x => Py.insert_desc f x acc) l acc) /\
  filter (has_key f k)
    (fold_left (fun acc x => Py.insert_desc f x acc) l acc) =
  (filter (has_key f k) acc ++ filter (has_key f k) l)%list.
Proof.
  induction l as [|x l IH]; intros acc Hs; simpl.
  - split; [exact Hs|now rewrite app_nil_r].
  - destruct (IH (Py.insert_desc f x acc) (insert_desc_sorted f x acc Hs))
      as [H1 H2].
    split; [exact H1|]. rewrite H2, (insert_desc_filter f k x acc Hs).
    rewrite <- app_assoc. destruct (has_key f k x); reflexivity.
Qed.

(** [sorted(..., key=f, reverse=True)], as the location step uses it: the
    result is a permutation of the input, its keys never increase, and
    elements of equal key keep the order they had in the input. *)
Theorem sorted_desc_stable_sort {A} (f : A -> nat) (l : list A) :
  Permutation l (Py.sorted_desc f l) /\
  StronglySorted (fun a b => (f b <= f a)%nat) (Py.sorted_desc f l) /\
  forall k, filter (fun x => (f x =? k)%nat) (Py.sorted_desc f l)
            = filter (fun x => (f x =? k)%nat) l.
Proof.
  unfold Py.sorted_desc. split; [|split].
  - rewrite <- (fold_insert_perm f l []). now rewrite app_nil_r.
  - apply (fold_insert_stable f 0 l []). constructor.
  - intros k. apply (fold_insert_stable f k l []). constructor.
Qed.

(** ** The location is the canonical name of a longest matching city *)

Lemma sorted_cities_perm : Permutation cities_mapping sorted_cities.
Proof.
  unfold sorted_cities, Py.sorted_desc.
  rewrite <- (fold_insert_perm _ cities_mapping []). now rewrite app_nil_r.
Qed.

Lemma sorted_cities_sorted :
  StronglySorted (desc (fun kv : string * string => String.length (fst kv)))
                 sorted_cities.
Proof.
  unfold sorted_cities, Py.sorted_desc.
  apply (fold_insert_stable _ 0 cities_mapping []). constructor.
Qed.

Lemma location_loop_no_match cities q p :
  (forall city canonical,
      In (city, canonical) cities -> city_matches city q = false) ->
  location_loop cities q p = p.
Proof.
  induction cities as [|[c0 n0] more IH]; intros H; cbn [location_loop];
    [reflexivity|].
  pose proof (H c0 n0 (or_introl eq_refl)) as H0. unfold city_matches in H0.
  destruct (Re.search _ q); [discriminate|].
  apply IH. intros city canonical Hin. apply (H city canonical). now right.
Qed.

Lemma location_loop_longest cities q p city canonical :
  StronglySorted (desc (fun kv : string * string => String.length (fst kv)))
                 cities ->
  In (city, canonical) cities -> city_matches city q = true ->
  exists city' canonical',
    In (city', canonical') cities /\ city_matches city' q = true /\
    (String.length city <= String.length city')%nat /\
    location_loop cities q p = set_location p canonical'.
Proof.
  induction cities as [|[c0 n0] more IH]; intros Hs Hin Hm; [destruct Hin|].
  inversion Hs as [|? ? Hmore H0]; subst. cbn [location_loop].
  destruct (Re.search (Re.pattern ("\b" ++ Re.escape c0 ++ "\b")) q) eqn:E.
  - exists c0, n0. split; [now left|].
    split; [unfold city_matches; now rewrite E|]. split; [|reflexivity].
    destruct Hin as [Heq|Hin]; [injection Heq as -> _; lia|].
    rewrite Forall_forall in H0. apply (H0 _ Hin).
  - destruct Hin as [Heq|Hin].
    + injection Heq as -> _. unfold city_matches in Hm. rewrite E in Hm.
      discriminate.
    + destruct (IH Hmore Hin Hm) as (c & n & Hc & Hcm & Hl & Hr).
      exists c, n. split; [now right|auto].
Qed.

(** The location of a non-empty query.  It is always one of the canonical
    names of the gazetteer; it is [None] when no city of the gazetteer
    matches the lowered, stripped query as a whole word; and when some city
    matches, it is the canonical name of a matching city that is at least
    as long as every other matching city ("new delhi" wins over "delhi"). *)
Theorem parse_query_location (s : string) (p : ParsedQuery) :
  Py.truthy s = true -> parse_query (PyStr s) = Ok p ->
  let q := Py.strip (Py.lower s) in
  (forall c, location p = Some c -> In c canonical_names) /\
  ((forall city canonical,
       In (city, canonical) cities_mapping -> city_matches city q = false) ->
   location p = None) /\
  (forall city canonical,
      In (city, canonical) cities_mapping -> city_matches city q = true ->
      exists city' canonical',
        In (city', canonical') cities_mapping /\
        city_matches city' q = true /\
        (String.length city <= String.length city')%nat /\
        location p = Some canonical').
Proof.
  intros Ht H q.
  destruct (parse_query_stages s p Ht H) as (p3 & p4 & K & E4 & ->).
  fold q. fold q in E4.
  assert (L4 : location p4 = None).
  { destruct K as (_ & _ & K & _).
    destruct (duration_loop_cases _ _ _ _ E4) as [->|(m & n & _ & ->)];
      simpl; rewrite K; reflexivity. }
  rewrite (proj1 (procedure_step_keeps _ _)).
  split; [|split].
  - intros c Hc.
    destruct (location_loop_cases sorted_cities q p4)
      as [E|(city & n & Hin & E)]; rewrite E in Hc.
    + rewrite L4 in Hc. discriminate.
    + simpl in Hc. injection Hc as <-.
      apply (Permutation_in _ (Permutation_sym sorted_cities_perm)) in Hin.
      unfold canonical_names. apply (in_map snd) in Hin. exact Hin.
  - intros Hno. rewrite location_loop_no_match; [exact L4|].
    intros city canonical Hin. apply (Hno city canonical).
    exact (Permutation_in _ (Permutation_sym sorted_cities_perm) Hin).
  - intros city canonical Hin Hm.
    apply (Permutation_in _ sorted_cities_perm) in Hin.
    destruct (location_loop_longest sorted_cities q p4 city canonical
                sorted_cities_sorted Hin Hm) as (c & n & Hc & Hcm & Hl & Hr).
    exists c, n. rewrite Hr.
    split; [exact (Permutation_in _ (Permutation_sym sorted_cities_perm) Hc)|].
    auto.
Qed.

Lemma parse_query_location_witness :
  city_matches "delhi" "treatment in new delhi" = true /\
  exists city' canonical',
    In (city', canonical') cities_mapping /\
    city_matches city' "treatment in new delhi" = true /\
    (String.length "delhi" <= String.length city')%nat /\
    Some "Delhi" = Some canonical'.
Proof.
  assert (Hm : city_matches "delhi" "treatment in new delhi" = true)
    by (vm_compute; reflexivity).
  split; [exact Hm|].
  refine (proj2 (proj2 (parse_query_location "Treatment in New Delhi"
            {| raw_query := PyStr "Treatment in New Delhi"; age := None;
               gender := None; procedure := Some "Treatment";
               location := Some "Delhi"; policy_duration_months := None |}
            eq_refl _)) "delhi" "Delhi" _ Hm).
  - vm_compute. reflexivity.
  - simpl. auto.
Defined.

(** ** The extracted fields depend on the lowered, stripped text only *)

Lemma with_raw_gender_of_prefix r p g :
  gender_of_prefix (with_raw r p) g = with_raw r (gender_of_prefix p g).
Proof.
  unfold gender_of_prefix.
  destruct (Py.startswith "m" (Py.lower g)); [reflexivity|].
  destruct (Py.startswith "f" (Py.lower g)); reflexivity.
Qed.

Lemma with_raw_age_gender_apply r i m p :
  age_gender_apply i m (with_raw r p) = rmap (with_raw r) (age_gender_apply i m p).
Proof.
  unfold age_gender_apply.
  destruct (in_nats i [0; 1; 3]%nat).
  - destruct (Re.group m 1) as [g1|]; [|reflexivity].
    destruct (Py.isdigit g1); [|reflexivity].
    destruct (Py.int g1) as [a|e]; cbn [rbind]; [|reflexivity].
    destruct (age_in_range a); [|reflexivity].
    destruct (Re.group m 2) as [g2|]; [|reflexivity].
    destruct (Py.truthy g2); [|reflexivity].
    cbn [rmap]. f_equal. apply (with_raw_gender_of_prefix r (set_age p a)).
  - destruct (in_nats i [2; 4]%nat); [|reflexivity].
    destruct (Re.group m 2) as [g2|]; [|reflexivity].
    destruct (Py.truthy g2 && Py.isdigit g2); [|reflexivity].
    destruct (Py.int g2) as [a|e]; cbn [rbind]; [|reflexivity].
    destruct (age_in_range a); [|reflexivity].
    destruct (Re.group m 1) as [g1|]; [|reflexivity].
    cbn [rmap]. f_equal. apply (with_raw_gender_of_prefix r (set_age p a)).
Qed.

Lemma with_raw_age_gender_loop r pats q p :
  age_gender_loop pats q (with_raw r p) = rmap (with_raw r) (age_gender_loop pats q p).
Proof.
  induction pats as [|[i pat] more IH]; cbn [age_gender_loop]; [reflexivity|].
  destruct (Re.search (Re.pattern pat) q);
    [apply with_raw_age_gender_apply|exact IH].
Qed.

Lemma with_raw_age_only_loop r pats q p :
  age_only_loop pats q (with_raw r p) = rmap (with_raw r) (age_only_loop pats q p).
Proof.
  induction pats as [|pat more IH]; cbn [age_only_loop]; [reflexivity|].
  destruct (Re.search (Re.pattern pat) q) as [m|]; [|exact IH].
  destruct (Re.group m 1) as [g|]; [|reflexivity].
  destruct (Py.int g) as [a|e]; cbn [rbind]; [|reflexivity].
  destruct (age_in_range a); [reflexivity|exact IH].
Qed.

Lemma with_raw_gender_loop r pats q p :
  gender_loop pats q (with_raw r p) = rmap (with_raw r) (gender_loop pats q p).
Proof.
  induction pats as [|pat more IH]; cbn [gender_loop]; [reflexivity|].
  destruct (Re.search (Re.pattern pat) q) as [m|]; [|exact IH].
  destruct (Re.group m 1) as [g|]; [|reflexivity].
  destruct (in_strings (Py.lower g) ["male"; "m"]); [reflexivity|].
  destruct (in_strings (Py.lower g) ["female"; "f"]); reflexivity.
Qed.

Lemma with_raw_duration_loop r pats q p :
  duration_loop pats q (with_raw r p) = rmap (with_raw r) (duration_loop pats q p).
Proof.
  induction pats as [|pat more IH]; cbn [duration_loop]; [reflexivity|].
  destruct (Re.search (Re.pattern pat) q) as [m|]; [|exact IH].
  destruct (duration_of_match m) as [n|[]]; try reflexivity. exact IH.
Qed.

Lemma with_raw_location_loop r cities q p :
  location_loop cities q (with_raw r p) = with_raw r (location_loop cities q p).
Proof.
  induction cities as [|[city canonical] more IH]; cbn [location_loop];
    [reflexivity|].
  destruct (Re.search _ q); [reflexivity|exact IH].
Qed.

Lemma with_raw_procedure_step r q p :
  procedure_step q (with_raw r p) = with_raw r (procedure_step q p).
Proof.
  unfold procedure_step. destruct (best_procedure q) as [b|]; [|reflexivity].
  destruct (Py.truthy b); reflexivity.
Qed.

Lemma with_raw_remaining_fields r q p :
  remaining_fields q (with_raw r p) = rmap (with_raw r) (remaining_fields q p).
Proof.
  unfold remaining_fields. cbn [age with_raw].
  assert (E2 :
    match age p with
    | Some _ => Ok (with_raw r p)
    | None => age_only_loop age_only_patterns q (with_raw r p)
    end = rmap (with_raw r)
            match age p with
            | Some _ => Ok p
            | None => age_only_loop age_only_patterns q p
            end).
  { destruct (age p); [reflexivity|apply with_raw_age_only_loop]. }
  rewrite E2. clear E2.
  destruct (match age p with
            | Some _ => Ok p
            | None => age_only_loop age_only_patterns q p end) as [p2|e];
    cbn [rmap rbind]; [|reflexivity].
  cbn [gender with_raw].
  assert (E3 :
    match gender p2 with
    | Some _ => Ok (with_raw r p2)
    | None => gender_loop gender_patterns q (with_raw r p2)
    end = rmap (with_raw r)
            match gender p2 with
            | Some _ => Ok p2
            | None => gender_loop gender_patterns q p2
            end).
  { destruct (gender p2); [reflexivity|apply with_raw_gender_loop]. }
  rewrite E3. clear E3.
  destruct (match gender p2 with
            | Some _ => Ok p2
            | None => gender_loop gender_patterns q p2 end) as [p3|e];
    cbn [rmap rbind]; [|reflexivity].
  rewrite with_raw_duration_loop.
  destruct (duration_loop duration_patterns q p3) as [p4|e];
    cbn [rmap rbind]; [|reflexivity].
  now rewrite with_raw_location_loop, with_raw_procedure_step.
Qed.

(** A non-empty query is parsed from its lowered, stripped text; the
    query itself only ends up in [raw_query]. *)
Lemma parse_query_factors s :
  Py.truthy s = true ->
  parse_query (PyStr s) =
  rmap (with_raw (PyStr s)) (parse_lowered (Py.strip (Py.lower s))).
Proof.
  intros Ht. unfold parse_query, parse_lowered. rewrite Ht. cbn [negb].
  change (initial (PyStr s)) with (with_raw (PyStr s) (initial PyNone)).
  rewrite with_raw_age_gender_loop.
  destruct (age_gender_loop _ _ (initial PyNone)) as [p1|e];
    cbn [rmap rbind]; [|reflexivity].
  apply with_raw_remaining_fields.
Qed.

Lemma fields_with_raw (r : pyobj) (x : result ParsedQuery) :
  rmap fields (rmap (with_raw r) x) = rmap fields x.
Proof. destruct x; reflexivity. Qed.

Lemma lower_char_idempotent c : Py.lower_char (Py.lower_char c) = Py.lower_char c.
Proof.
  destruct c as [[] [] [] [] [] [] [] []]; vm_compute; reflexivity.
Qed.

Lemma lower_idempotent s : Py.lower (Py.lower s) = Py.lower s.
Proof.
  induction s as [|c s IH]; [reflexivity|].
  cbn [Py.lower Py.map_string]. unfold Py.lower in IH.
  now rewrite lower_char_idempotent, IH.
Qed.

Lemma truthy_lower s : Py.truthy (Py.lower s) = Py.truthy s.
Proof. destruct s; reflexivity. Qed.

(** The five extracted fields are a function of the lowered, stripped
    text: two non-empty queries that agree on it are parsed to the same
    fields (or raise the same exception), and lowering a query changes
    nothing but [raw_query]. *)
Theorem parse_query_reads_lowered_text :
  (forall s s',
      Py.truthy s = true -> Py.truthy s' = true ->
      Py.strip (Py.lower s) = Py.strip (Py.lower s') ->
      rmap fields (parse_query (PyStr s)) = rmap fields (parse_query (PyStr s'))) /\
  (forall s,
      rmap fields (parse_query (PyStr (Py.lower s)))
      = rmap fields (parse_query (PyStr s))).
Proof.
  assert (H : forall s s',
      Py.truthy s = true -> Py.truthy s' = true ->
      Py.strip (Py.lower s) = Py.strip (Py.lower s') ->
      rmap fields (parse_query (PyStr s)) = rmap fields (parse_query (PyStr s'))).
  { intros s s' Ht Ht' E.
    rewrite (parse_query_factors s Ht), (parse_query_factors s' Ht'), E.
    now rewrite !fields_with_raw. }
  split; [exact H|]. intros s.
  destruct (Py.truthy s) eqn:Ht.
  - apply H; [now rewrite truthy_lower|exact Ht|].
    now rewrite lower_idempotent.
  - destruct s; [reflexivity|discriminate].
Qed.

(** ** A query of white space only *)

Lemma space_not_upper c : Py.is_space c = true -> Py.lower_char c = c.
Proof.
  destruct c as [[] [] [] [] [] [] [] []]; vm_compute; intros H;
    reflexivity || discriminate H.
Qed.

Lemma lower_spaces s : Py.all_chars Py.is_space s = true -> Py.lower s = s.
Proof.
  induction s as [|c s IH]; [reflexivity|].
  cbn [Py.all_chars]. intros H. apply andb_true_iff in H as [Hc Hs].
  cbn [Py.lower Py.map_string]. unfold Py.lower in IH.
  now rewrite (space_not_upper c Hc), (IH Hs).
Qed.

Lemma lstrip_spaces s :
  Py.all_chars Py.is_space s = true -> Py.lstrip_chars (Py.chars s) = [].
Proof.
  induction s as [|c s IH]; [reflexivity|].
  cbn [Py.all_chars]. intros H. apply andb_true_iff in H as [Hc Hs].
  unfold Py.chars. cbn [list_ascii_of_string Py.lstrip_chars].
  rewrite Hc. exact (IH Hs).
Qed.

Lemma strip_spaces s : Py.all_chars Py.is_space s = true -> Py.strip s = "".
Proof. intros H. unfold Py.strip. now rewrite (lstrip_spaces s H). Qed.

Lemma parse_lowered_empty : parse_lowered "" = Ok (initial PyNone).
Proof. vm_compute. reflexivity. Qed.

(** A query made of white space only is parsed like the empty query:
    every field stays unknown and the query is kept as [raw_query]. *)
Theorem parse_query_blank (s : string) :
  Py.all_chars Py.is_space s = true ->
  parse_query (PyStr s) = Ok (initial (PyStr s)).
Proof.
  intros H. destruct (Py.truthy s) eqn:Ht.
  - rewrite (parse_query_factors s Ht), (lower_spaces s H), (strip_spaces s H).
    now rewrite parse_lowered_empty.
  - destruct s; [reflexivity|discriminate].
Qed.

Lemma parse_query_blank_witness :
  parse_query (PyStr "   ") = Ok (initial (PyStr "   ")).
Proof. apply parse_query_blank. reflexivity. Defined.

(** ** The day conversion below the float range *)

Lemma round_half_even_cases n d :
  Py.round_half_even n d = n / d \/ Py.round_half_even n d = n / d + 1.
Proof.
  unfold Py.round_half_even.
  destruct (2 * (n mod d) <? d); [now left|].
  destruct (d <? 2 * (n mod d)); [now right|].
  destruct (Z.even (n / d)); [now left|now right].
Qed.

Lemma truediv_30_returns a :
  0 <= a < 2 ^ 1024 -> exists x, Py.truediv a 30 = Ok x.
Proof.
  intros [H0 H1]. unfold Py.truediv.
  destruct (a =? 0) eqn:Ea; [eauto|]. apply Z.eqb_neq in Ea.
  assert (Hl : Z.log2 a < 1024) by (apply Z.log2_lt_pow2; lia).
  change (Z.log2 30) with 4.
  set (e0 := Z.log2 a - 4 - 53).
  destruct (if 0 <=? e0 then (a, 30 * 2 ^ e0) else (a * 2 ^ (- e0), 30))
    as [n0 d0].
  set (e := if 2 ^ 53 * d0 <=? n0 then e0 + 1 else e0).
  assert (He : e <= 967).
  { unfold e, e0. destruct (2 ^ 53 * d0 <=? n0); lia. }
  destruct (0 <=? e) eqn:Ee; cbv beta iota zeta; [|eauto].
  apply Z.leb_le in Ee.
  set (P := 2 ^ e).
  assert (HP : 0 < P <= 2 ^ 967).
  { unfold P. split; [apply Z.pow_pos_nonneg; lia|].
    apply Z.pow_le_mono_r; lia. }
  pose proof (Z.mul_div_le a (30 * P) ltac:(lia)) as Hq.
  assert (Hq0 : 0 <= a / (30 * P)) by (apply Z.div_pos; lia).
  destruct (round_half_even_cases a (30 * P)) as [Hm|Hm]; rewrite Hm.
  - destruct (2 ^ 1024 <=? a / (30 * P) * P) eqn:Eo; [|eauto].
    apply Z.leb_le in Eo. exfalso. nia.
  - destruct (2 ^ 1024 <=? (a / (30 * P) + 1) * P) eqn:Eo; [|eauto].
    apply Z.leb_le in Eo. exfalso.
    assert (30 * (a / (30 * P) * P) <= a) by nia.
    assert ((a / (30 * P) + 1) * P = a / (30 * P) * P + P) by ring.
    assert (2 ^ 967 * 16 <= 2 ^ 1024) by (vm_compute; discriminate).
    lia.
Qed.

(** The day conversion [max(1, round(num / 30))] returns, and returns at
    least 1, for every day count below the float range (2 ** 1024): the
    [OverflowError] of the division needs a count beyond it. *)
Theorem days_to_months_in_float_range (num : Z) :
  0 <= num < 2 ^ 1024 ->
  exists n, days_to_months num = Ok n /\ 1 <= n.
Proof.
  intros H. destruct (truediv_30_returns num H) as [x Hx].
  unfold days_to_months. rewrite Hx. cbn [rbind].
  eexists. split; [reflexivity|]. lia.
Qed.

Lemma days_to_months_in_float_range_witness :
  exists n, days_to_months 45 = Ok n /\ 1 <= n.
Proof.
  apply days_to_months_in_float_range. split; [lia|].
  vm_compute. reflexivity.
Defined.

(** ** A procedure, when found, is a non-empty phrase *)

Lemma lstrip_head l :
  Py.lstrip_chars l = [] \/
  exists c r, Py.lstrip_chars l = c :: r /\ Py.is_space c = false.
Proof.
  induction l as [|c l IH]; [now left|]. cbn [Py.lstrip_chars].
  destruct (Py.is_space c) eqn:E; [exact IH|]. right. eauto.
Qed.

Lemma lstrip_suffix l : exists pre, l = (pre ++ Py.lstrip_chars l)%list.
Proof.
  induction l as [|c l [pre IH]]; [now exists []|]. cbn [Py.lstrip_chars].
  destruct (Py.is_space c).
  - exists (c :: pre). simpl. now rewrite <- IH.
  - now exists [].
Qed.

(** [strip] leaves nothing or a text whose first character is no space. *)
Lemma strip_head x :
  Py.strip x = "" \/
  exists c r, Py.strip x = String c r /\ Py.is_space c = false.
Proof.
  unfold Py.strip.
  destruct (lstrip_head (Py.chars x)) as [E|(c & r & E & Hc)]; rewrite E.
  - now left.
  - destruct (lstrip_suffix (rev (c :: r))) as [pre Hp].
    set (l2 := Py.lstrip_chars (rev (c :: r))) in *.
    assert (Hr : c :: r = (rev l2 ++ rev pre)%list).
    { rewrite <- rev_app_distr, <- Hp. now rewrite rev_involutive. }
    destruct (rev l2) as [|c2 r2] eqn:E2; [now left|].
    right. exists c2, (Py.of_chars r2). split; [reflexivity|].
    simpl in Hr. injection Hr as <- _. exact Hc.
Qed.

Lemma of_chars_nonempty l : l <> [] -> Py.of_chars l <> "".
Proof. destruct l; [contradiction|discriminate]. Qed.

Lemma split_go_word cur l :
  cur <> [] ->
  exists w rest, Py.split_go cur l = w :: rest /\ w <> "".
Proof.
  revert cur. induction l as [|c l IH]; intros cur Hc; cbn [Py.split_go].
  - destruct cur as [|a cur]; [contradiction|].
    eexists. eexists. split; [reflexivity|].
    apply of_chars_nonempty. intros H. apply (f_equal (@rev ascii)) in H.
    rewrite rev_involutive in H. discriminate.
  - destruct (Py.is_space c).
    + destruct cur as [|a cur]; [contradiction|].
      eexists. eexists. split; [reflexivity|].
      apply of_chars_nonempty. intros H. apply (f_equal (@rev ascii)) in H.
      rewrite rev_involutive in H. discriminate.
    + apply IH. discriminate.
Qed.

Lemma join_nonempty sep w rest : w <> "" -> Py.join sep (w :: rest) <> "".
Proof.
  intros Hw. destruct w as [|a w]; [contradiction|].
  destruct rest; cbn [Py.join]; discriminate.
Qed.

Lemma title_nonempty s : s <> "" -> Py.title s <> "".
Proof.
  destruct s as [|c s]; [contradiction|]. intros _. unfold Py.title.
  cbn [Py.title_go]. destruct (Py.is_alpha c); discriminate.
Qed.

Lemma normalised_nonempty x :
  Py.truthy (Py.strip x) = true ->
  Py.title (Py.join " " (Py.split (Py.strip x))) <> "".
Proof.
  intros Ht. destruct (strip_head x) as [E|(c & r & E & Hc)].
  - rewrite E in Ht. discriminate.
  - rewrite E. apply title_nonempty. unfold Py.split, Py.chars.
    cbn [list_ascii_of_string Py.split_go]. rewrite Hc.
    destruct (split_go_word [c] (list_ascii_of_string r)) as (w & rest & -> & Hw);
      [discriminate|].
    now apply join_nonempty.
Qed.


Lemma longer_stripped best m : stripped best -> stripped (longer best m).
Proof.
  unfold longer, stripped. intros H b.
  destruct (snd best <? String.length (Py.strip (Re.m_text m)))%nat.
  - cbn [fst]. intros Hb. injection Hb as <-. eauto.
  - apply H.
Qed.

Lemma fold_longer_stripped ms : forall best,
  stripped best -> stripped (fold_left longer ms best).
Proof.
  induction ms as [|m ms IH]; intros best H; [exact H|].
  cbn [fold_left]. apply IH, longer_stripped, H.
Qed.

Lemma best_procedure_stripped q b :
  best_procedure q = Some b -> exists x, b = Py.strip x.
Proof.
  unfold best_procedure.
  assert (H : forall pats best, stripped best ->
            stripped (fold_left (fun best pat =>
                        fold_left longer (Re.finditer (Re.pattern pat) q) best)
                      pats best)).
  { induction pats as [|pat pats IH]; intros best Hb; [exact Hb|].
    cbn [fold_left]. apply IH, fold_longer_stripped, Hb. }
  apply (H procedure_patterns (None, 0%nat)). intros b0 Hb0. discriminate.
Qed.

(** A procedure, when [parse_query] stores one, is never the empty
    string. *)
Theorem parse_query_procedure_nonempty (query : pyobj) (p : ParsedQuery)
    (t : string) :
  parse_query query = Ok p -> procedure p = Some t -> Py.truthy t = true.
Proof.
  intros H Ht.
  assert (Hs : exists s, query = PyStr s /\ Py.truthy s = true).
  { unfold parse_query in H. destruct query;
      try (rewrite <- (Ok_inj _ _ H) in Ht; discriminate Ht).
    exists s. split; [reflexivity|].
    destruct (Py.truthy s); [reflexivity|].
    rewrite <- (Ok_inj _ _ H) in Ht. discriminate Ht. }
  destruct Hs as (s & -> & Hts).
  destruct (parse_query_stages s p Hts H) as (p3 & p4 & K & E4 & ->).
  set (q := Py.strip (Py.lower s)) in *.
  assert (P4 : procedure (location_loop sorted_cities q p4) = None).
  { destruct K as (_ & K & _ & _).
    destruct (location_loop_cases sorted_cities q p4) as [->|(c & n & _ & ->)];
      destruct (duration_loop_cases _ _ _ _ E4) as [->|(m & n0 & _ & ->)];
      simpl; rewrite K; reflexivity. }
  unfold procedure_step in Ht.
  destruct (best_procedure q) as [b|] eqn:Eb; [|congruence].
  destruct (Py.truthy b) eqn:Etb; [|congruence].
  simpl in Ht. injection Ht as <-.
  destruct (best_procedure_stripped q b Eb) as [x ->].
  unfold Py.truthy. apply negb_true_iff, String.eqb_neq.
  now apply normalised_nonempty.
Qed.

Lemma parse_query_procedure_nonempty_witness :
  Py.truthy "Knee Surgery" = true.
Proof.
  apply (parse_query_procedure_nonempty
           (PyStr "46M knee surgery 6-month policy Pune")
           {| raw_query := PyStr "46M knee surgery 6-month policy Pune";
              age := Some 46; gender := Some Male;
              procedure := Some "Knee Surgery"; location := Some "Pune";
              policy_duration_months := Some 6 |}).
  - vm_compute. reflexivity.
  - reflexivity.
Defined.

(** ** Why [parse_query] can raise *)

Lemma captures_must groups digits pat i :
  captures groups digits pat = true -> In i groups ->
  must i (pattern pat) = true.
Proof.
  unfold captures. intros H Hin. apply andb_true_iff in H as [H _].
  rewrite forallb_forall in H. auto.
Qed.

Lemma captures_digits groups digits pat i :
  captures groups digits pat = true -> In i digits ->
  digit_group i (pattern pat) = true.
Proof.
  unfold captures. intros H Hin. apply andb_true_iff in H as [_ H].
  rewrite forallb_forall in H. auto.
Qed.

(** ** The age and gender loops never raise *)

Lemma age_gender_apply_returns i pat n m p :
  age_gender_ok (i, pat) = true -> groups_of (pattern pat) n m ->
  exists p', age_gender_apply i m p = Ok p'.
Proof.
  unfold age_gender_ok, age_gender_apply. cbn [fst snd]. intros Hok Hg.
  destruct (in_nats i [0; 1; 3]%nat).
  - pose proof (captures_must _ _ _ 1%nat Hok (or_introl eq_refl)) as Hm.
    pose proof (captures_digits _ _ _ 1%nat Hok (or_introl eq_refl)) as Hd.
    destruct (proj2 Hg 1%nat Hm) as [g1 E1]. rewrite E1.
    destruct (digit_group_int _ _ _ _ _ Hg Hd E1) as [Hi [a Ha]].
    rewrite Hi, Ha. cbn [rbind].
    destruct (age_in_range a); [|eauto].
    destruct (group m 2) as [g2|]; [|eauto].
    destruct (Py.truthy g2); eauto.
  - destruct (in_nats i [2; 4]%nat); [|eauto].
    pose proof (captures_must _ _ _ 1%nat Hok (or_introl eq_refl)) as Hm.
    pose proof (captures_digits _ _ _ 2%nat Hok (or_introl eq_refl)) as Hd.
    destruct (proj2 Hg 1%nat Hm) as [g1 E1]. rewrite E1.
    destruct (group m 2) as [g2|] eqn:E2; [|eauto].
    destruct (digit_group_int _ _ _ _ _ Hg Hd E2) as [Hi [a Ha]].
    destruct (Py.truthy g2 && Py.isdigit g2); [|eauto].
    rewrite Ha. cbn [rbind]. destruct (age_in_range a); eauto.
Qed.

Lemma age_gender_loop_returns q p : forall pats,
  forallb age_gender_ok pats = true ->
  exists p', age_gender_loop pats q p = Ok p'.
Proof.
  induction pats as [|[i pat] more IH]; cbn [age_gender_loop forallb];
    intros H; [eauto|].
  apply andb_true_iff in H as [H1 H2].
  destruct (search (pattern pat) q) as [m|] eqn:E; [|auto].
  eapply age_gender_apply_returns; [exact H1|].
  eapply search_groups; eauto.
Qed.

Lemma age_only_loop_returns q p : forall pats,
  forallb (captures [1]%nat [1]%nat) pats = true ->
  exists p', age_only_loop pats q p = Ok p'.
Proof.
  induction pats as [|pat more IH]; cbn [age_only_loop forallb];
    intros H; [eauto|].
  apply andb_true_iff in H as [H1 H2].
  destruct (search (pattern pat) q) as [m|] eqn:E; [|auto].
  apply search_groups in E.
  pose proof (captures_must _ _ _ 1%nat H1 (or_introl eq_refl)) as Hm.
  pose proof (captures_digits _ _ _ 1%nat H1 (or_introl eq_refl)) as Hd.
  destruct (proj2 E 1%nat Hm) as [g1 E1]. rewrite E1.
  destruct (digit_group_int _ _ _ _ _ E Hd E1) as [Hi [a Ha]].
  rewrite Ha. cbn [rbind]. destruct (age_in_range a); eauto.
Qed.

Lemma gender_loop_returns q p : forall pats,
  forallb (captures [1]%nat []) pats = true ->
  exists p', gender_loop pats q p = Ok p'.
Proof.
  induction pats as [|pat more IH]; cbn [gender_loop forallb];
    intros H; [eauto|].
  apply andb_true_iff in H as [H1 H2].
  destruct (search (pattern pat) q) as [m|] eqn:E; [|auto].
  apply search_groups in E.
  pose proof (captures_must _ _ _ 1%nat H1 (or_introl eq_refl)) as Hm.
  destruct (proj2 E 1%nat Hm) as [g1 E1]. rewrite E1.
  destruct (in_strings (Py.lower g1) ["male"; "m"]); [eauto|].
  destruct (in_strings (Py.lower g1) ["female"; "f"]); eauto.
Qed.

(** ** The value of a digit string *)

Lemma is_digit_code c : Py.is_digit c = true -> (Py.code c - 48 <= 9)%nat.
Proof.
  unfold Py.is_digit, Py.in_range. intros H.
  apply andb_true_iff in H as [_ H]. apply Nat.leb_le in H. lia.
Qed.

Lemma digits_value_bound s : forall acc,
  Py.all_chars Py.is_digit s = true -> 0 <= acc ->
  Py.digits_value acc s < (acc + 1) * 10 ^ Z.of_nat (String.length s).
Proof.
  induction s as [|c s IH]; intros acc H Ha;
    cbn [Py.digits_value String.length Py.all_chars] in *.
  - change (10 ^ Z.of_nat 0) with 1. lia.
  - apply andb_true_iff in H as [Hc Hs]. apply is_digit_code in Hc.
    specialize (IH (10 * acc + Z.of_nat (Py.code c - 48)) Hs ltac:(lia)).
    rewrite Nat2Z.inj_succ, Z.pow_succ_r by lia.
    assert (0 < 10 ^ Z.of_nat (String.length s)) by (apply Z.pow_pos_nonneg; lia).
    nia.
Qed.

Lemma int_bound g num :
  Py.int g = Ok num -> 0 <= num < 10 ^ Z.of_nat (String.length g).
Proof.
  intros H. split; [eapply int_nonneg; eauto|].
  unfold Py.int in H.
  destruct (Py.isdigit g) eqn:Ei; cbn [andb] in H; [|discriminate].
  destruct (_ <=? _)%nat; [|discriminate].
  rewrite <- (Ok_inj _ _ H).
  unfold Py.isdigit in Ei. apply andb_true_iff in Ei as [_ Ei].
  pose proof (digits_value_bound g 0 Ei ltac:(lia)). lia.
Qed.

(** A decimal string whose value is beyond the float range has at least
    309 digits. *)
Lemma overflow_long g num :
  Py.int g = Ok num -> 2 ^ 1024 <= num -> (309 <= String.length g)%nat.
Proof.
  intros H Hn. apply int_bound in H as [_ H].
  destruct (le_lt_dec 309 (String.length g)) as [|Hl]; [assumption|exfalso].
  assert (10 ^ Z.of_nat (String.length g) <= 10 ^ 308)
    by (apply Z.pow_le_mono_r; lia).
  assert (10 ^ 308 < 2 ^ 1024) by (vm_compute; reflexivity).
  lia.
Qed.

Lemma truediv_error a b e : Py.truediv a b = Raise e -> e = OverflowError.
Proof.
  unfold Py.truediv. destruct (a =? 0); [discriminate|].
  destruct (if (0 <=? Z.log2 a - Z.log2 b - 53)
            then (a, (b * 2 ^ (Z.log2 a - Z.log2 b - 53)))
            else ((a * 2 ^ (- (Z.log2 a - Z.log2 b - 53))), b)) as [n0 d0].
  set (e1 := if (2 ^ 53 * d0 <=? n0)
             then (Z.log2 a - Z.log2 b - 53 + 1)
             else (Z.log2 a - Z.log2 b - 53)).
  destruct (if (0 <=? e1) then (a, (b * 2 ^ e1))
            else ((a * 2 ^ (- e1)), b)) as [n d].
  destruct (0 <=? e1); [|discriminate].
  destruct (2 ^ 1024 <=? _); [|discriminate].
  intros H. now injection H as <-.
Qed.

Lemma days_to_months_error num e :
  days_to_months num = Raise e -> e = OverflowError.
Proof.
  unfold days_to_months. destruct (Py.truediv num 30) eqn:E; cbn [rbind];
    [discriminate|].
  intros H. injection H as <-. eapply truediv_error; eauto.
Qed.

Lemma int_error g e : Py.int g = Raise e -> e = ValueError.
Proof.
  unfold Py.int. destruct (_ && _); [discriminate|].
  intros H. now injection H as <-.
Qed.

Lemma days_to_months_raises num e :
  0 <= num -> days_to_months num = Raise e ->
  e = OverflowError /\ 2 ^ 1024 <= num.
Proof.
  intros H0 H. split; [eapply days_to_months_error; eauto|].
  destruct (Z_lt_le_dec num (2 ^ 1024)) as [Hl|]; [exfalso|assumption].
  destruct (truediv_30_returns num (conj H0 Hl)) as [x Hx].
  unfold days_to_months in H. rewrite Hx in H. discriminate.
Qed.

(** ** The duration loop *)

Lemma duration_of_match_raises pat n m e :
  captures [1; 2]%nat [] pat = true -> groups_of (pattern pat) n m ->
  duration_of_match m = Raise e ->
  e = ValueError \/ (e = OverflowError /\ (309 <= n)%nat).
Proof.
  intros Hc Hg. unfold duration_of_match.
  pose proof (captures_must _ _ _ 1%nat Hc (or_introl eq_refl)) as M1.
  pose proof (captures_must _ _ _ 2%nat Hc (or_intror (or_introl eq_refl))) as M2.
  destruct (proj2 Hg 1%nat M1) as [g1 E1]. rewrite E1.
  destruct (proj2 Hg 2%nat M2) as [g2 E2]. rewrite E2.
  destruct (Py.int g1) as [num|e0] eqn:Ei; cbn [rbind].
  - unfold to_months.
    destruct (any_in ["year"; "yr"; "y"] (Py.lower g2)); [discriminate|].
    destruct (any_in ["day"; "d"] (Py.lower g2)); [|discriminate].
    intros H. right.
    destruct (days_to_months_raises num e (proj1 (int_bound _ _ Ei)) H)
      as [-> Hn].
    split; [reflexivity|].
    pose proof (overflow_long _ _ Ei Hn).
    destruct (proj1 Hg 1%nat g1 E1) as [_ Hl]. lia.
  - intros H. injection H as <-. left. eapply int_error; eauto.
Qed.

Lemma duration_loop_raises q p e : forall pats,
  forallb (captures [1; 2]%nat []) pats = true ->
  duration_loop pats q p = Raise e ->
  e = OverflowError /\ (309 <= String.length q)%nat.
Proof.
  induction pats as [|pat more IH]; cbn [duration_loop forallb];
    intros H; [discriminate|].
  apply andb_true_iff in H as [H1 H2].
  destruct (search (pattern pat) q) as [m|] eqn:E; [|auto].
  apply search_groups in E.
  destruct (duration_of_match m) as [x|e0] eqn:Ed; [discriminate|].
  destruct (duration_of_match_raises _ _ _ _ H1 E Ed) as [->|[-> Hl]].
  - auto.
  - intros H. injection H as <-. auto.
Qed.

(** ** The text the patterns are run on is no longer than the query *)

Lemma map_string_length f s : String.length (Py.map_string f s) = String.length s.
Proof. induction s as [|c s IH]; simpl; [reflexivity|now rewrite IH]. Qed.

Lemma lstrip_length l : (length (Py.lstrip_chars l) <= length l)%nat.
Proof.
  destruct (lstrip_suffix l) as [pre H]. rewrite H at 2.
  rewrite length_app. lia.
Qed.

Lemma strip_length s : (String.length (Py.strip s) <= String.length s)%nat.
Proof.
  unfold Py.strip. rewrite length_of_chars, length_rev.
  etransitivity; [apply lstrip_length|]. rewrite length_rev.
  etransitivity; [apply lstrip_length|]. now rewrite length_chars.
Qed.

Lemma lowered_length s :
  (String.length (Py.strip (Py.lower s)) <= String.length s)%nat.
Proof.
  etransitivity; [apply strip_length|]. unfold Py.lower.
  now rewrite map_string_length.
Qed.

(** ** The patterns of the source *)

Lemma age_gender_patterns_ok :
  forallb age_gender_ok (enumerate age_gender_patterns) = true.
Proof. vm_compute. reflexivity. Qed.

Lemma age_only_patterns_ok :
  forallb (captures [1]%nat [1]%nat) age_only_patterns = true.
Proof. vm_compute. reflexivity. Qed.

Lemma gender_patterns_ok :
  forallb (captures [1]%nat []) gender_patterns = true.
Proof. vm_compute. reflexivity. Qed.

Lemma duration_patterns_ok :
  forallb (captures [1; 2]%nat []) duration_patterns = true.
Proof. vm_compute. reflexivity. Qed.

Lemma parse_query_str_raises (s : string) (e : py_exn) :
  parse_query (PyStr s) = Raise e ->
  e = OverflowError /\ (309 <= String.length s)%nat.
Proof.
  unfold parse_query.
  destruct (negb (Py.truthy s)); [discriminate|].
  set (q := Py.strip (Py.lower s)).
  destruct (age_gender_loop_returns q (initial (PyStr s)) _
              age_gender_patterns_ok) as [p1 ->].
  cbn [rbind]. unfold remaining_fields.
  assert (E2 : exists p2,
    match age p1 with
    | Some _ => Ok p1
    | None => age_only_loop age_only_patterns q p1
    end = Ok p2).
  { destruct (age p1); [eauto|].
    apply age_only_loop_returns, age_only_patterns_ok. }
  destruct E2 as [p2 ->]. cbn [rbind].
  assert (E3 : exists p3,
    match gender p2 with
    | Some _ => Ok p2
    | None => gender_loop gender_patterns q p2
    end = Ok p3).
  { destruct (gender p2); [eauto|].
    apply gender_loop_returns, gender_patterns_ok. }
  destruct E3 as [p3 ->]. cbn [rbind].
  destruct (duration_loop duration_patterns q p3) as [p4|e0] eqn:E4;
    cbn [rbind]; [discriminate|].
  intros H. injection H as <-.
  destruct (duration_loop_raises _ _ _ _ duration_patterns_ok E4) as [-> Hl].
  split; [reflexivity|].
  pose proof (lowered_length s). fold q in H. lia.
Qed.

(** [parse_query] raises nothing but [OverflowError], and only on a
    string of 309 characters or more: the groups the age and gender steps
    convert are always captured and are runs of one to three digits, the
    duration step catches the [ValueError] of [int], and a day count beyond
    the float range needs 309 digits.  So [parse_query] returns on every
    query of at most 308 characters. *)
Theorem parse_query_raises (query : pyobj) (e : py_exn) :
  parse_query query = Raise e ->
  e = OverflowError /\
  exists s, query = PyStr s /\ (309 <= String.length s)%nat.
Proof.
  destruct query as [| | | |s|]; try discriminate.
  intros H. destruct (parse_query_str_raises s e H) as [-> Hl]. eauto.
Qed.

Lemma parse_query_raises_witness :
  parse_query (PyStr overflow_query) = Raise OverflowError /\
  exists s, PyStr overflow_query = PyStr s /\ (309 <= String.length s)%nat.
Proof.
  assert (H : parse_query (PyStr overflow_query) = Raise OverflowError)
    by (vm_compute; reflexivity).
  split; [exact H|].
  exact (proj2 (parse_query_raises _ _ H)).
Defined.

End ParseMore.

(* ===================================================================== *)
(** * Further properties of the decision engine *)
(* ===================================================================== *)

Module EngineMore.
Import ReSem Parse Engine Derived EngineSpec ReMore ParseMore.
Local Open Scope R_scope.

(** ** [extract_waiting_periods] *)

Lemma period_of_spec num_str unit :
  match period_of num_str unit with
  | Ok ps => Forall (fun x => (1 <= x)%Z) ps
  | Raise e =>
      e = ValueError \/
      (e = OverflowError /\ (309 <= String.length num_str)%nat)
  end.
Proof.
  unfold period_of. destruct (Py.int num_str) as [num|e] eqn:Ei; cbn [rbind].
  2:{ left. eapply int_error; eauto. }
  destruct (num <=? 0)%Z eqn:E0; [constructor|].
  apply Z.leb_gt in E0.
  destruct (Py.contains "year" unit || Py.contains "yr" unit).
  { constructor; [lia|constructor]. }
  destruct (Py.contains "day" unit).
  - destruct (days_to_months num) as [n|e] eqn:Ed; cbn [rbind].
    + constructor; [eapply days_to_months_positive; eauto|constructor].
    + right.
      destruct (days_to_months_raises num e ltac:(lia) Ed) as [-> Hn].
      split; [reflexivity|]. eapply overflow_long; eauto.
  - constructor; [lia|constructor].
Qed.

Lemma periods_of_matches_spec n matches : forall periods,
  Forall (fun nu => (String.length (fst nu) <= n)%nat) matches ->
  Forall (fun x => (1 <= x)%Z) periods ->
  match periods_of_matches matches periods with
  | Ok ps => Forall (fun x => (1 <= x)%Z) ps
  | Raise e => e = OverflowError /\ (309 <= n)%nat
  end.
Proof.
  induction matches as [|[num_str unit] more IH]; intros periods Hn H;
    cbn [periods_of_matches]; [exact H|].
  inversion Hn as [|? ? Hl Hmore]; subst. cbn [fst] in Hl.
  pose proof (period_of_spec num_str unit) as Hp.
  destruct (period_of num_str unit) as [ps|e].
  - apply IH; [exact Hmore|]. apply Forall_app. auto.
  - destruct Hp as [-> | [-> Hp]]; [apply IH; assumption|].
    split; [reflexivity|lia].
Qed.

(** A number [re.findall] hands over is no longer than the text. *)
Lemma findall2_lengths r s :
  Forall (fun nu => (String.length (fst nu) <= String.length s)%nat)
         (Re.findall2 r s).
Proof.
  unfold Re.findall2. apply Forall_forall. intros nu Hin.
  apply in_map_iff in Hin as (m & <- & Hm).
  apply finditer_groups in Hm. cbn [fst].
  destruct (Re.group m 1) as [t|] eqn:E; [apply (proj1 Hm 1%nat t E)|].
  simpl. lia.
Qed.

Lemma periods_of_patterns_spec lowered pats : forall periods,
  Forall (fun x => (1 <= x)%Z) periods ->
  match periods_of_patterns pats lowered periods with
  | Ok ps => Forall (fun x => (1 <= x)%Z) ps
  | Raise e => e = OverflowError /\ (309 <= String.length lowered)%nat
  end.
Proof.
  induction pats as [|pat more IH]; intros periods H;
    cbn [periods_of_patterns]; [exact H|].
  pose proof (periods_of_matches_spec (String.length lowered)
                (Re.findall2 (Re.pattern pat) lowered) periods
                (findall2_lengths _ _) H) as Hm.
  destruct (periods_of_matches _ periods) as [ps|e]; cbn [rbind].
  - apply IH. exact Hm.
  - exact Hm.
Qed.

Lemma extract_waiting_periods_spec text :
  match extract_waiting_periods text with
  | Ok ps => Forall (fun x => (1 <= x)%Z) ps
  | Raise e => e = OverflowError /\ (309 <= String.length text)%nat
  end.
Proof.
  unfold extract_waiting_periods. destruct (negb (Py.truthy text)).
  - constructor.
  - pose proof (periods_of_patterns_spec (Py.lower text) waiting_patterns []
                  (Forall_nil _)) as H.
    unfold Py.lower in H at 2. now rewrite map_string_length in H.
Qed.

(** Every waiting period [extract_waiting_periods] returns is at least one
    month: counts of zero are dropped, years are multiplied by 12 and days
    are rounded to no less than one month. *)
Theorem extract_waiting_periods_positive (text : string) (ps : list Z) :
  extract_waiting_periods text = Ok ps ->
  Forall (fun x => (1 <= x)%Z) ps.
Proof.
  intros H. pose proof (extract_waiting_periods_spec text) as Hs.
  now rewrite H in Hs.
Qed.

Lemma extract_waiting_periods_positive_witness :
  extract_waiting_periods "A 0 day or 10-day or 90 days waiting period"
    = Ok [3; 1]%Z /\ Forall (fun x => (1 <= x)%Z) [3; 1]%Z.
Proof.
  assert (H : extract_waiting_periods
                "A 0 day or 10-day or 90 days waiting period" = Ok [3; 1]%Z)
    by (vm_compute; reflexivity).
  split; [exact H|]. exact (extract_waiting_periods_positive _ _ H).
Defined.

(** [extract_waiting_periods] raises nothing but the [OverflowError] of
    the day conversion, and only on a text of 309 characters or more: a
    [ValueError] of [int] is caught and the match skipped, and a day count
    beyond the float range needs 309 digits. *)
Theorem extract_waiting_periods_raises_overflow_only (text : string)
    (e : py_exn) :
  extract_waiting_periods text = Raise e ->
  e = OverflowError /\ (309 <= String.length text)%nat.
Proof.
  intros H. pose proof (extract_waiting_periods_spec text) as Hs.
  now rewrite H in Hs.
Qed.

Lemma extract_waiting_periods_raises_overflow_only_witness :
  extract_waiting_periods overflow_clause_text = Raise OverflowError /\
  (309 <= String.length overflow_clause_text)%nat.
Proof.
  assert (H : extract_waiting_periods overflow_clause_text
              = Raise OverflowError) by (vm_compute; reflexivity).
  split; [exact H|].
  exact (proj2 (extract_waiting_periods_raises_overflow_only _ _ H)).
Defined.

(** ** [compute_similarity] is symmetric *)

Lemma dot_comm a : forall b, dot a b = dot b a.
Proof.
  induction a as [|x a IH]; intros [|y b]; try reflexivity.
  cbn [dot]. rewrite (IH b). destruct (dot b a); cbn [rbind]; [|reflexivity].
  f_equal. lra.
Qed.

Lemma cosine_comm a b : cosine a b = cosine b a.
Proof.
  unfold cosine. rewrite (dot_comm a b).
  destruct (dot b a); cbn [rbind]; [|reflexivity].
  now rewrite (Rmult_comm (norm a) (norm b)).
Qed.

Lemma similarity_body_comm encode t1 t2 :
  match similarity_body encode t1 t2, similarity_body encode t2 t1 with
  | Ok r, Ok r' => r = r'
  | Raise _, Raise _ => True
  | _, _ => False
  end.
Proof.
  unfold similarity_body.
  destruct (encode t1) as [e1|]; destruct (encode t2) as [e2|];
    cbn [rbind]; auto.
  rewrite (cosine_comm e1 e2). destruct (cosine e2 e1); cbn [rbind]; auto.
Qed.

(** [compute_similarity] is symmetric in its two texts. *)
Theorem compute_similarity_symmetric (st : Store) (text1 text2 : string) :
  fst (compute_similarity text1 text2 st) =
  fst (compute_similarity text2 text1 st).
Proof.
  rewrite !compute_similarity_run. cbn [fst]. f_equal.
  pose proof (similarity_cases st text1 text2) as H1.
  pose proof (similarity_cases st text2 text1) as H2.
  destruct (model st) as [encode|]; [|congruence].
  rewrite (orb_comm (negb (Py.truthy text2))) in H2.
  destruct (negb (Py.truthy text1) || negb (Py.truthy text2)); [congruence|].
  pose proof (similarity_body_comm encode text1 text2) as Hc.
  destruct (similarity_body encode text1 text2),
           (similarity_body encode text2 text1); try contradiction; congruence.
Qed.

(** ** [_ensure_embeddings] *)

Lemma embed_clause_text encode c : text (embed_clause encode c) = text c.
Proof.
  unfold embed_clause. destruct (text c) as [t|] eqn:E; [|exact E].
  destruct (encode t); reflexivity.
Qed.

Lemma embed_clause_idempotent encode c :
  embed_clause encode (embed_clause encode c) = embed_clause encode c.
Proof.
  unfold embed_clause. destruct (text c) as [t|] eqn:E.
  - destruct (encode t) as [e|] eqn:Ee; cbn [text]; rewrite Ee; reflexivity.
  - now rewrite E.
Qed.

Lemma embed_clause_embedded encode c :
  text c <> None -> embedding (embed_clause encode c) <> None.
Proof.
  unfold embed_clause. destruct (text c) as [t|]; [|contradiction].
  destruct (encode t); discriminate.
Qed.

(** The store [_ensure_embeddings] leaves behind. *)
Lemma ensure_embeddings_run st :
  ensure_embeddings st =
  (Ok tt,
   match model st with
   | Some encode =>
       if truthy_list (all_clauses st)
          && negb (forallb has_embedding (all_clauses st))
       then {| parsed := parsed st;
               all_clauses := map (embed_clause encode) (all_clauses st);
               model := model st |}
       else st
   | None => st
   end).
Proof.
  unfold ensure_embeddings. cbv [bind read]. cbv beta.
  destruct (model st) as [encode|] eqn:Em; [|reflexivity].
  destruct (truthy_list (all_clauses st)); cbn [negb andb]; [|reflexivity].
  destruct (forallb has_embedding (all_clauses st)); cbn [negb];
    [reflexivity|].
  unfold write_all_clauses. now rewrite Em.
Qed.

(** [_ensure_embeddings] never raises; it leaves the parsed query, the
    encoder and every clause text as they were; with an encoder loaded,
    every clause that has a text has an embedding afterwards; and a second
    call changes nothing. *)
Theorem ensure_embeddings_spec (st : Store) :
  let st' := snd (ensure_embeddings st) in
  fst (ensure_embeddings st) = Ok tt /\
  parsed st' = parsed st /\ model st' = model st /\
  map text (all_clauses st') = map text (all_clauses st) /\
  (model st <> None ->
   forall c, In c (all_clauses st') -> text c <> None -> embedding c <> None) /\
  ensure_embeddings st' = (Ok tt, st').
Proof.
  rewrite (ensure_embeddings_run st). cbn [fst snd].
  destruct (model st) as [encode|] eqn:Em.
  2:{ refine (conj eq_refl (conj eq_refl (conj _ (conj eq_refl (conj _ _))))).
      - first [reflexivity | exact Em].
      - intros H. now contradiction H.
      - rewrite ensure_embeddings_run, Em. reflexivity. }
  destruct (truthy_list (all_clauses st)) eqn:Et; cbn [andb].
  2:{ refine (conj eq_refl (conj eq_refl (conj _ (conj eq_refl (conj _ _))))).
      - first [reflexivity | exact Em].
      - destruct (all_clauses st); [intros _ c []|discriminate].
      - rewrite ensure_embeddings_run, Em, Et. reflexivity. }
  destruct (forallb has_embedding (all_clauses st)) eqn:Ef; cbn [negb].
  - refine (conj eq_refl (conj eq_refl (conj _ (conj eq_refl (conj _ _))))).
    + first [reflexivity | exact Em].
    + intros _ c Hin _. rewrite forallb_forall in Ef. specialize (Ef c Hin).
      unfold has_embedding in Ef. destruct (embedding c); discriminate.
    + rewrite ensure_embeddings_run, Em, Et, Ef. reflexivity.
  - cbn [parsed model all_clauses].
    refine (conj eq_refl (conj eq_refl (conj _ (conj _ (conj _ _))))).
    + first [reflexivity | exact Em].
    + rewrite map_map. apply map_ext. intros c. apply embed_clause_text.
    + intros _ c Hin Ht. apply in_map_iff in Hin as (c0 & <- & _).
      apply embed_clause_embedded. now rewrite embed_clause_text in Ht.
    + rewrite ensure_embeddings_run. cbn [parsed model all_clauses].
      f_equal.
      destruct (_ && _); [|reflexivity]. f_equal.
      rewrite map_map. apply map_ext. intros c. apply embed_clause_idempotent.
Qed.

(** ** What the scanning loop of stage 1 accumulates *)

(** One clause leaves the locals alone or appends its periods, at least
    one, and its text. *)
Lemma waiting_body_cases procedure terms acc c st acc' st' :
  waiting_body procedure terms acc c st = (Ok acc', st') ->
  acc' = acc \/
  exists t ps,
    text c = Some t /\ ps <> [] /\
    extract_waiting_periods (Py.lower t) = Ok ps /\
    acc' = ((fst acc ++ ps)%list, (snd acc ++ [t])%list).
Proof.
  unfold waiting_body. destruct (text c) as [t|].
  2:{ unfold ret. intros H. injection H as <- _. now left. }
  cbv zeta.
  destruct (negb (Py.contains "waiting period" (Py.lower t))).
  { unfold ret. intros H. injection H as <- _. now left. }
  assert (Hk : forall (b : bool) s0,
    (if b
     then bind (lift (extract_waiting_periods (Py.lower t)))
            (fun periods =>
               match periods with
               | [] => ret acc
               | _ :: _ => ret ((fst acc ++ periods)%list, (snd acc ++ [t])%list)
               end)
     else ret acc) s0 = (Ok acc', st') ->
    acc' = acc \/
    exists t0 ps,
      Some t = Some t0 /\ ps <> [] /\
      extract_waiting_periods (Py.lower t0) = Ok ps /\
      acc' = ((fst acc ++ ps)%list, (snd acc ++ [t0])%list)).
  { intros [|] s0; cbv [bind lift ret]; cbv beta.
    - destruct (extract_waiting_periods (Py.lower t)) as [[|z ps]|e] eqn:E;
        intros H; try discriminate.
      + injection H as <- _. now left.
      + injection H as <- _. right. exists t, (z :: ps).
        repeat split; [discriminate|exact E].
    - intros H. injection H as <- _. now left. }
  cbv [bind read]. cbv beta.
  destruct (model st) as [encode|].
  - destruct (negb (term_mentioned terms (Py.lower t))).
    + cbv [try_except bind]. cbv beta. rewrite compute_similarity_run.
      cbv [ret]. cbv beta. apply Hk.
    + cbv [ret]. cbv beta. apply Hk.
  - cbv [ret]. cbv beta. apply Hk.
Qed.


Lemma scan_invariant_loop procedure terms cs0 : forall cs acc st acc' st',
  incl cs cs0 -> scan_invariant cs0 acc ->
  for_each (waiting_body procedure terms) cs acc st = (Ok acc', st') ->
  scan_invariant cs0 acc'.
Proof.
  induction cs as [|c cs IH]; intros acc st acc' st' Hi Ha; cbn [for_each].
  - unfold ret. intros H. injection H as <- _. exact Ha.
  - unfold bind.
    destruct (waiting_body procedure terms acc c st) as [[acc1|e] st1] eqn:Eb;
      [|discriminate].
    apply IH; [intros x Hx; apply Hi; now right|].
    destruct (waiting_body_cases _ _ _ _ _ _ _ Eb)
      as [->|(t & ps & Ht & Hps & He & ->)]; [exact Ha|].
    destruct Ha as (H1 & H2 & H3). unfold scan_invariant. cbn [fst snd].
    split; [|split].
    + split; intros H.
      * apply app_eq_nil in H as [_ H]. contradiction.
      * apply app_eq_nil in H as [_ H]. discriminate.
    + apply Forall_app. split; [exact H2|].
      pose proof (extract_waiting_periods_spec (Py.lower t)) as Hx.
      now rewrite He in Hx.
    + intros t0 Hin. apply in_app_or in Hin as [Hin|[<-|[]]]; [auto|].
      exists c. split; [apply Hi; now left|exact Ht].
Qed.

Lemma scan_invariant_start cs : scan_invariant cs ([], []).
Proof.
  unfold scan_invariant. cbn [fst snd]. split; [tauto|].
  split; [constructor|intros t []].
Qed.

Lemma in_firstn {A} (x : A) n : forall l, In x (firstn n l) -> In x l.
Proof.
  induction n as [|n IH]; intros [|y l] H; simpl in H; try contradiction.
  destruct H as [->|H]; [now left|right; auto].
Qed.

Lemma minimum_lower_bound w ws :
  Forall (fun x => (1 <= x)%Z) (w :: ws) -> (1 <= minimum w ws)%Z.
Proof.
  intros H. destruct (minimum_is_min w ws) as [Hin _].
  rewrite Forall_forall in H. exact (H _ Hin).
Qed.

(** What a decision of stage 1 looks like. *)
Lemma waiting_decision_cites st d :
  fst (check_waiting_period st) = Ok (Some d) ->
  decision d = rejected /\ confidence d = 9 / 10 /\
  (1 <= length (clauses d) <= 2)%nat /\
  (forall t, In t (clauses d) ->
     exists c, In c (all_clauses st) /\ text c = Some t) /\
  exists dur min_required p,
    justification d = [WaitingShortfall dur min_required p] /\
    dur <> 0%Z /\ (dur < min_required)%Z /\ (1 <= min_required)%Z.
Proof.
  unfold check_waiting_period, parsed_get. cbv [bind read]. cbv beta.
  destruct (match parsed st with
            | Some p => policy_duration_months p
            | None => None end) as [dur|]; [|discriminate].
  destruct (match parsed st with
            | Some p => Parse.procedure p
            | None => None end) as [proc|]; [|discriminate].
  destruct (negb (truthy_int (Some dur))) eqn:Ed; [discriminate|].
  cbn [orb].
  destruct (negb (truthy_str (Some proc)) || negb (truthy_list (all_clauses st)));
    [discriminate|].
  destruct (for_each _ _ _ st) as [[[wp rc]|e] st1] eqn:Ef; [|discriminate].
  pose proof (scan_invariant_loop _ _ (all_clauses st) _ _ _ _ _
                (incl_refl _) (scan_invariant_start _) Ef)
    as (H1 & H2 & H3).
  cbn [fst snd] in H1, H2, H3.
  destruct wp as [|w ws]; [discriminate|].
  destruct (dur <? minimum w ws)%Z eqn:El; [|discriminate].
  unfold ret. cbn [fst]. intros H. injection H as <-. cbn.
  split; [reflexivity|]. split; [reflexivity|]. split; [|split].
  - destruct rc as [|t1 [|t2 rc]]; cbn [firstn length]; [|lia|lia].
    exfalso. destruct H1 as [_ H1]. specialize (H1 eq_refl). discriminate.
  - intros t Hin. apply H3. exact (in_firstn t 2 rc Hin).
  - exists dur, (minimum w ws), proc. split; [reflexivity|].
    apply Z.ltb_lt in El.
    simpl in Ed. apply negb_false_iff, negb_true_iff, Z.eqb_neq in Ed.
    pose proof (minimum_lower_bound w ws H2). auto.
Qed.

(** ** The shape of a decision *)

Lemma classify_shape p cs best d :
  (forall c, fst best = Some c -> In c cs) ->
  classify p best = Ok d ->
  coverage_shape d /\ cites_corpus cs d.
Proof.
  intros Hin. unfold classify, coverage_shape, cites_corpus.
  destruct (fst best) as [c|].
  - specialize (Hin c eq_refl).
    destruct (gtb (snd best) (45 / 100)) eqn:E1.
    + apply gtb_true in E1. unfold text_of.
      destruct (text c) as [t|] eqn:Et; cbn [rbind]; [|discriminate].
      destruct (is_excluded (Py.lower t)) eqn:Ex; intros H; injection H as <-;
        cbn [decision clauses confidence].
      * split.
        -- exists t. split; [reflexivity|]. split; [exact Ex|].
           unfold Rmin. destruct (Rle_dec (9 / 10) (snd best + 1 / 10)); lra.
        -- intros t0 [<-|[]]. eauto.
      * split.
        -- exists t. split; [reflexivity|]. split; [exact Ex|lra].
        -- intros t0 [<-|[]]. eauto.
    + apply gtb_false in E1. destruct (gtb (snd best) (25 / 100)) eqn:E2.
      * apply gtb_true in E2. unfold text_of.
        destruct (text c) as [t|] eqn:Et; cbn [rbind]; [|discriminate].
        intros H; injection H as <-; cbn [decision clauses confidence]. split.
        -- right. exists t. split; [reflexivity|lra].
        -- intros t0 [<-|[]]. eauto.
      * intros H; injection H as <-; cbn. split; [now left|intros t0 []].
  - intros H; injection H as <-; cbn. split; [now left|intros t0 []].
Qed.

Lemma coverage_decision_shape st d :
  fst (check_procedure_coverage st) = Ok d ->
  coverage_shape d /\ cites_corpus (all_clauses st) d.
Proof.
  unfold check_procedure_coverage, parsed_get. cbv [bind read]. cbv beta.
  assert (Hz : forall d0, (d0 = missing_information \/ d0 = semantic_error) ->
           coverage_shape d0 /\ cites_corpus (all_clauses st) d0).
  { intros d0 [->| ->]; (split; [now left|intros t []]). }
  destruct (match parsed st with
            | Some p => Parse.procedure p
            | None => None end) as [p|].
  2:{ unfold ret. cbn [fst]. intros H. injection H as <-. apply Hz. auto. }
  destruct (model st) as [encode|].
  2:{ unfold ret. cbn [fst]. intros H. injection H as <-. apply Hz. auto. }
  destruct (negb (truthy_str (Some p)) || negb (truthy_list (all_clauses st))).
  { unfold ret. cbn [fst]. intros H. injection H as <-. apply Hz. auto. }
  destruct (encode p) as [v|e].
  - unfold lift. cbn [fst]. apply classify_shape.
    intros c. apply find_best_in.
  - unfold ret. cbn [fst]. intros H. injection H as <-. apply Hz. auto.
Qed.

(** Whatever [make_decision] returns cites only texts of clauses of the
    corpus, and has one of two shapes: the rejection of the waiting-period
    gate (confidence 0.9, one or two cited texts), or a result of the
    coverage stage, where an approval cites one text without exclusion
    keyword and has confidence above 0.45, a rejection cites one text with
    an exclusion keyword and has confidence in [0.55, 0.9], and a review
    cites nothing with confidence 0 or one text with confidence in
    (0.25, 0.45]. *)
Theorem make_decision_shape (st : Store) (d : Decision) :
  fst (make_decision st) = Ok d ->
  cites_corpus (all_clauses st) d /\
  (waiting_shape d \/ coverage_shape d).
Proof.
  intros H. destruct (parsed st) as [q|] eqn:Hq.
  - rewrite (make_decision_run st q Hq) in H.
    rewrite (read_only_run check_waiting_period st
               read_only_check_waiting_period) in H.
    destruct (fst (check_waiting_period st)) as [[d'|]|e] eqn:Hw.
    + cbn [fst] in H. injection H as ->.
      destruct (waiting_decision_cites st d Hw) as (H1 & H2 & H3 & H4 & _).
      split; [exact H4|]. left. repeat split; auto; lia.
    + destruct (coverage_decision_shape st d H) as [H1 H2]. auto.
    + discriminate.
  - unfold make_decision in H. cbv [bind read] in H. cbv beta in H.
    rewrite Hq in H. unfold ret in H. cbn [fst] in H. injection H as <-.
    split; [intros t []|]. right. now left.
Qed.

Lemma make_decision_shape_witness :
  waiting_shape
    {| decision := rejected;
       justification := [WaitingShortfall 12 24 "Knee Surgery"];
       clauses := ["Knee surgery has a waiting period of 24 months."];
       confidence := 9 / 10 |}
  \/ coverage_shape
    {| decision := rejected;
       justification := [WaitingShortfall 12 24 "Knee Surgery"];
       clauses := ["Knee surgery has a waiting period of 24 months."];
       confidence := 9 / 10 |}.
Proof.
  exact (proj2 (make_decision_shape (store_without_encoder 12) _
                  (f_equal fst rejection_without_encoder))).
Defined.

(** ** Parsing, then deciding *)

(** Parsing then deciding, as the callers do: a query in which
    [parse_query] finds no procedure is sent to review with confidence 0,
    whatever the corpus and the encoder. *)
Theorem process_query_without_procedure (query : Parse.pyobj)
    (p : ParsedQuery) (cs : list Clause) (m : option Encoder) :
  parse_query query = Ok p -> Parse.procedure p = None ->
  process_query query cs m = Ok missing_information.
Proof.
  intros Hp Hn. unfold process_query. rewrite Hp. cbn [rbind].
  set (st := {| parsed := Some p; all_clauses := cs; model := m |}).
  rewrite (make_decision_run st p eq_refl).
  assert (Hs : truthy_str (procedure_of st) = false).
  { unfold procedure_of. cbn. now rewrite Hn. }
  rewrite (stage1_skips st (or_introl Hs)).
  now rewrite (stage2_missing st (or_introl Hs)).
Qed.

Lemma process_query_without_procedure_witness :
  process_query (PyStr "46M 6-month policy Pune") [covered_clause]
                (Some (fun _ => Ok [1]))
  = Ok missing_information.
Proof.
  apply (process_query_without_procedure _
           {| raw_query := PyStr "46M 6-month policy Pune"; age := Some 46%Z;
              gender := Some Male; procedure := None; location := Some "Pune";
              policy_duration_months := Some 6%Z |}).
  - vm_compute. reflexivity.
  - reflexivity.
Defined.

(** ** The gate and the policy duration *)

Lemma similarity_with_parsed st p t1 t2 :
  similarity (with_parsed st p) t1 t2 = similarity st t1 t2.
Proof.
  pose proof (similarity_cases (with_parsed st p) t1 t2) as H1.
  pose proof (similarity_cases st t1 t2) as H2.
  cbn [model with_parsed] in H1.
  destruct (model st) as [encode|]; [|congruence].
  destruct (negb (Py.truthy t1) || negb (Py.truthy t2)); [congruence|].
  destruct (similarity_body encode t1 t2); congruence.
Qed.

Lemma waiting_body_with_parsed procedure terms acc c st p :
  fst (waiting_body procedure terms acc c (with_parsed st p)) =
  fst (waiting_body procedure terms acc c st).
Proof.
  unfold waiting_body. destruct (text c) as [t|]; [|reflexivity].
  cbv zeta.
  destruct (negb (Py.contains "waiting period" (Py.lower t))); [reflexivity|].
  cbv [bind read]. cbv beta. cbn [model with_parsed].
  destruct (model st) as [encode|].
  - destruct (negb (term_mentioned terms (Py.lower t))).
    + cbv [try_except bind]. cbv beta. rewrite !compute_similarity_run.
      rewrite similarity_with_parsed. cbv [ret]. cbv beta.
      destruct (if gtb (similarity st procedure (Py.lower t)) (3 / 10)
                then true else term_mentioned terms (Py.lower t));
        cbv [lift]; [|reflexivity].
      destruct (extract_waiting_periods (Py.lower t)) as [[|z ps]|e];
        reflexivity.
    + cbv [ret]. cbv beta.
      destruct (term_mentioned terms (Py.lower t)); cbv [lift];
        [|reflexivity].
      destruct (extract_waiting_periods (Py.lower t)) as [[|z ps]|e];
        reflexivity.
  - cbv [ret]. cbv beta.
    destruct (term_mentioned terms (Py.lower t)); cbv [lift]; [|reflexivity].
    destruct (extract_waiting_periods (Py.lower t)) as [[|z ps]|e];
      reflexivity.
Qed.

(** The scan of the corpus does not read the [parsed] dictionary. *)
Lemma scan_with_parsed procedure terms st p : forall cs acc,
  fst (for_each (waiting_body procedure terms) cs acc (with_parsed st p)) =
  fst (for_each (waiting_body procedure terms) cs acc st).
Proof.
  induction cs as [|c cs IH]; intros acc; cbn [for_each]; [reflexivity|].
  unfold bind.
  rewrite (read_only_run (waiting_body procedure terms acc c) (with_parsed st p)
             (read_only_waiting_body _ _ _ _)).
  rewrite (read_only_run (waiting_body procedure terms acc c) st
             (read_only_waiting_body _ _ _ _)).
  rewrite waiting_body_with_parsed.
  destruct (fst (waiting_body procedure terms acc c st)); [apply IH|reflexivity].
Qed.

(** The waiting-period gate is monotone in the policy duration: with
    everything else unchanged, a query that passes the gate with [d] months
    passes it with any longer duration, and a query rejected with the
    longer duration is rejected with [d] months, citing the same clauses. *)
Theorem waiting_gate_monotone (st : Store) (q : ParsedQuery) (d d' : Z) :
  parsed st = Some q -> policy_duration_months q = Some d ->
  d <> 0%Z -> d' <> 0%Z -> (d <= d')%Z ->
  let st' := with_parsed st (set_duration q d') in
  (fst (check_waiting_period st) = Ok None ->
   fst (check_waiting_period st') = Ok None) /\
  (forall dec', fst (check_waiting_period st') = Ok (Some dec') ->
   exists dec, fst (check_waiting_period st) = Ok (Some dec) /\
               clauses dec = clauses dec').
Proof.
  intros Hq Hd Hd0 Hd0' Hle st'.
  unfold check_waiting_period, parsed_get. cbv [bind read]. cbv beta.
  cbn [parsed all_clauses st' with_parsed policy_duration_months
       Parse.procedure set_duration].
  rewrite Hq, Hd.
  destruct (Parse.procedure q) as [proc|]; [|split; [reflexivity|discriminate]].
  assert (Ht : forall x, x <> 0%Z -> negb (truthy_int (Some x)) = false).
  { intros x Hx. simpl. apply negb_false_iff, negb_true_iff.
    now apply Z.eqb_neq. }
  rewrite (Ht d Hd0), (Ht d' Hd0'). cbn [orb].
  destruct (negb (truthy_str (Some proc)) || negb (truthy_list (all_clauses st)));
    [split; [reflexivity|discriminate]|].
  pose proof (scan_with_parsed (Py.lower proc) (Py.split (Py.lower proc)) st
                (set_duration q d') (all_clauses st) ([], [])) as E.
  fold st' in E.
  destruct (for_each _ (all_clauses st) ([], []) st') as [r' st1'].
  destruct (for_each _ (all_clauses st) ([], []) st) as [r st1].
  cbn [fst] in E. subst r'.
  destruct r as [[wp rc]|e]; [|split; [discriminate|discriminate]].
  destruct wp as [|w ws]; [split; [reflexivity|discriminate]|].
  destruct (d <? minimum w ws)%Z eqn:E1;
    destruct (d' <? minimum w ws)%Z eqn:E2; unfold ret; cbn [fst].
  - split; [discriminate|]. intros dec' H. injection H as <-.
    eexists. split; reflexivity.
  - split; [discriminate|discriminate].
  - apply Z.ltb_ge in E1. apply Z.ltb_lt in E2. lia.
  - split; [reflexivity|discriminate].
Qed.

Lemma waiting_gate_monotone_witness :
  fst (check_waiting_period
         (with_parsed (store_without_encoder 30)
                      (set_duration (knee_query 30) 36))) = Ok None.
Proof.
  apply (proj1 (waiting_gate_monotone (store_without_encoder 30) (knee_query 30)
                  30 36 eq_refl eq_refl ltac:(discriminate) ltac:(discriminate)
                  ltac:(lia))).
  exact (f_equal fst store_without_encoder_passes_gate).
Defined.

(** ** What the decision reads of the parsed query *)

Lemma check_waiting_period_reads st q q' :
  parsed st = Some q ->
  Parse.procedure q' = Parse.procedure q ->
  policy_duration_months q' = policy_duration_months q ->
  fst (check_waiting_period (with_parsed st q')) = fst (check_waiting_period st).
Proof.
  intros Hq Hp Hd.
  unfold check_waiting_period, parsed_get. cbv [bind read]. cbv beta.
  cbn [parsed all_clauses with_parsed]. rewrite Hq, Hp, Hd.
  destruct (policy_duration_months q) as [d|]; [|reflexivity].
  destruct (Parse.procedure q) as [proc|]; [|reflexivity].
  destruct (negb (truthy_int (Some d)) || negb (truthy_str (Some proc))
            || negb (truthy_list (all_clauses st))); [reflexivity|].
  pose proof (scan_with_parsed (Py.lower proc) (Py.split (Py.lower proc)) st
                q' (all_clauses st) ([], [])) as E.
  destruct (for_each _ (all_clauses st) ([], []) (with_parsed st q'))
    as [r' st1'].
  destruct (for_each _ (all_clauses st) ([], []) st) as [r st1].
  cbn [fst] in E. subst r'.
  destruct r as [[wp rc]|e]; [|reflexivity].
  destruct wp as [|w ws]; [reflexivity|].
  destruct (d <? minimum w ws)%Z; reflexivity.
Qed.

Lemma check_procedure_coverage_reads st q q' :
  parsed st = Some q ->
  Parse.procedure q' = Parse.procedure q ->
  fst (check_procedure_coverage (with_parsed st q')) =
  fst (check_procedure_coverage st).
Proof.
  intros Hq Hp.
  unfold check_procedure_coverage, parsed_get. cbv [bind read]. cbv beta.
  cbn [parsed all_clauses model with_parsed]. rewrite Hq, Hp.
  destruct (Parse.procedure q) as [proc|]; [|reflexivity].
  destruct (model st) as [encode|]; [|reflexivity].
  destruct (negb (truthy_str (Some proc)) || negb (truthy_list (all_clauses st)));
    [reflexivity|].
  destruct (encode proc); reflexivity.
Qed.

(** [make_decision] reads the procedure and the policy duration of the
    parsed query and nothing else: age, gender, location and [raw_query] do
    not change its result. *)
Theorem make_decision_reads_procedure_and_duration (st : Store)
    (q q' : ParsedQuery) :
  parsed st = Some q ->
  Parse.procedure q' = Parse.procedure q ->
  policy_duration_months q' = policy_duration_months q ->
  fst (make_decision (with_parsed st q')) = fst (make_decision st).
Proof.
  intros Hq Hp Hd.
  rewrite (make_decision_run st q Hq).
  rewrite (make_decision_run (with_parsed st q') q' eq_refl).
  rewrite (read_only_run check_waiting_period st
             read_only_check_waiting_period).
  rewrite (read_only_run check_waiting_period (with_parsed st q')
             read_only_check_waiting_period).
  rewrite (check_waiting_period_reads st q q' Hq Hp Hd).
  destruct (fst (check_waiting_period st)) as [[d|]|e]; try reflexivity.
  apply (check_procedure_coverage_reads st q q' Hq Hp).
Qed.

Lemma make_decision_reads_procedure_and_duration_witness :
  fst (make_decision
         (with_parsed (store_without_encoder 12)
            {| raw_query := PyStr "70F knee surgery 12 months Mumbai";
               age := Some 70%Z; gender := Some Female;
               procedure := Some "Knee Surgery"; location := Some "Mumbai";
               policy_duration_months := Some 12%Z |}))
  = fst (make_decision (store_without_encoder 12)).
Proof.
  apply (make_decision_reads_procedure_and_duration
           (store_without_encoder 12) (knee_query 12)); reflexivity.
Defined.

(** ** Why [make_decision] can raise *)

Lemma waiting_body_raises procedure terms acc c st e st' :
  waiting_body procedure terms acc c st = (Raise e, st') ->
  exists t, text c = Some t /\
            extract_waiting_periods (Py.lower t) = Raise e.
Proof.
  unfold waiting_body. destruct (text c) as [t|]; [|discriminate].
  cbv zeta.
  destruct (negb (Py.contains "waiting period" (Py.lower t))); [discriminate|].
  assert (Hk : forall (b : bool) s0,
    (if b
     then bind (lift (extract_waiting_periods (Py.lower t)))
            (fun periods =>
               match periods with
               | [] => ret acc
               | _ :: _ => ret ((fst acc ++ periods)%list, (snd acc ++ [t])%list)
               end)
     else ret acc) s0 = (Raise e, st') ->
    exists t0, Some t = Some t0 /\
               extract_waiting_periods (Py.lower t0) = Raise e).
  { intros [|] s0; cbv [bind lift ret]; cbv beta; [|discriminate].
    destruct (extract_waiting_periods (Py.lower t)) as [[|z ps]|e0] eqn:E;
      intros H; try discriminate.
    injection H as <- _. eauto. }
  cbv [bind read]. cbv beta.
  destruct (model st) as [encode|].
  - destruct (negb (term_mentioned terms (Py.lower t))).
    + cbv [try_except bind]. cbv beta. rewrite compute_similarity_run.
      cbv [ret]. cbv beta. apply Hk.
    + cbv [ret]. cbv beta. apply Hk.
  - cbv [ret]. cbv beta. apply Hk.
Qed.

Lemma scan_raises procedure terms : forall cs acc st e st',
  for_each (waiting_body procedure terms) cs acc st = (Raise e, st') ->
  exists c t, In c cs /\ text c = Some t /\
              extract_waiting_periods (Py.lower t) = Raise e.
Proof.
  induction cs as [|c cs IH]; intros acc st e st'; cbn [for_each];
    [discriminate|].
  unfold bind.
  destruct (waiting_body procedure terms acc c st) as [[acc1|e1] st1] eqn:Eb.
  - intros H. destruct (IH _ _ _ _ H) as (c0 & t & Hin & Ht & He).
    exists c0, t. split; [now right|auto].
  - intros H. injection H as <- _.
    destruct (waiting_body_raises _ _ _ _ _ _ _ Eb) as (t & Ht & He).
    exists c, t. split; [now left|auto].
Qed.

Lemma check_waiting_period_raises st e :
  fst (check_waiting_period st) = Raise e ->
  exists c t, In c (all_clauses st) /\ text c = Some t /\
              extract_waiting_periods (Py.lower t) = Raise e.
Proof.
  unfold check_waiting_period, parsed_get. cbv [bind read]. cbv beta.
  destruct (match parsed st with
            | Some p => policy_duration_months p
            | None => None end) as [dur|]; [|discriminate].
  destruct (match parsed st with
            | Some p => Parse.procedure p
            | None => None end) as [proc|]; [|discriminate].
  destruct (negb (truthy_int (Some dur)) || negb (truthy_str (Some proc))
            || negb (truthy_list (all_clauses st))); [discriminate|].
  destruct (for_each _ _ _ st) as [[[wp rc]|e0] st1] eqn:Ef.
  - destruct wp as [|w ws]; [discriminate|].
    destruct (dur <? minimum w ws)%Z; discriminate.
  - cbn [fst]. intros H. injection H as <-. eapply scan_raises; eauto.
Qed.

Lemma check_procedure_coverage_raises st e :
  fst (check_procedure_coverage st) = Raise e ->
  e = KeyError /\
  exists c, In c (all_clauses st) /\ text c = None /\ embedding c <> None.
Proof.
  unfold check_procedure_coverage, parsed_get. cbv [bind read]. cbv beta.
  destruct (match parsed st with
            | Some p => Parse.procedure p
            | None => None end) as [p|]; [|discriminate].
  destruct (model st) as [encode|]; [|discriminate].
  destruct (negb (truthy_str (Some p)) || negb (truthy_list (all_clauses st)));
    [discriminate|].
  destruct (encode p) as [v|e0]; [|discriminate].
  unfold lift. cbn [fst]. unfold classify.
  pose proof (find_best_spec v (all_clauses st)) as (_ & _ & Hm).
  destruct (fst (find_best v (all_clauses st))) as [c|] eqn:Ef; [|discriminate].
  destruct Hm as (pre & post & Hc & Hs & _).
  assert (Hin : In c (all_clauses st)).
  { rewrite Hc. apply in_or_app. right. now left. }
  assert (He : embedding c <> None).
  { unfold score in Hs. destruct (embedding c); discriminate. }
  unfold text_of. destruct (text c) as [t|] eqn:Et.
  - cbn [rbind]. destruct (gtb _ _); [destruct (is_excluded _); discriminate|].
    destruct (gtb _ _); discriminate.
  - cbn [rbind].
    destruct (gtb _ _); [|destruct (gtb _ _); [|discriminate]];
      intros H; injection H as <-; split; eauto.
Qed.

(** [make_decision] can raise in two ways only: an [OverflowError], when
    a clause of the corpus, 309 characters long or more, states a day count
    too large for a float, or a [KeyError], when a clause that has an
    embedding has no text. *)
Theorem make_decision_raises (st : Store) (e : py_exn) :
  fst (make_decision st) = Raise e ->
  (e = OverflowError /\
   exists c t, In c (all_clauses st) /\ text c = Some t /\
               (309 <= String.length t)%nat /\
               extract_waiting_periods (Py.lower t) = Raise OverflowError) \/
  (e = KeyError /\
   exists c, In c (all_clauses st) /\ text c = None /\ embedding c <> None).
Proof.
  intros H. destruct (parsed st) as [q|] eqn:Hq.
  - rewrite (make_decision_run st q Hq) in H.
    rewrite (read_only_run check_waiting_period st
               read_only_check_waiting_period) in H.
    destruct (fst (check_waiting_period st)) as [[d|]|e0] eqn:Hw.
    + discriminate.
    + right. now apply check_procedure_coverage_raises.
    + cbn [fst] in H. injection H as <-.
      destruct (check_waiting_period_raises st e0 Hw) as (c & t & Hin & Ht & He).
      pose proof (extract_waiting_periods_spec (Py.lower t)) as Hs.
      rewrite He in Hs. destruct Hs as [-> Hl].
      unfold Py.lower in Hl. rewrite map_string_length in Hl.
      left. split; [reflexivity|]. exists c, t. auto.
  - unfold make_decision in H. cbv [bind read] in H. cbv beta in H.
    rewrite Hq in H. discriminate.
Qed.

Lemma make_decision_raises_witness :
  fst (make_decision overflow_store) = Raise OverflowError /\
  exists c t, In c (all_clauses overflow_store) /\ text c = Some t /\
              (309 <= String.length t)%nat /\
              extract_waiting_periods (Py.lower t) = Raise OverflowError.
Proof.
  assert (H : fst (make_decision overflow_store) = Raise OverflowError)
    by (lazy; reflexivity).
  split; [exact H|].
  destruct (make_decision_raises overflow_store OverflowError H)
    as [[_ Hc]|[He _]]; [exact Hc|discriminate He].
Defined.

(** ** The best score and the order of the corpus *)

Lemma best_score_upper v cs cs' :
  (forall c, In c cs -> In c cs') ->
  snd (find_best v cs) <= snd (find_best v cs').
Proof.
  intros Hi.
  pose proof (find_best_spec v cs) as (_ & _ & Hm).
  pose proof (find_best_spec v cs') as (H0 & Hub & _).
  destruct (fst (find_best v cs)) as [c|].
  - destruct Hm as (pre & post & Hc & Hs & _).
    apply (Hub c); [|exact Hs]. apply Hi. rewrite Hc.
    apply in_or_app. right. now left.
  - rewrite Hm. exact H0.
Qed.

(** The best score of the coverage stage grows with the corpus and does
    not depend on the order of the clauses or on repetitions. *)
Theorem best_score_monotone (v : vec) :
  (forall cs cs',
      (forall c, In c cs -> In c cs') ->
      snd (find_best v cs) <= snd (find_best v cs')) /\
  (forall cs cs',
      (forall c, In c cs <-> In c cs') ->
      snd (find_best v cs) = snd (find_best v cs')).
Proof.
  split; [intros cs cs'; apply best_score_upper|].
  intros cs cs' H. apply Rle_antisym; apply best_score_upper; intros c; apply H.
Qed.

(** ** Parsing then deciding returns on texts of ordinary length *)

(** The callers' sequence, [parse_query] then [make_decision], returns a
    decision for every query of at most 308 characters over a corpus in
    which every clause has a text of at most 308 characters, with or
    without an encoder. *)
Theorem process_query_returns (s : string) (cs : list Clause)
    (m : option Encoder) :
  (String.length s <= 308)%nat ->
  (forall c, In c cs ->
     exists t, text c = Some t /\ (String.length t <= 308)%nat) ->
  exists d, process_query (PyStr s) cs m = Ok d.
Proof.
  intros Hs Hc. unfold process_query.
  destruct (parse_query (PyStr s)) as [p|e] eqn:Ep; cbn [rbind].
  2:{ destruct (parse_query_str_raises s e Ep) as [_ Hl]. lia. }
  set (st := {| parsed := Some p; all_clauses := cs; model := m |}).
  destruct (fst (make_decision st)) as [d|e] eqn:Ed; [eauto|exfalso].
  rewrite (make_decision_run st p eq_refl) in Ed.
  rewrite (read_only_run check_waiting_period st
             read_only_check_waiting_period) in Ed.
  destruct (fst (check_waiting_period st)) as [[d|]|e0] eqn:Hw.
  - discriminate.
  - destruct (check_procedure_coverage_raises st e Ed)
      as (_ & c & Hin & Ht & _).
    destruct (Hc c Hin) as (t & Ht' & _). congruence.
  - destruct (check_waiting_period_raises st e0 Hw) as (c & t & Hin & Ht & He).
    pose proof (extract_waiting_periods_spec (Py.lower t)) as Hx.
    rewrite He in Hx. destruct Hx as [_ Hl].
    unfold Py.lower in Hl. rewrite map_string_length in Hl.
    destruct (Hc c Hin) as (t' & Ht' & Hl').
    assert (t' = t) by congruence. subst t'. lia.
Qed.

Lemma process_query_returns_witness :
  exists d,
    process_query (PyStr "46M knee surgery 6-month policy Pune")
                  [covered_clause] (Some (fun _ => Ok [1])) = Ok d.
Proof.
  apply process_query_returns.
  - simpl. lia.
  - intros c [<-|[]]. eexists. split; [reflexivity|]. simpl. lia.
Defined.

(** ** Deciding on the corpus [_ensure_embeddings] leaves behind *)




End EngineMore.
